(** * bucket: SigV4 request authenticator and filesystem object store

    A shallow embedding of package [domain] of kfc-manager/bucket
    (auth.go, storage.go, util.go), of package [server] (server.go) and
    of main.go, together with the pieces of the Go standard library they
    call: [crypto/sha256], [crypto/hmac],
    [encoding/hex], the [strings] helpers, [sort.Strings],
    [unicode.IsLower]/[unicode.IsDigit], [net.ParseIP] and the [os] file
    operations.

    Go strings are byte sequences; they are modelled by [string] (a list
    of 8-bit [ascii]).  Byte slices are modelled by [list Z] with every
    element in [0, 256). *)

From Stdlib Require Import ZArith Ascii String List Bool Lia Sorted Permutation.
From stdpp Require Import base option list strings gmap fin_maps.

Local Open Scope Z_scope.

(* ===================================================================== *)
(** ** Bytes and strings *)
(* ===================================================================== *)

Module Bytes.

Definition byte_of_ascii (a : ascii) : Z := Z.of_N (N_of_ascii a).
Definition ascii_of_byte (b : Z) : ascii := ascii_of_N (Z.to_N (b mod 256)).

(** [[]byte(s)] *)
Fixpoint of_string (s : string) : list Z :=
  match s with
  | EmptyString => []
  | String a r => byte_of_ascii a :: of_string r
  end.

(** [string(b)] *)
Fixpoint to_string (b : list Z) : string :=
  match b with
  | [] => EmptyString
  | x :: r => String (ascii_of_byte x) (to_string r)
  end.

End Bytes.

(* ===================================================================== *)
(** ** crypto/sha256 (FIPS 180-4), on 32-bit words held in [Z] *)
(* ===================================================================== *)

Module SHA256.

Definition w32 (x : Z) : Z := x mod 2 ^ 32.
Definition add32 (x y : Z) : Z := w32 (x + y).
Definition rotr (n x : Z) : Z :=
  w32 (Z.lor (Z.shiftr x n) (Z.shiftl x (32 - n))).
Definition not32 (x : Z) : Z := Z.lxor x 0xffffffff.

Definition Ch (x y z : Z) : Z := Z.lxor (Z.land x y) (Z.land (not32 x) z).
Definition Maj (x y z : Z) : Z :=
  Z.lxor (Z.lxor (Z.land x y) (Z.land x z)) (Z.land y z).
Definition Sigma0 (x : Z) : Z := Z.lxor (Z.lxor (rotr 2 x) (rotr 13 x)) (rotr 22 x).
Definition Sigma1 (x : Z) : Z := Z.lxor (Z.lxor (rotr 6 x) (rotr 11 x)) (rotr 25 x).
Definition sigma0 (x : Z) : Z := Z.lxor (Z.lxor (rotr 7 x) (rotr 18 x)) (Z.shiftr x 3).
Definition sigma1 (x : Z) : Z := Z.lxor (Z.lxor (rotr 17 x) (rotr 19 x)) (Z.shiftr x 10).

(** The first 64 primes. *)
Definition primes : list Z :=
  [2; 3; 5; 7; 11; 13; 17; 19; 23; 29; 31; 37; 41; 43; 47; 53; 59; 61; 67; 71;
   73; 79; 83; 89; 97; 101; 103; 107; 109; 113; 127; 131; 137; 139; 149; 151;
   157; 163; 167; 173; 179; 181; 191; 193; 197; 199; 211; 223; 227; 229; 233;
   239; 241; 251; 257; 263; 269; 271; 277; 281; 283; 293; 307; 311].

(** Integer cube root, one bit at a time from bit [n - 1] down. *)
Fixpoint cbrt_bits (n : nat) (x r : Z) : Z :=
  match n with
  | O => r
  | S k =>
      let r' := r + 2 ^ Z.of_nat k in
      if r' * r' * r' <=? x then cbrt_bits k x r' else cbrt_bits k x r
  end.

(** The round constants: the first 32 bits of the fractional parts of
    the cube roots of the first 64 primes (0x428a2f98 for 2, ...,
    0xc67178f2 for 311). *)
Definition K : list Z :=
  Eval vm_compute in map (fun p => w32 (cbrt_bits 40 (p * 2 ^ 96) 0)) primes.

(** The eight chaining words [h0 .. h7]. *)
Record digest := Digest {
  h0 : Z; h1 : Z; h2 : Z; h3 : Z; h4 : Z; h5 : Z; h6 : Z; h7 : Z }.

(** The initial hash value: the first 32 bits of the fractional parts of
    the square roots of the first 8 primes (0x6a09e667 for 2, ...). *)
Definition frac_sqrt (p : Z) : Z := w32 (Z.sqrt (p * 2 ^ 64)).

Definition init : digest :=
  Eval vm_compute in
  Digest (frac_sqrt 2) (frac_sqrt 3) (frac_sqrt 5) (frac_sqrt 7)
         (frac_sqrt 11) (frac_sqrt 13) (frac_sqrt 17) (frac_sqrt 19).

(** Big-endian packing of bytes into words and back. *)
Fixpoint words_of_bytes (b : list Z) : list Z :=
  match b with
  | b0 :: b1 :: b2 :: b3 :: r =>
      (Z.shiftl b0 24 + Z.shiftl b1 16 + Z.shiftl b2 8 + b3) :: words_of_bytes r
  | _ => []
  end.

Definition bytes_of_word (w : Z) : list Z :=
  [ Z.shiftr w 24 mod 256; Z.shiftr w 16 mod 256; Z.shiftr w 8 mod 256; w mod 256 ].

(** Message schedule.  [acc] holds [W(t-1), W(t-2), ...] (newest first). *)
Fixpoint extend (n : nat) (acc : list Z) : list Z :=
  match n with
  | O => acc
  | S n' =>
      let w := add32 (add32 (sigma1 (nth 1 acc 0)) (nth 6 acc 0))
                     (add32 (sigma0 (nth 14 acc 0)) (nth 15 acc 0)) in
      extend n' (w :: acc)
  end.

Definition schedule (block : list Z) : list Z :=
  rev (extend 48 (rev (words_of_bytes block))).

Definition round (d : digest) (kw : Z * Z) : digest :=
  let '(k, w) := kw in
  let t1 := add32 (add32 (add32 (add32 (h7 d) (Sigma1 (h4 d)))
                                (Ch (h4 d) (h5 d) (h6 d))) k) w in
  let t2 := add32 (Sigma0 (h0 d)) (Maj (h0 d) (h1 d) (h2 d)) in
  Digest (add32 t1 t2) (h0 d) (h1 d) (h2 d) (add32 (h3 d) t1) (h4 d) (h5 d) (h6 d).

(** One call of [block] on a 64-byte chunk. *)
Definition compress (d : digest) (block : list Z) : digest :=
  let r := fold_left round (combine K (schedule block)) d in
  Digest (add32 (h0 d) (h0 r)) (add32 (h1 d) (h1 r))
         (add32 (h2 d) (h2 r)) (add32 (h3 d) (h3 r))
         (add32 (h4 d) (h4 r)) (add32 (h5 d) (h5 r))
         (add32 (h6 d) (h6 r)) (add32 (h7 d) (h7 r)).

(** Padding: 0x80, zeros up to 56 mod 64, then the bit length on 8 bytes. *)
Definition be64 (n : Z) : list Z :=
  map (fun i => Z.shiftr n (8 * i) mod 256) [7; 6; 5; 4; 3; 2; 1; 0].

Definition pad (msg : list Z) : list Z :=
  let len := Z.of_nat (length msg) in
  let zeros := Z.to_nat ((55 - len) mod 64) in
  msg ++ [0x80] ++ repeat 0 zeros ++ be64 (8 * len).

Fixpoint blocks (n : nat) (d : digest) (b : list Z) : digest :=
  match n with
  | O => d
  | S n' => blocks n' (compress d (firstn 64 b)) (skipn 64 b)
  end.

(** [sha256.Sum256] *)
Definition Sum256 (data : list Z) : list Z :=
  let p := pad data in
  let d := blocks (length p / 64) init p in
  bytes_of_word (h0 d) ++ bytes_of_word (h1 d) ++ bytes_of_word (h2 d) ++
  bytes_of_word (h3 d) ++ bytes_of_word (h4 d) ++ bytes_of_word (h5 d) ++
  bytes_of_word (h6 d) ++ bytes_of_word (h7 d).

End SHA256.

(* ===================================================================== *)
(** ** encoding/hex *)
(* ===================================================================== *)

Module Hex.

Definition hextable : string := "0123456789abcdef".

Definition digit (n : Z) : ascii :=
  match String.get (Z.to_nat n) hextable with
  | Some c => c
  | None => "0"%char
  end.

(** [hex.EncodeToString] *)
Fixpoint EncodeToString (b : list Z) : string :=
  match b with
  | [] => EmptyString
  | x :: r =>
      String (digit (Z.shiftr (x mod 256) 4))
        (String (digit (Z.land (x mod 256) 15)) (EncodeToString r))
  end.

End Hex.

(** util.go: [Sha256Hash] *)
Definition Sha256Hash (data : list Z) : string :=
  let hash := SHA256.Sum256 data in
  Hex.EncodeToString hash.

(* ===================================================================== *)
(** ** crypto/hmac with SHA-256 (RFC 2104) *)
(* ===================================================================== *)

Module HMAC.

Definition blocksize : nat := 64.

(** Keys longer than one block are hashed first; the key is then padded
    with zeros to the block size. *)
Definition block_key (key : list Z) : list Z :=
  let k := if (blocksize <? length key)%nat then SHA256.Sum256 key else key in
  k ++ repeat 0 (blocksize - length k).

Definition xor_pad (c : Z) (k : list Z) : list Z := map (fun b => Z.lxor b c) k.

Definition Sum (key data : list Z) : list Z :=
  let k := block_key key in
  SHA256.Sum256 (xor_pad 0x5c k ++ SHA256.Sum256 (xor_pad 0x36 k ++ data)).

End HMAC.

(** auth.go: [hmacHash] *)
Definition hmacHash (key : list Z) (data : string) : list Z :=
  HMAC.Sum key (Bytes.of_string data).

(* ===================================================================== *)
(** ** unicode/utf8 and the unicode predicates *)
(* ===================================================================== *)

Module UTF8.

Definition RuneError : Z := 0xFFFD.
Definition RuneSelf : Z := 0x80.

Definition cont (b : Z) : bool := (0x80 <=? b) && (b <=? 0xBF).
Definition between (lo hi b : Z) : bool := (lo <=? b) && (b <=? hi).

(** [utf8.DecodeRune]: the first rune of [b] and its width in bytes.
    Invalid or truncated encodings give [(RuneError, 1)]; the empty input
    gives [(RuneError, 0)]. *)
Definition DecodeRune (b : list Z) : Z * nat :=
  match b with
  | [] => (RuneError, 0%nat)
  | b0 :: r =>
      if b0 <? RuneSelf then (b0, 1%nat)
      else if between 0xC2 0xDF b0 then
        match r with
        | b1 :: _ =>
            if cont b1 then (Z.lor (Z.shiftl (Z.land b0 0x1F) 6) (Z.land b1 0x3F), 2%nat)
            else (RuneError, 1%nat)
        | _ => (RuneError, 1%nat)
        end
      else if between 0xE0 0xEF b0 then
        match r with
        | b1 :: b2 :: _ =>
            let lo := if b0 =? 0xE0 then 0xA0 else 0x80 in
            let hi := if b0 =? 0xED then 0x9F else 0xBF in
            if between lo hi b1 && cont b2 then
              (Z.lor (Z.lor (Z.shiftl (Z.land b0 0x0F) 12)
                            (Z.shiftl (Z.land b1 0x3F) 6)) (Z.land b2 0x3F), 3%nat)
            else (RuneError, 1%nat)
        | _ => (RuneError, 1%nat)
        end
      else if between 0xF0 0xF4 b0 then
        match r with
        | b1 :: b2 :: b3 :: _ =>
            let lo := if b0 =? 0xF0 then 0x90 else 0x80 in
            let hi := if b0 =? 0xF4 then 0x8F else 0xBF in
            if between lo hi b1 && cont b2 && cont b3 then
              (Z.lor (Z.lor (Z.lor (Z.shiftl (Z.land b0 0x07) 18)
                                   (Z.shiftl (Z.land b1 0x3F) 12))
                            (Z.shiftl (Z.land b2 0x3F) 6)) (Z.land b3 0x3F), 4%nat)
            else (RuneError, 1%nat)
        | _ => (RuneError, 1%nat)
        end
      else (RuneError, 1%nat)
  end.

(** [utf8.RuneStart] *)
Definition RuneStart (b : Z) : bool := negb (Z.land b 0xC0 =? 0x80).

(** [utf8.DecodeLastRune]: the last rune of [b] and its width. *)
Definition DecodeLastRune (b : list Z) : Z * nat :=
  match rev b with
  | [] => (RuneError, 0%nat)
  | last :: before =>
      if last <? RuneSelf then (last, 1%nat)
      else
        (* walk back over at most three more bytes to a rune start *)
        let back :=
          match before with
          | c1 :: r1 =>
              if RuneStart c1 then 2%nat
              else match r1 with
                   | c2 :: r2 =>
                       if RuneStart c2 then 3%nat
                       else match r2 with
                            | _ :: _ => 4%nat
                            | [] => 3%nat
                            end
                   | [] => 2%nat
                   end
          | [] => 1%nat
          end in
        let tail := skipn (length b - back) b in
        let '(r, size) := DecodeRune tail in
        if (size =? back)%nat then (r, size) else (RuneError, 1%nat)
  end.

(** The runes of a string in order, as produced by [for _, c := range s]. *)
Fixpoint runes_fuel (n : nat) (b : list Z) : list Z :=
  match n with
  | O => []
  | S n' =>
      match b with
      | [] => []
      | _ => let '(r, size) := DecodeRune b in r :: runes_fuel n' (skipn size b)
      end
  end.

Definition runes (s : string) : list Z :=
  let b := Bytes.of_string s in runes_fuel (length b) b.

End UTF8.

(** The range tables [unicode.Lower] and [unicode.Digit] and the IPv6
    branch of [net.ParseIP] are data and code of the Go standard library.
    [unicode.IsLower] and [unicode.IsDigit] answer for runes up to
    [MaxLatin1] from a fixed property table, reproduced below, and only
    consult the range tables above it; the tables are taken as they are,
    as components of the runtime the program is linked against. *)
Class GoRuntime := {
  unicode_Lower : Z -> bool;   (* membership in [unicode.Lower], runes > 0xFF *)
  unicode_Digit : Z -> bool;   (* membership in [unicode.Digit], runes > 0xFF *)
  parseIPv6 : string -> bool   (* [netip.parseIPv6] succeeds with no zone *)
}.

Module Unicode.

Definition MaxLatin1 : Z := 0xFF.

Section Predicates.
Context {rt : GoRuntime}.

(** [unicode.IsLower] *)
Definition IsLower (r : Z) : bool :=
  if (0 <=? r) && (r <=? MaxLatin1) then
    UTF8.between 0x61 0x7A r || (r =? 0xB5)
    || UTF8.between 0xDF 0xF6 r || UTF8.between 0xF8 0xFF r
  else unicode_Lower r.

(** [unicode.IsDigit] *)
Definition IsDigit (r : Z) : bool :=
  if (0 <=? r) && (r <=? MaxLatin1) then UTF8.between 0x30 0x39 r
  else unicode_Digit r.

End Predicates.

(** [unicode.IsSpace]: the Latin-1 switch, then the [White_Space] table. *)
Definition IsSpace (r : Z) : bool :=
  if (0 <=? r) && (r <=? MaxLatin1) then
    UTF8.between 0x09 0x0D r || (r =? 0x20) || (r =? 0x85) || (r =? 0xA0)
  else
    (r =? 0x1680) || UTF8.between 0x2000 0x200A r || UTF8.between 0x2028 0x2029 r
    || (r =? 0x202F) || (r =? 0x205F) || (r =? 0x3000).

End Unicode.

(* ===================================================================== *)
(** ** package strings, and sort.Strings *)
(* ===================================================================== *)

(** [s[n:]] *)
Fixpoint slice_from (n : nat) (s : string) : string :=
  match n, s with
  | O, _ => s
  | S n', String _ r => slice_from n' r
  | S _, EmptyString => EmptyString
  end.

Module Strings.

Definition LF : string := String (ascii_of_nat 10) EmptyString.

(** [strings.HasPrefix] *)
Definition HasPrefix (s p : string) : bool := String.prefix p s.

(** [strings.HasSuffix]:
    [len(s) >= len(suffix) && s[len(s)-len(suffix):] == suffix] *)
Definition HasSuffix (s suffix : string) : bool :=
  (String.length suffix <=? String.length s)%nat
  && String.eqb (slice_from (String.length s - String.length suffix) s) suffix.

(** [strings.Contains] *)
Fixpoint Contains (s substr : string) : bool :=
  String.prefix substr s
  || match s with
     | EmptyString => false
     | String _ r => Contains r substr
     end.

(** [strings.Split(s, sep)] for a one-byte separator: the substrings
    between the separators; never empty ([Split("", sep) = [""]]). *)
Fixpoint Split (s : string) (sep : ascii) : list string :=
  match s with
  | EmptyString => [EmptyString]
  | String a r =>
      if Ascii.eqb a sep then EmptyString :: Split r sep
      else match Split r sep with
           | x :: xs => String a x :: xs
           | [] => [String a EmptyString]
           end
  end.

(** [strings.Cut(s, sep)] for a one-byte separator. *)
Fixpoint Cut (s : string) (sep : ascii) : option (string * string) :=
  match s with
  | EmptyString => None
  | String a r =>
      if Ascii.eqb a sep then Some (EmptyString, r)
      else match Cut r sep with
           | Some (x, y) => Some (String a x, y)
           | None => None
           end
  end.

(** [strings.SplitN(s, sep, 2)] for a one-byte separator. *)
Definition SplitN2 (s : string) (sep : ascii) : list string :=
  match Cut s sep with
  | Some (x, y) => [x; y]
  | None => [s]
  end.

(** [strings.TrimLeftFunc(s, unicode.IsSpace)] on bytes. *)
Fixpoint trim_left (n : nat) (b : list Z) : list Z :=
  match n with
  | O => b
  | S n' =>
      match b with
      | [] => []
      | _ =>
          let '(r, size) := UTF8.DecodeRune b in
          if Unicode.IsSpace r then trim_left n' (skipn size b) else b
      end
  end.

(** [strings.TrimRightFunc(s, unicode.IsSpace)] on bytes. *)
Fixpoint trim_right (n : nat) (b : list Z) : list Z :=
  match n with
  | O => b
  | S n' =>
      match b with
      | [] => []
      | _ =>
          let '(r, size) := UTF8.DecodeLastRune b in
          if Unicode.IsSpace r then trim_right n' (firstn (length b - size) b) else b
      end
  end.

(** [strings.TrimSpace].  The source runs a byte loop over ASCII and
    falls back to [TrimFunc(s, unicode.IsSpace)] at the first byte
    [>= RuneSelf]; both compute the same slice. *)
Definition TrimSpace (s : string) : string :=
  let b := Bytes.of_string s in
  let l := trim_left (length b) b in
  Bytes.to_string (trim_right (length l) l).

(** [strings.Join(elems, sep)] *)
Definition Join (elems : list string) (sep : string) : string :=
  String.concat sep elems.

End Strings.

Module Sort.

Fixpoint insert (x : string) (l : list string) : list string :=
  match l with
  | [] => [x]
  | y :: r => if String.leb x y then x :: l else y :: insert x r
  end.

(** [sort.Strings]: increasing order for Go's [<] on strings, which is
    the bytewise lexicographic order.  Equal strings are identical, so
    the sorted slice does not depend on the algorithm. *)
Definition Strings (l : list string) : list string := fold_right insert [] l.

End Sort.

(* ===================================================================== *)
(** ** Go values shared by the package *)
(* ===================================================================== *)

(** Error numbers the modelled file operations can report. *)
Inductive errno := ENOENT | ENOTDIR | EISDIR | EINVAL.

(** The dynamic types an [error] of the package can have. *)
Inductive error :=
| Error_ (msg : string) (Status : Z)          (* util.go: [&Error{msg, Status}] *)
| errorString (msg : string)                  (* [errors.New(msg)] *)
| PathError (op path : string) (e : errno)    (* [*fs.PathError] from package os *)
| wrapError (msg : string) (err : error).     (* [fmt.Errorf(msg + ": %w", err)] *)

Inductive result (A : Type) :=
| Ok (a : A)
| Err (e : error).
Arguments Ok {A} a.
Arguments Err {A} e.

Definition StatusBadRequest : Z := 400.
Definition StatusNotFound : Z := 404.
Definition StatusConflict : Z := 409.

(** Indexing a Go [map[string]string]: the zero value [""] when absent. *)
Definition index (m : gmap string string) (k : string) : string :=
  default EmptyString (m !! k).

(** [s[:len(s)-1]] for a non-empty [s] *)
Fixpoint drop_last (s : string) : string :=
  match s with
  | EmptyString => EmptyString
  | String a EmptyString => EmptyString
  | String a r => String a (drop_last r)
  end.

(* ===================================================================== *)
(** ** auth.go *)
(* ===================================================================== *)

Definition signAlgorithm : string := "AWS4-HMAC-SHA256".

Record Auth := { accessKey : string; secretKey : string }.

Definition NewAuth (accessKey secretKey : string) : Auth :=
  {| accessKey := accessKey; secretKey := secretKey |}.

Record authHeader := {
  credential : string;
  signedHeaders : string;
  signature : string }.

(** The [kv] map built by the loop of [parseAuthHeader]. *)
Definition parseFields (fields : list string) : gmap string string :=
  fold_left
    (fun kv field =>
       match Strings.SplitN2 (Strings.TrimSpace field) "=" with
       | [key; value] => <[key := value]> kv
       | _ => kv
       end)
    fields ∅.

Definition parseAuthHeader (a : Auth) (header : string) : result authHeader :=
  let prefix := signAlgorithm +:+ " " in
  if negb (Strings.HasPrefix header prefix) then
    Err (errorString "signing algorithm not supported")
  else
    let fields := Strings.Split (slice_from (String.length prefix) header) "," in
    let kv := parseFields fields in
    let cred := index kv "Credential" in
    let prefix := accessKey a +:+ "/" in
    if negb (Strings.HasPrefix cred prefix) then
      Err (errorString "invalid access key")
    else
      let cred := slice_from (String.length prefix) cred in
      Ok {| credential := cred;
            signedHeaders := index kv "SignedHeaders";
            signature := index kv "Signature" |}.

Definition signingKey (a : Auth) (cred : string) : list Z :=
  let key := Bytes.of_string ("AWS4" +:+ secretKey a) in
  let values := Strings.Split cred "/" in
  fold_left (fun key v => hmacHash key v) values key.

Definition canonicalUri (uri : string) : string :=
  if (String.length uri <? 1)%nat then "/"
  else hd EmptyString (Strings.Split uri "?").

Definition canonicalQuery (uri : string) : string :=
  let parts := Strings.Split uri "?" in
  let query := if (1 <? length parts)%nat then nth 1 parts EmptyString else EmptyString in
  let parts := Strings.Split query "&" in
  let parts := Sort.Strings parts in
  let str := fold_left (fun str v => str +:+ v +:+ "&") parts EmptyString in
  if (0 <? String.length str)%nat then drop_last str else str.

Definition canonicalHeaders (headers : gmap string string) (signed : list string) : string :=
  fold_left
    (fun result key =>
       result +:+ key +:+ ":" +:+ Strings.TrimSpace (index headers key) +:+ Strings.LF)
    signed EmptyString.

Definition canonicalRequest (method uri : string) (headers : gmap string string)
    (signed body : string) : string :=
  method +:+ Strings.LF +:+
  canonicalUri uri +:+ Strings.LF +:+
  canonicalQuery uri +:+ Strings.LF +:+
  canonicalHeaders headers (Strings.Split signed ";") +:+ Strings.LF +:+
  signed +:+ Strings.LF +:+ body.

Definition strToSign (algo date cred req : string) : string :=
  algo +:+ Strings.LF +:+ date +:+ Strings.LF +:+ cred +:+ Strings.LF +:+
  Sha256Hash (Bytes.of_string req).

(** The hex signature [Validate] recomputes for a parsed header. *)
Definition computedSignature (a : Auth) (method uri : string)
    (headers : gmap string string) (body : string) (h : authHeader) : string :=
  let req := canonicalRequest method uri headers (signedHeaders h) body in
  let str := strToSign signAlgorithm (index headers "x-amz-date") (credential h) req in
  let key := signingKey a (credential h) in
  Hex.EncodeToString (hmacHash key str).

Definition Validate (a : Auth) (method uri : string)
    (headers : gmap string string) (body : string) : option error :=
  if (String.length (index headers "authorization") <? 1)%nat then
    Some (errorString "authorization header missing")
  else
    match parseAuthHeader a (index headers "authorization") with
    | Err err => Some err
    | Ok authHeader =>
        let computed := computedSignature a method uri headers body authHeader in
        if negb (String.eqb computed (signature authHeader)) then
          Some (errorString "invalid signature")
        else None
    end.

(** The error kinds of the authenticator, as the source builds them. *)
Definition MissingAuthHeader : error := errorString "authorization header missing".
Definition UnsupportedAlgorithm : error := errorString "signing algorithm not supported".
Definition InvalidAccessKey : error := errorString "invalid access key".
Definition InvalidSignature : error := errorString "invalid signature".

(** The [Key=Value] fields of an [Authorization] header that starts with
    the algorithm tag: the map [kv] of [parseAuthHeader]. *)
Definition authFields (header : string) : gmap string string :=
  parseFields (Strings.Split (slice_from (String.length (signAlgorithm +:+ " ")) header) ",").

(** The header [parseAuthHeader] returns when it returns one. *)
Definition parsedHeader (a : Auth) (header : string) : authHeader :=
  {| credential := slice_from (String.length (accessKey a +:+ "/"))
                     (index (authFields header) "Credential");
     signedHeaders := index (authFields header) "SignedHeaders";
     signature := index (authFields header) "Signature" |}.

(** The canonical URI and query string in the words of the spec. *)

(** The portion of [s] before the first [c] (all of [s] without one). *)
Fixpoint before_first (c : ascii) (s : string) : string :=
  match s with
  | EmptyString => EmptyString
  | String a r => if Ascii.eqb a c then EmptyString else String a (before_first c r)
  end.

(** The portion of [s] after the first [c] (empty without one). *)
Fixpoint after_first (c : ascii) (s : string) : string :=
  match s with
  | EmptyString => EmptyString
  | String a r => if Ascii.eqb a c then r else after_first c r
  end.

(** Spec 4.1 step 2: the path before [?]; an empty path becomes [/]. *)
Definition canonicalUri_spec (uri : string) : string :=
  let path := before_first "?" uri in
  if String.eqb path "" then "/" else path.

(** Spec 4.1 step 3: split what follows [?] on [&], sort, join with [&]. *)
Definition canonicalQuery_spec (uri : string) : string :=
  Strings.Join (Sort.Strings (Strings.Split (after_first "?" uri) "&")) "&".

(** A request signed by hand, used as a running example. *)
Module Example_request.

Definition auth : Auth := NewAuth "test-access-key" "test-secret-key".
Definition scope : string := "20250601/us-east-1/s3/aws4_request".
Definition body_hash : string := Sha256Hash [].

Definition unsigned_headers : gmap string string :=
  <["host" := "localhost:8000"]>
  (<["x-amz-date" := "20250601T120000Z"]>
  (<["x-amz-content-sha256" := body_hash]> ∅)).

Definition signed_names : string := "host;x-amz-content-sha256;x-amz-date".

Definition expected : string :=
  Eval vm_compute in
  computedSignature auth "GET" "/test-bucket/test.txt?b=2&a=1" unsigned_headers body_hash
    {| credential := scope; signedHeaders := signed_names; signature := "" |}.

Definition authorization : string :=
  "AWS4-HMAC-SHA256 Credential=test-access-key/" +:+ scope +:+
  ", SignedHeaders=" +:+ signed_names +:+ ", Signature=" +:+ expected.

Definition headers : gmap string string :=
  <["authorization" := authorization]> unsigned_headers.

(** The same request signed over the [host] header alone. *)
Definition expected_host_only : string :=
  Eval vm_compute in
  computedSignature auth "GET" "/test-bucket/test.txt?b=2&a=1" unsigned_headers body_hash
    {| credential := scope; signedHeaders := "host"; signature := "" |}.

Definition authorization_host_only : string :=
  "AWS4-HMAC-SHA256 Credential=test-access-key/" +:+ scope +:+
  ", SignedHeaders=host, Signature=" +:+ expected_host_only.

Definition headers_host_only : gmap string string :=
  <["authorization" := authorization_host_only]> unsigned_headers.

End Example_request.

(* ===================================================================== *)
(** ** net.ParseIP *)
(* ===================================================================== *)

Module Net.

(** [netip.parseIPv4Fields]: [val], [pos], [digLen] are the loop
    variables; [first] tells [i == 0] and [prev_dot] tells
    [s[i-1] == '.']. *)
Fixpoint parseIPv4Fields (s : list Z) (val : Z) (pos digLen : nat)
    (first prev_dot : bool) : bool :=
  match s with
  | [] => negb (pos <? 3)%nat
  | c :: r =>
      if (0x30 <=? c) && (c <=? 0x39) then
        if (digLen =? 1)%nat && (val =? 0) then false
        else
          let val := val * 10 + c - 0x30 in
          if 255 <? val then false
          else parseIPv4Fields r val pos (S digLen) false false
      else if c =? 0x2E then
        if first || (match r with [] => true | _ => false end) || prev_dot then false
        else if (pos =? 3)%nat then false
        else parseIPv4Fields r 0 (S pos) 0%nat false true
      else false
  end.

Definition parseIPv4 (s : string) : bool :=
  parseIPv4Fields (Bytes.of_string s) 0 0%nat 0%nat true false.

(** [netip.ParseAddr] succeeds with an empty zone: the first of ['.'],
    [':'] and ['%'] in [s] selects the parser. *)
Fixpoint dispatch {rt : GoRuntime} (whole : string) (s : list Z) : bool :=
  match s with
  | [] => false
  | c :: r =>
      if c =? 0x2E then parseIPv4 whole
      else if c =? 0x3A then parseIPv6 whole
      else if c =? 0x25 then false
      else dispatch whole r
  end.

(** [net.ParseIP(s) != nil] *)
Definition ParseIP {rt : GoRuntime} (s : string) : bool :=
  dispatch s (Bytes.of_string s).

End Net.

(* ===================================================================== *)
(** ** storage.go: the bucket naming rules *)
(* ===================================================================== *)

Section Naming.
Context {rt : GoRuntime}.

Definition bad_request (msg : string) : option error :=
  Some (Error_ msg StatusBadRequest).

(** The test of the character loop on one rune. *)
Definition allowed_rune (char : Z) : bool :=
  Unicode.IsLower char || Unicode.IsDigit char || (char =? 0x2E) || (char =? 0x2D).

Definition first_byte (name : string) : Z := hd 0 (Bytes.of_string name).
Definition last_byte (name : string) : Z := List.last (Bytes.of_string name) 0.

Definition reserved_prefixes : list string := ["xn--"; "sthree-"; "amzn-s3-demo-"].
Definition reserved_suffixes : list string := ["-s3alias"; "--ol-s3"; "--x-s3"; "--table-s3"].

Definition validName (name : string) : option error :=
  if (String.length name <? 3)%nat then
    bad_request "bucket name must be at least 3 characters long"
  else if (63 <? String.length name)%nat then
    bad_request "bucket name must be not longer than 63 characters"
  else if negb (forallb allowed_rune (UTF8.runes name)) then
    bad_request "bucket name can consist only of lowercase letters, numbers, periods and hyphens"
  else if negb (Unicode.IsLower (first_byte name)) && negb (Unicode.IsDigit (first_byte name)) then
    bad_request "bucket name must begin with a letter or number"
  else if negb (Unicode.IsLower (last_byte name)) && negb (Unicode.IsDigit (last_byte name)) then
    bad_request "bucket name must end with a letter or number"
  else if Strings.Contains name ".." then
    bad_request "bucket name can not contain two adjacent periods"
  else if Net.ParseIP name then
    bad_request "bucket name can not be formatted as an IP address"
  else
    match List.find (Strings.HasPrefix name) reserved_prefixes with
    | Some p => bad_request ("bucket name can not begin with the prefix: '" +:+ p +:+ "'")
    | None =>
        match List.find (Strings.HasSuffix name) reserved_suffixes with
        | Some s => bad_request ("bucket name can not end with the suffix: '" +:+ s +:+ "'")
        | None => None
        end
    end.

End Naming.

(** A runtime whose tables above Latin-1 are empty and whose IPv6 parser
    accepts nothing; it serves to evaluate the functions on inputs that
    never reach those tables. *)
Definition latin1_runtime : GoRuntime :=
  {| unicode_Lower := fun _ => false;
     unicode_Digit := fun _ => false;
     parseIPv6 := fun _ => false |}.

(* ===================================================================== *)
(** ** package os: a directory tree without links or permissions *)
(* ===================================================================== *)

Module OS.

Inductive node :=
| Dir
| File (data : list Z).

(** A file system maps the absolute position of every entry (its
    components from the root) to its node.  The root [[]] is a directory
    that always exists; it is also the working directory. *)
Abbreviation FS := (gmap (list string) node).

Definition node_at (fs : FS) (p : list string) : option node :=
  match p with
  | [] => Some Dir
  | _ => fs !! p
  end.

Definition is_dir (fs : FS) (p : list string) : bool :=
  match node_at fs p with
  | Some Dir => true
  | _ => false
  end.

(** Path resolution, one component at a time.  Looking anything up in
    [cur] needs [cur] to be a directory; [""] and ["."] stay, [".."]
    goes to the parent, a name must exist. *)
Definition step (fs : FS) (cur : list string + errno) (c : string)
    : list string + errno :=
  match cur with
  | inr e => inr e
  | inl cur =>
      if negb (is_dir fs cur) then inr ENOTDIR
      else if String.eqb c "" || String.eqb c "." then inl cur
      else if String.eqb c ".." then inl (removelast cur)
      else match fs !! (cur ++ [c])%list with
           | Some _ => inl (cur ++ [c])%list
           | None => inr ENOENT
           end
  end.

Definition walk (fs : FS) (cs : list string) (from : list string + errno)
    : list string + errno :=
  fold_left (step fs) cs from.

Definition resolve (fs : FS) (name : string) : list string + errno :=
  if String.eqb name "" then inr ENOENT
  else walk fs (Strings.Split name "/") (inl []).

(** [os.Stat] *)
Definition Stat (fs : FS) (name : string) : result node :=
  match resolve fs name with
  | inl p =>
      match node_at fs p with
      | Some n => Ok n
      | None => Err (PathError "stat" name ENOENT)
      end
  | inr e => Err (PathError "stat" name e)
  end.

(** [os.ReadFile] *)
Definition ReadFile (fs : FS) (name : string) : result (list Z) :=
  match resolve fs name with
  | inl p =>
      match node_at fs p with
      | Some (File data) => Ok data
      | Some Dir => Err (PathError "read" name EISDIR)
      | None => Err (PathError "open" name ENOENT)
      end
  | inr e => Err (PathError "open" name e)
  end.

(** [os.MkdirAll]: like [step], but a missing name is created.  The
    directories made before a failure stay.  A failure is reported
    against the whole of [name]; [os.MkdirAll] reports it against the
    part of [name] at which it stopped, so the text of such an error is
    not the library's.  No statement below depends on the path that
    such an error names: two of them are compared up to that path. *)
Definition mkdir_step (st : FS * (list string + errno)) (c : string)
    : FS * (list string + errno) :=
  match st with
  | (fs, inr e) => (fs, inr e)
  | (fs, inl cur) =>
      if negb (is_dir fs cur) then (fs, inr ENOTDIR)
      else if String.eqb c "" || String.eqb c "." then (fs, inl cur)
      else if String.eqb c ".." then (fs, inl (removelast cur))
      else match fs !! (cur ++ [c])%list with
           | Some _ => (fs, inl (cur ++ [c])%list)
           | None => (<[(cur ++ [c])%list := Dir]> fs, inl (cur ++ [c])%list)
           end
  end.

Definition MkdirAll (fs : FS) (name : string) : FS * option error :=
  if String.eqb name "" then (fs, Some (PathError "mkdir" name ENOENT))
  else
    match fold_left mkdir_step (Strings.Split name "/") (fs, inl []) with
    | (fs', inl p) =>
        if is_dir fs' p then (fs', None)
        else (fs', Some (PathError "mkdir" name ENOTDIR))
    | (fs', inr e) => (fs', Some (PathError "mkdir" name e))
    end.

(** [os.WriteFile]: resolve the directory part, then create or truncate
    the last component. *)
Definition WriteFile (fs : FS) (name : string) (data : list Z) : FS * option error :=
  let cs := Strings.Split name "/" in
  let base := List.last cs EmptyString in
  if String.eqb name "" then (fs, Some (PathError "open" name ENOENT))
  else
    match walk fs (removelast cs) (inl []) with
    | inr e => (fs, Some (PathError "open" name e))
    | inl d =>
        if negb (is_dir fs d) then (fs, Some (PathError "open" name ENOTDIR))
        else if String.eqb base "" || String.eqb base "." || String.eqb base ".." then
          (fs, Some (PathError "open" name EISDIR))
        else match fs !! (d ++ [base])%list with
             | Some Dir => (fs, Some (PathError "open" name EISDIR))
             | _ => (<[(d ++ [base])%list := File data]> fs, None)
             end
    end.

(** [os.RemoveAll]: the entry and everything below it; no error when
    the entry does not exist. *)
Definition endsWithDot (name : string) : bool :=
  String.eqb name "." || Strings.HasSuffix name "/.".

Definition RemoveAll (fs : FS) (name : string) : FS * option error :=
  if String.eqb name "" then (fs, None)
  else if endsWithDot name then (fs, Some (PathError "RemoveAll" name EINVAL))
  else
    match resolve fs name with
    | inl p => (filter (fun kv => ¬ p `prefix_of` kv.1) fs, None)
    | inr ENOENT => (fs, None)
    | inr e => (fs, Some (PathError "RemoveAll" name e))
    end.

End OS.

(* ===================================================================== *)
(** ** storage.go: the object store *)
(* ===================================================================== *)

Record metadata := {
  ContentHash : string;     (* json:"content_sha256" *)
  ContentSize : Z;          (* json:"content_size" *)
  OriginalKey : string;     (* json:"original_key" *)
  LastModified : Z }.       (* json:"last_modified" *)

Definition is_hex_digit (a : ascii) : bool :=
  let c := Bytes.byte_of_ascii a in
  UTF8.between 0x30 0x39 c || UTF8.between 0x61 0x66 c.

Fixpoint is_hex (s : string) : bool :=
  match s with
  | EmptyString => true
  | String a r => is_hex_digit a && is_hex r
  end.

(** [encoding/json] for the [metadata] struct: the package is used
    through [json.Marshal] and [json.Unmarshal] alone. *)
Class JSONCodec := {
  json_Marshal : metadata -> result (list Z);
  json_Unmarshal : list Z -> result metadata
}.

(** What the store relies on: a marshalled struct unmarshals to a struct
    with the same [content_sha256] member when that member is a hex
    string. *)
Definition reads_back (codec : JSONCodec) : Prop :=
  forall m b,
    is_hex (ContentHash m) = true ->
    json_Marshal m = Ok b ->
    exists m', json_Unmarshal b = Ok m' /\ ContentHash m' = ContentHash m.

Record Storage := { path : string }.

Import OS.

Section Store.
Context {rt : GoRuntime} {codec : JSONCodec}.

Definition existPath (s : Storage) (fs : FS) (p : string) : bool :=
  match Stat fs (path s +:+ "/" +:+ p) with
  | Ok _ => true
  | Err _ => false
  end.

Definition NewBucket (s : Storage) (fs : FS) (name : string) : FS * option error :=
  match validName name with
  | Some err => (fs, Some err)
  | None =>
      if existPath s fs name then
        (fs, Some (Error_ "requested bucket name is not available" StatusConflict))
      else MkdirAll fs (path s +:+ "/" +:+ name)
  end.

Definition Get (s : Storage) (fs : FS) (bucket key : string) : result (list Z) :=
  if negb (existPath s fs bucket) then
    Err (Error_ "requested bucket does not exist" StatusNotFound)
  else
    let hash := Sha256Hash (Bytes.of_string key) in
    if negb (existPath s fs (bucket +:+ "/" +:+ hash)) then
      Err (Error_ "object under requested key does not exist" StatusNotFound)
    else
      let path := path s +:+ "/" +:+ bucket +:+ "/" +:+ hash in
      match ReadFile fs (path +:+ "/body") with
      | Err err => Err (wrapError "could not read data file" err)
      | Ok body =>
          match ReadFile fs (path +:+ "/metadata.json") with
          | Err err => Err (wrapError "could not read metadata file" err)
          | Ok b =>
              match json_Unmarshal b with
              | Err err => Err (wrapError "could not unmarshal metadata.json content" err)
              | Ok meta =>
                  if negb (String.eqb (Sha256Hash body) (ContentHash meta)) then
                    Err (errorString "content checksum mismatch")
                  else Ok body
              end
          end
      end.

(** [now] is the value of [time.Now().UTC().Unix()] at the call. *)
Definition Put (s : Storage) (fs : FS) (bucket key : string) (body : list Z) (now : Z)
    : FS * option error :=
  if negb (existPath s fs bucket) then
    (fs, Some (Error_ "requested bucket does not exist" StatusNotFound))
  else
    let hash := Sha256Hash (Bytes.of_string key) in
    let dir := path s +:+ "/" +:+ bucket +:+ "/" +:+ hash in
    match MkdirAll fs dir with
    | (fs, Some err) => (fs, Some err)
    | (fs, None) =>
        match json_Marshal {| ContentHash := Sha256Hash body;
                              ContentSize := Z.of_nat (length body);
                              OriginalKey := key;
                              LastModified := now |} with
        | Err err => (fs, Some (wrapError "could not marshal metadata struct" err))
        | Ok meta =>
            match WriteFile fs (dir +:+ "/metadata.json") meta with
            | (fs, Some err) => (fs, Some (wrapError "could not write metadata.json" err))
            | (fs, None) => WriteFile fs (dir +:+ "/body") body
            end
        end
    end.

Definition Delete (s : Storage) (fs : FS) (bucket key : string) : FS * option error :=
  if negb (existPath s fs bucket) then
    (fs, Some (Error_ "requested bucket does not exist" StatusNotFound))
  else
    let hash := Sha256Hash (Bytes.of_string key) in
    if negb (existPath s fs (bucket +:+ "/" +:+ hash)) then
      (fs, Some (Error_ "object under requested key does not exist" StatusNotFound))
    else RemoveAll fs (path s +:+ "/" +:+ bucket +:+ "/" +:+ hash).

End Store.

(** The error kinds of the store, as the source builds them. *)
Definition BucketNotFound : error := Error_ "requested bucket does not exist" StatusNotFound.
Definition ObjectNotFound : error :=
  Error_ "object under requested key does not exist" StatusNotFound.
Definition IntegrityError : error := errorString "content checksum mismatch".
Definition BucketAlreadyExists : error :=
  Error_ "requested bucket name is not available" StatusConflict.

(* ===================================================================== *)
(** ** A codec for the metadata file *)
(* ===================================================================== *)

(** [Marshal] writes what [json.Marshal] writes for a [metadata] struct
    (members in declaration order, no white space, strings escaped by
    [appendString] with HTML escaping on).  [Unmarshal] reads documents
    of that layout back and reports a syntax error for any other
    arrangement of the members; [json.Unmarshal] is more liberal there
    (white space, member order, unknown members, surrogate pairs).  The
    integers of the record are unbounded, where the struct has [int64]:
    [Unmarshal] reads a number of any size, and [json.Unmarshal] reports
    one outside [int64] as an error.  The store's theorems are stated
    for every [JSONCodec] (that [reads_back], where they need it); this
    one instantiates them. *)
Module JSON.

Definition htmlSafe (b : Z) : bool :=
  UTF8.between 0x20 0x7F b
  && negb ((b =? 0x22) || (b =? 0x26) || (b =? 0x3C) || (b =? 0x3E) || (b =? 0x5C)).

Definition hexdigit (n : Z) : Z := Bytes.byte_of_ascii (Hex.digit n).

(** The bytes [appendString] emits for the first rune of [b], and the
    number of input bytes they stand for. *)
Definition escape_rune (b : list Z) : list Z * nat :=
  match b with
  | [] => ([], 0%nat)
  | c :: _ =>
      if c <? UTF8.RuneSelf then
        if htmlSafe c then ([c], 1%nat)
        else if (c =? 0x5C) || (c =? 0x22) then ([0x5C; c], 1%nat)
        else if c =? 0x08 then ([0x5C; 0x62], 1%nat)
        else if c =? 0x0C then ([0x5C; 0x66], 1%nat)
        else if c =? 0x0A then ([0x5C; 0x6E], 1%nat)
        else if c =? 0x0D then ([0x5C; 0x72], 1%nat)
        else if c =? 0x09 then ([0x5C; 0x74], 1%nat)
        else ([0x5C; 0x75; 0x30; 0x30; hexdigit (Z.shiftr c 4); hexdigit (Z.land c 0xF)],
              1%nat)
      else
        let '(r, size) := UTF8.DecodeRune b in
        if (r =? UTF8.RuneError) && (size =? 1)%nat then
          ([0x5C; 0x75; 0x66; 0x66; 0x66; 0x64], size)
        else if (r =? 0x2028) || (r =? 0x2029) then
          ([0x5C; 0x75; 0x32; 0x30; 0x32; hexdigit (Z.land r 0xF)], size)
        else (firstn size b, size)
  end.

Fixpoint escape (n : nat) (b : list Z) : list Z :=
  match n with
  | O => []
  | S n' =>
      match b with
      | [] => []
      | _ => let '(out, size) := escape_rune b in out ++ escape n' (skipn size b)
      end
  end.

(** [appendString] *)
Definition quote (s : string) : list Z :=
  let b := Bytes.of_string s in [0x22] ++ escape (length b) b ++ [0x22].

(** [strconv.AppendInt(_, n, 10)] for [n >= 0], most significant digit
    first.  A number has at most [log2 n + 1] decimal digits. *)
Fixpoint digits (fuel : nat) (n : Z) (acc : list Z) : list Z :=
  match fuel with
  | O => acc
  | S fuel' =>
      let acc := (0x30 + n mod 10) :: acc in
      if n / 10 =? 0 then acc else digits fuel' (n / 10) acc
  end.

Definition itoa (n : Z) : list Z :=
  if n <? 0 then 0x2D :: digits (S (Z.to_nat (Z.log2 (- n)))) (- n) []
  else digits (S (Z.to_nat (Z.log2 n))) n [].

(** [{"name":] for the first member, [,"name":] for the others. *)
Definition member (first : bool) (name : string) : list Z :=
  [if first then 0x7B else 0x2C; 0x22] ++ Bytes.of_string name ++ [0x22; 0x3A].

Definition document (m : metadata) : list Z :=
  member true "content_sha256" ++ quote (ContentHash m) ++
  member false "content_size" ++ itoa (ContentSize m) ++
  member false "original_key" ++ quote (OriginalKey m) ++
  member false "last_modified" ++ itoa (LastModified m) ++ [0x7D].

(** [json.Marshal] never fails on this struct. *)
Definition Marshal (m : metadata) : result (list Z) := Ok (document m).

(** *** Reading back *)

Fixpoint expect (pre b : list Z) : option (list Z) :=
  match pre with
  | [] => Some b
  | x :: pre' =>
      match b with
      | y :: b' => if x =? y then expect pre' b' else None
      | [] => None
      end
  end.

Definition hexval (c : Z) : option Z :=
  if UTF8.between 0x30 0x39 c then Some (c - 0x30)
  else if UTF8.between 0x61 0x66 c then Some (c - 0x61 + 10)
  else if UTF8.between 0x41 0x46 c then Some (c - 0x41 + 10)
  else None.

(** [utf8.AppendRune] *)
Definition encode_rune (r : Z) : list Z :=
  if r <? 0x80 then [r]
  else if r <? 0x800 then [Z.lor 0xC0 (Z.shiftr r 6); Z.lor 0x80 (Z.land r 0x3F)]
  else if UTF8.between 0xD800 0xDFFF r then [0xEF; 0xBF; 0xBD]
  else [Z.lor 0xE0 (Z.shiftr r 12); Z.lor 0x80 (Z.land (Z.shiftr r 6) 0x3F);
        Z.lor 0x80 (Z.land r 0x3F)].

Definition simple_escape (x : Z) : option Z :=
  if (x =? 0x22) || (x =? 0x5C) || (x =? 0x2F) then Some x
  else if x =? 0x62 then Some 0x08
  else if x =? 0x66 then Some 0x0C
  else if x =? 0x6E then Some 0x0A
  else if x =? 0x72 then Some 0x0D
  else if x =? 0x74 then Some 0x09
  else None.

(** The contents of a string literal up to its closing quote, and what
    follows the quote. *)
Fixpoint unescape (b : list Z) : option (list Z * list Z) :=
  match b with
  | [] => None
  | c :: r =>
      if c =? 0x22 then Some ([], r)
      else if c =? 0x5C then
        match r with
        | x :: r1 =>
            if x =? 0x75 then
              match r1 with
              | a1 :: a2 :: a3 :: a4 :: r2 =>
                  match hexval a1, hexval a2, hexval a3, hexval a4 with
                  | Some v1, Some v2, Some v3, Some v4 =>
                      match unescape r2 with
                      | Some (s, rest) =>
                          Some (encode_rune (((v1 * 16 + v2) * 16 + v3) * 16 + v4) ++ s, rest)
                      | None => None
                      end
                  | _, _, _, _ => None
                  end
              | _ => None
              end
            else
              match simple_escape x with
              | Some y =>
                  match unescape r1 with
                  | Some (s, rest) => Some (y :: s, rest)
                  | None => None
                  end
              | None => None
              end
        | [] => None
        end
      else if c <? 0x20 then None
      else
        match unescape r with
        | Some (s, rest) => Some (c :: s, rest)
        | None => None
        end
  end.

Definition parse_string (b : list Z) : option (string * list Z) :=
  match b with
  | c :: r =>
      if c =? 0x22 then
        match unescape r with
        | Some (s, rest) => Some (Bytes.to_string s, rest)
        | None => None
        end
      else None
  | [] => None
  end.

Definition is_digit (c : Z) : bool := UTF8.between 0x30 0x39 c.

Fixpoint span_digits (b : list Z) (acc : Z) : Z * list Z :=
  match b with
  | c :: r => if is_digit c then span_digits r (acc * 10 + (c - 0x30)) else (acc, b)
  | [] => (acc, [])
  end.

(** A number that begins with [0] ends there: after a leading zero the
    scanner takes no further digit. *)
Definition parse_nat (b : list Z) : option (Z * list Z) :=
  match b with
  | c :: r =>
      if c =? 0x30 then Some (0, r)
      else if is_digit c then Some (span_digits b 0) else None
  | [] => None
  end.

Definition parse_int (b : list Z) : option (Z * list Z) :=
  match b with
  | c :: r =>
      if c =? 0x2D then
        match parse_nat r with
        | Some (n, rest) => Some (- n, rest)
        | None => None
        end
      else parse_nat b
  | [] => None
  end.

Definition syntax_error : error := errorString "invalid character in metadata document".

Definition Unmarshal (b : list Z) : result metadata :=
  match expect (member true "content_sha256") b with
  | None => Err syntax_error
  | Some b =>
  match parse_string b with
  | None => Err syntax_error
  | Some (hash, b) =>
  match expect (member false "content_size") b with
  | None => Err syntax_error
  | Some b =>
  match parse_int b with
  | None => Err syntax_error
  | Some (size, b) =>
  match expect (member false "original_key") b with
  | None => Err syntax_error
  | Some b =>
  match parse_string b with
  | None => Err syntax_error
  | Some (key, b) =>
  match expect (member false "last_modified") b with
  | None => Err syntax_error
  | Some b =>
  match parse_int b with
  | None => Err syntax_error
  | Some (modified, b) =>
      match b with
      | [c] =>
          if c =? 0x7D then
            Ok {| ContentHash := hash; ContentSize := size;
                  OriginalKey := key; LastModified := modified |}
          else Err syntax_error
      | _ => Err syntax_error
      end
  end end end end end end end end.

End JSON.

(** The codec as an instance of the interface the store is written against. *)
Definition metadata_codec : JSONCodec :=
  {| json_Marshal := JSON.Marshal; json_Unmarshal := JSON.Unmarshal |}.

(** A small store, used as a running example: the root [./data] of
    main.go, one bucket made by [NewBucket], one object put twice. *)
Module Example_store.
Import OS.

#[local] Existing Instance latin1_runtime.
#[local] Existing Instance metadata_codec.

Definition s : Storage := {| path := "./data" |}.
Definition fs0 : FS := {[ ["data"] := Dir ]}.
Definition fs1 : FS := (NewBucket s fs0 "test-bucket").1.
Definition hello : list Z := Bytes.of_string "hello world!".
Definition bye : list Z := Bytes.of_string "bye".
Definition fs2 : FS := (Put s fs1 "test-bucket" "test.txt" hello 1748779200).1.
Definition fs3 : FS := (Put s fs2 "test-bucket" "test.txt" bye 1748779260).1.

(** [fs2] after the body file of the object was overwritten behind the
    store's back. *)
Definition object_dir : list string :=
  ["data"; "test-bucket"; Sha256Hash (Bytes.of_string "test.txt")].
Definition tampered : list Z := Bytes.of_string "hello world?".
Definition fs2_corrupt : FS := <[object_dir ++ ["body"] := File tampered]> fs2.

(** [fs2] after the object was deleted. *)
Definition fs4 : FS := (Delete s fs2 "test-bucket" "test.txt").1.

(** A bucket string that reaches the bucket directory through the object
    directory of ["test.txt"] and back, and [fs2] after the object was
    deleted under that string. *)
Definition nested_bucket : string :=
  "test-bucket/" +:+ Sha256Hash (Bytes.of_string "test.txt") +:+ "/..".
Definition fs8 : FS := (Delete s fs2 nested_bucket "test.txt").1.

(** The same store opened under a root that goes through that object
    directory and back, and [fs2] after the object was deleted in it. *)
Definition nested_root : Storage :=
  {| path := "./data/test-bucket/" +:+ Sha256Hash (Bytes.of_string "test.txt") +:+ "/../.." |}.
Definition fs9 : FS := (Delete nested_root fs2 "test-bucket" "test.txt").1.

(** A second bucket holding an object under the same key, then a [Put]
    and a [Delete] in the first bucket. *)
Definition fs5 : FS :=
  (Put s (NewBucket s fs1 "other-bucket").1 "other-bucket" "test.txt" bye 1748779300).1.
Definition fs6 : FS := (Put s fs5 "test-bucket" "test.txt" hello 1748779400).1.
Definition fs7 : FS := (Delete s fs6 "test-bucket" "test.txt").1.

End Example_store.

(* ===================================================================== *)
(** ** The text of an error, and opening the store *)
(* ===================================================================== *)

(** [syscall.Errno.Error] *)
Definition errno_text (e : errno) : string :=
  match e with
  | ENOENT => "no such file or directory"
  | ENOTDIR => "not a directory"
  | EISDIR => "is a directory"
  | EINVAL => "invalid argument"
  end.

(** The method [Error()] of each dynamic type: domain.go for [*Error],
    package errors, [*fs.PathError] and [fmt.Errorf] with [%w]. *)
Fixpoint Error_text (e : error) : string :=
  match e with
  | Error_ msg _ => msg
  | errorString msg => msg
  | PathError op path en => op +:+ " " +:+ path +:+ ": " +:+ errno_text en
  | wrapError msg err => msg +:+ ": " +:+ Error_text err
  end.

(** [os.IsNotExist] *)
Definition IsNotExist (err : option error) : bool :=
  match err with
  | Some (PathError _ _ ENOENT) => true
  | _ => false
  end.

(** storage.go: [NewStorage] *)
Definition NewStorage (fs : OS.FS) (path : string) : result Storage :=
  match OS.Stat fs path with
  | Err err =>
      if IsNotExist (Some err) then
        Err (errorString ("path '" +:+ path +:+ "' does not exist"))
      else Err err
  | Ok info =>
      match info with
      | OS.Dir => Ok {| path := path |}
      | OS.File _ => Err (errorString ("path '" +:+ path +:+ "' is not a directory"))
      end
  end.

(* ===================================================================== *)
(** ** main.go *)
(* ===================================================================== *)

(** What [main] does with the environment and the file system it finds:
    it panics, or it gets to [server.New(port, auth, storage).Listen()],
    which serves until the listener fails. *)
Inductive outcome :=
| Panic (e : error)
| Serving (port : string) (auth : Auth) (storage : Storage).

(** [envOrPanic]: the value of the variable, or the panic value. *)
Definition envOrPanic (env : gmap string string) (key : string) : result string :=
  let value := index env key in
  if (String.length value <? 1)%nat then
    Err (errorString ("environment variable '" +:+ key +:+ "' is missing"))
  else Ok value.

Definition main (env : gmap string string) (fs : OS.FS) : outcome :=
  match envOrPanic env "ACCESS_KEY" with
  | Err e => Panic e
  | Ok accessKey =>
      match envOrPanic env "SECRET_KEY" with
      | Err e => Panic e
      | Ok secretKey =>
          let auth := NewAuth accessKey secretKey in
          match NewStorage fs "./data" with
          | Err err => Panic err
          | Ok storage => Serving "8000" auth storage
          end
      end
  end.

(* ===================================================================== *)
(** ** strings.ToLower and the keys of an http.Header *)
(* ===================================================================== *)

(** The case tables of package unicode above ASCII are data of the
    runtime, like the range tables. *)
Class CaseTables := {
  unicode_ToLower : Z -> Z     (* [unicode.ToLower] on runes > MaxASCII *)
}.

Module Case.

Definition is_upper (c : Z) : bool := UTF8.between 0x41 0x5A c.
Definition is_lower (c : Z) : bool := UTF8.between 0x61 0x7A c.

(** [utf8.AppendRune] *)
Definition AppendRune (r : Z) : list Z :=
  if (0 <=? r) && (r <=? 0x7F) then [r]
  else if (0 <=? r) && (r <=? 0x7FF) then
    [Z.lor 0xC0 (Z.shiftr r 6); Z.lor 0x80 (Z.land r 0x3F)]
  else if (r <? 0) || (0x10FFFF <? r) || UTF8.between 0xD800 0xDFFF r then [0xEF; 0xBF; 0xBD]
  else if r <=? 0xFFFF then
    [Z.lor 0xE0 (Z.shiftr r 12); Z.lor 0x80 (Z.land (Z.shiftr r 6) 0x3F);
     Z.lor 0x80 (Z.land r 0x3F)]
  else
    [Z.lor 0xF0 (Z.shiftr r 18); Z.lor 0x80 (Z.land (Z.shiftr r 12) 0x3F);
     Z.lor 0x80 (Z.land (Z.shiftr r 6) 0x3F); Z.lor 0x80 (Z.land r 0x3F)].

Section ToLower.
Context {ct : CaseTables}.

(** [unicode.ToLower] *)
Definition unicode_lower (r : Z) : Z :=
  if r <=? 0x7F then (if is_upper r then r + 0x20 else r)
  else unicode_ToLower r.

(** [strings.Map(unicode.ToLower, s)]: every rune of [s], an invalid
    byte counting as [RuneError], is mapped and written back; a negative
    result is dropped. *)
Definition Map_lower (s : string) : string :=
  Bytes.to_string
    (concat (map (fun c => let r := unicode_lower c in
                           if 0 <=? r then AppendRune r else [])
               (UTF8.runes s))).

(** [strings.ToLower]: bytes are mapped one by one when all of them are
    ASCII, and the string goes through [Map] otherwise. *)
Definition ToLower (s : string) : string :=
  let b := Bytes.of_string s in
  if forallb (fun c => c <? UTF8.RuneSelf) b then
    Bytes.to_string (map (fun c => if is_upper c then c + 0x20 else c) b)
  else Map_lower s.

End ToLower.
End Case.

Module Textproto.

(** [validHeaderFieldByte]: the token characters of RFC 7230. *)
Definition validHeaderFieldByte (c : Z) : bool :=
  UTF8.between 0x30 0x39 c || Case.is_lower c || Case.is_upper c
  || existsb (Z.eqb c)
       [0x21; 0x23; 0x24; 0x25; 0x26; 0x27; 0x2A; 0x2B; 0x2D; 0x2E; 0x5E; 0x5F; 0x60;
        0x7C; 0x7E].

(** The loop of [canonicalMIMEHeaderKey]: upper case at the start and
    after each [-], lower case elsewhere. *)
Fixpoint canonical (upper : bool) (b : list Z) : list Z :=
  match b with
  | [] => []
  | c :: r =>
      let c' := if upper && Case.is_lower c then c - 0x20
                else if negb upper && Case.is_upper c then c + 0x20
                else c in
      c' :: canonical (c' =? 0x2D) r
  end.

(** [textproto.CanonicalMIMEHeaderKey]: a key with a byte that is not a
    token character is returned as it is. *)
Definition CanonicalMIMEHeaderKey (s : string) : string :=
  let b := Bytes.of_string s in
  if forallb validHeaderFieldByte b then Bytes.to_string (canonical true b) else s.

End Textproto.

(* ===================================================================== *)
(** ** net/http as server.go uses it *)
(* ===================================================================== *)

Module HTTP.

(** An [http.Header] is a [map[string][]string]; it is listed in the
    order in which a [range] loop over it visits the keys. *)
Definition Header := list (string * list string).

(** [Header.Get]: the first value stored under the canonical form of
    the key, [""] without one. *)
Definition Header_Get (h : Header) (key : string) : string :=
  match list_find (fun kv => kv.1 = Textproto.CanonicalMIMEHeaderKey key) h with
  | Some (_, (_, v :: _)) => v
  | _ => EmptyString
  end.

(** The fields of an [*http.Request] the server reads.  [Body] is what
    [io.ReadAll(r.Body)] returns: the bytes read and the error, if any,
    that ended the reading.  [PathValue] gives the wildcards of the
    pattern the mux matched the path with. *)
Record Request := {
  Method : string;
  RequestURI : string;
  Host : string;
  header : Header;
  Body : list Z * option error;
  PathValue : string -> string }.

(** What a handler does to its [http.ResponseWriter] and to the log, in
    order. *)
Inductive effect :=
| WriteHeader (code : Z)                  (* [w.WriteHeader(code)] *)
| Write (data : list Z)                   (* [w.Write(data)] *)
| Error (msg : string) (code : Z)         (* [http.Error(w, msg, code)] *)
| Println (line : string).                (* [log.Println(line)] *)

Definition StatusOK : Z := 200.
Definition StatusNoContent : Z := 204.
Definition StatusUnauthorized : Z := 401.
Definition StatusMethodNotAllowed : Z := 405.
Definition StatusInternalServerError : Z := 500.

(** The status line of the response: the first [WriteHeader] fixes it,
    [http.Error] writes its code, and a [Write] that comes first implies
    [200 OK], as does a handler that writes nothing. *)
Fixpoint status (es : list effect) : Z :=
  match es with
  | [] => StatusOK
  | WriteHeader code :: _ => code
  | Write _ :: _ => StatusOK
  | Error _ code :: _ => code
  | Println _ :: r => status r
  end.

End HTTP.

(* ===================================================================== *)
(** ** server.go *)
(* ===================================================================== *)

Module Server.
Import HTTP.

(** A handler, with the state of the file system passed through it;
    [now] is the clock reading a [Put] takes. *)
Definition HandlerFunc := OS.FS -> Z -> Request -> OS.FS * list effect.

Record server := {
  port : string;
  auth : Auth;
  storage : Storage }.

(** The body [createBucket] answers with. *)
Definition created_document : string :=
  let q := String (ascii_of_nat 34) EmptyString in
  let tab := String (ascii_of_nat 9) EmptyString in
  "<?xml version=" +:+ q +:+ "1.0" +:+ q +:+ " encoding=" +:+ q +:+ "UTF-8" +:+ q +:+ "?>"
  +:+ Strings.LF +:+ tab +:+ "<CreateBucketConfiguration xmlns=" +:+ q
  +:+ "http://s3.amazonaws.com/doc/2006-03-01/" +:+ q +:+ ">"
  +:+ Strings.LF +:+ tab +:+ "</CreateBucketConfiguration>".

Definition writeError (err : error) : list effect :=
  match err with
  | Error_ msg Status => [Error (Error_text err) Status]
  | _ => [Println ("[ERROR] - " +:+ Error_text err);
          Error "internal server error" StatusInternalServerError]
  end.

Section Handlers.
Context {rt : GoRuntime} {codec : JSONCodec} {ct : CaseTables}.

(** The header map the middleware builds: [host] first, then every key
    of the request header in lower case. *)
Definition collect (r : Request) : gmap string string :=
  fold_left
    (fun headers k => <[Case.ToLower k := Header_Get (header r) k]> headers)
    (map fst (header r))
    (<["host" := Host r]> ∅).

Definition middleware (s : server) (methods : gmap string HandlerFunc) : HandlerFunc :=
  fun fs now r =>
    match methods !! Method r with
    | None => (fs, [Error "method not allowed" StatusMethodNotAllowed])
    | Some handler =>
        match Body r with
        | (_, Some _) => (fs, [Error "could not read request body" StatusBadRequest])
        | (body, None) =>
            let r := {| Method := Method r; RequestURI := RequestURI r; Host := Host r;
                        header := header r; Body := (body, None);
                        PathValue := PathValue r |} in
            let headers := collect r in
            if (String.length (index headers "x-amz-content-sha256") <? 1)%nat then
              (fs, [Error "header x-amz-content-sha256 is missing" StatusBadRequest])
            else
              let bodyHash := Sha256Hash body in
              if negb (String.eqb (index headers "x-amz-content-sha256") bodyHash) then
                (fs, [Error "content hash mismatch" StatusBadRequest])
              else
                match Validate (auth s) (Method r) (RequestURI r) headers bodyHash with
                | Some _ => (fs, [Error "unauthorized" StatusUnauthorized])
                | None => handler fs now r
                end
        end
    end.

Definition health (s : server) : HandlerFunc :=
  fun fs now r => (fs, [Write (Bytes.of_string "healthy")]).

Definition createBucket (s : server) : HandlerFunc :=
  fun fs now r =>
    match NewBucket (storage s) fs (PathValue r "name") with
    | (fs, Some err) => (fs, writeError err)
    | (fs, None) => (fs, [WriteHeader 201; Write (Bytes.of_string created_document)])
    end.

Definition getObject (s : server) : HandlerFunc :=
  fun fs now r =>
    match Get (storage s) fs (PathValue r "name") (PathValue r "key") with
    | Err err => (fs, writeError err)
    | Ok data => (fs, [WriteHeader StatusOK; Write data])
    end.

(** A failed read of the body is answered and the handler goes on with
    the bytes it has. *)
Definition putObject (s : server) : HandlerFunc :=
  fun fs now r =>
    let '(body, err) := Body r in
    let unread := match err with
                  | Some _ => [Error "could not read request body" StatusBadRequest]
                  | None => []
                  end in
    match Put (storage s) fs (PathValue r "name") (PathValue r "key") body now with
    | (fs, Some err) => (fs, unread ++ writeError err)
    | (fs, None) =>
        (fs, unread ++ [WriteHeader StatusNoContent; Write (Bytes.of_string "no content")])
    end.

Definition deleteObject (s : server) : HandlerFunc :=
  fun fs now r =>
    match Delete (storage s) fs (PathValue r "name") (PathValue r "key") with
    | (fs, Some err) => (fs, writeError err)
    | (fs, None) =>
        (fs, [WriteHeader StatusNoContent; Write (Bytes.of_string "no content")])
    end.

(** [New]: the method tables by pattern, and the handlers the mux is
    given: [health] for ["/"], the middleware around every table. *)
Definition New (port : string) (auth : Auth) (storage : Storage) : server :=
  {| port := port; auth := auth; storage := storage |}.

Definition routes (s : server) : gmap string (gmap string HandlerFunc) :=
  {[ "/{name}" := {[ "PUT" := createBucket s ]};
     "/{name}/{key}" :=
       <["GET" := getObject s]>
         (<["PUT" := putObject s]> {[ "DELETE" := deleteObject s ]}) ]}.

Definition router (s : server) : gmap string HandlerFunc :=
  <["/" := health s]> (middleware s <$> routes s).

End Handlers.
End Server.

(** Case tables that are empty above ASCII; they serve to evaluate the
    functions on header names, which are ASCII. *)
Definition ascii_case : CaseTables := {| unicode_ToLower := fun r => r |}.

Module Example_server.
Import HTTP Server.

#[local] Existing Instance latin1_runtime.
#[local] Existing Instance metadata_codec.
#[local] Existing Instance ascii_case.

Definition srv : server := New "8000" Example_request.auth Example_store.s.

Definition object_values (k : string) : string :=
  if String.eqb k "name" then "test-bucket"
  else if String.eqb k "key" then "test.txt" else "".

(** [PUT /test-bucket/test.txt] with the body [hello world!]. *)
Definition put_request : Request :=
  {| Method := "PUT"; RequestURI := "/test-bucket/test.txt"; Host := "localhost:8000";
     header := [("X-Amz-Date", ["20250601T120000Z"])];
     Body := (Example_store.hello, None);
     PathValue := object_values |}.

Definition get_request : Request :=
  {| Method := "GET"; RequestURI := "/test-bucket/test.txt"; Host := "localhost:8000";
     header := [("X-Amz-Date", ["20250601T120000Z"])];
     Body := ([], None);
     PathValue := object_values |}.

End Example_server.

(* ===================================================================== *)
(** ** Vocabulary of the statements *)
(* ===================================================================== *)

Section Vocabulary.
Import OS.

(** [sep] does not occur in [s]. *)
Fixpoint free_of (sep : ascii) (s : string) : bool :=
  match s with
  | EmptyString => true
  | String a r => negb (Ascii.eqb a sep) && free_of sep r
  end.

(** A path component that names an entry: no separator, and none of the
    special names. *)
Definition plain (c : string) : bool :=
  free_of "/" c && negb (String.eqb c "") && negb (String.eqb c ".")
  && negb (String.eqb c "..").

(** A byte that is not ASCII: a lead or continuation byte of UTF-8. *)
Definition high (x : Z) : Prop := 0x80 <= x.

(** The values a byte can have. *)
Definition in_range (c : Z) : Prop := 0 <= c < 256.

(** A byte that stands for itself inside a JSON string literal. *)
Definition ordinary (c : Z) : Prop := c <> 0x22 /\ c <> 0x5C /\ 0x20 <= c.

(** [w] is the inside of a string literal: scanning it up to the quote
    that follows succeeds and stops right after the quote. *)
Definition scannable (w : list Z) : Prop :=
  forall rest, exists s, JSON.unescape (w ++ 0x22 :: rest) = Some (s, rest).

(** The character class of the naming rules, on bytes. *)
Definition in_class (c : Z) : bool :=
  UTF8.between 0x61 0x7A c || UTF8.between 0x30 0x39 c || (c =? 0x2E) || (c =? 0x2D).

(** [fs'] keeps every entry of [fs], and keeps directories directories. *)
Definition extends (fs fs' : FS) : Prop :=
  forall p n, fs !! p = Some n ->
    exists n', fs' !! p = Some n' /\ (n = Dir -> n' = Dir).

(** The components of the bucket directory [s.path + "/" + bucket]. *)
Definition bucket_path (s : Storage) (bucket : string) : list string :=
  Strings.Split (path s +:+ "/" +:+ bucket) "/".

(** No component of a path is [".."]. *)
Definition no_dotdot_in (cs : list string) : bool :=
  forallb (fun c => negb (String.eqb c "..")) cs.

(** A path written without [".."], such as [./data] or [/srv/data]. *)
Definition no_dotdot (name : string) : bool := no_dotdot_in (Strings.Split name "/").

(** [BucketNameInvalid]: any [Error] with the bad-request status. *)
Definition BucketNameInvalid (e : error) : Prop :=
  exists msg, e = Error_ msg StatusBadRequest.

(** The errors of package os. *)
Definition is_PathError (e : error) : Prop := exists op p en, e = PathError op p en.

(** An error without the path string that a file-system error carries. *)
Fixpoint anonymous (e : error) : error :=
  match e with
  | PathError op _ en => PathError op "" en
  | wrapError msg err => wrapError msg (anonymous err)
  | _ => e
  end.

(** Equal results, up to the path named in a file-system error. *)
Definition same_result {A : Type} (r1 r2 : result A) : Prop :=
  match r1, r2 with
  | Ok a1, Ok a2 => a1 = a2
  | Err e1, Err e2 => anonymous e1 = anonymous e2
  | _, _ => False
  end.

(** The same resulting state and, up to that path, the same error. *)
Definition same_outcome (o1 o2 : FS * option error) : Prop :=
  o1.1 = o2.1 /\ option_map anonymous o1.2 = option_map anonymous o2.2.

(** [fs'] differs from [fs] at most at and below [p]. *)
Definition same_outside (p : list string) (fs fs' : FS) : Prop :=
  forall q, ¬ p `prefix_of` q -> fs' !! q = fs !! q.

(** Go's [<=] on strings. *)
Definition string_le (a b : string) : Prop := String.leb a b = true.

(** What the loop of [canonicalQuery] builds: every part followed by [&]. *)
Fixpoint trailing (parts : list string) : string :=
  match parts with
  | [] => ""
  | v :: r => v +:+ "&" +:+ trailing r
  end.

(** Every entry lies in a directory. *)
Definition well_formed (fs : FS) : Prop :=
  forall p c n, fs !! (p ++ [c]) = Some n -> is_dir fs p = true.

(** [json.Marshal] does not fail on a [metadata] struct. *)
Definition marshals (codec : JSONCodec) : Prop := forall m, exists b, json_Marshal m = Ok b.

(** The bytes of ["caf\195\169x"]: the letters c, a, f, U+00E9 in UTF-8, x. *)
Definition cafe : string := Bytes.to_string [0x63; 0x61; 0x66; 0xC3; 0xA9; 0x78].

End Vocabulary.

Section StoreVocabulary.
Context {rt : GoRuntime} {codec : JSONCodec}.
Import OS.

(** The rest of [Put] once the object directory [dir] has been made. *)
Definition put_files (dir : string) (fs : FS) (key : string) (body : list Z) (now : Z)
    : FS * option error :=
  match json_Marshal {| ContentHash := Sha256Hash body;
                        ContentSize := Z.of_nat (length body);
                        OriginalKey := key;
                        LastModified := now |} with
  | Err err => (fs, Some (wrapError "could not marshal metadata struct" err))
  | Ok meta =>
      match WriteFile fs (dir +:+ "/metadata.json") meta with
      | (fs, Some err) => (fs, Some (wrapError "could not write metadata.json" err))
      | (fs, None) => WriteFile fs (dir +:+ "/body") body
      end
  end.

(** What a [Put] that reports no error leaves behind. *)
Record stored (s : Storage) (fs : FS) (bucket key : string) (body : list Z) (now : Z)
    (pb : list string) (mb : list Z) : Prop := {
  stored_bucket : walk fs (bucket_path s bucket) (inl []) = inl pb;
  stored_bucket_dir : is_dir fs pb = true;
  stored_object_dir : fs !! (pb ++ [Sha256Hash (Bytes.of_string key)]) = Some Dir;
  stored_body :
    fs !! ((pb ++ [Sha256Hash (Bytes.of_string key)]) ++ ["body"]) = Some (File body);
  stored_metadata :
    fs !! ((pb ++ [Sha256Hash (Bytes.of_string key)]) ++ ["metadata.json"]) = Some (File mb);
  stored_marshal :
    json_Marshal {| ContentHash := Sha256Hash body;
                    ContentSize := Z.of_nat (length body);
                    OriginalKey := key;
                    LastModified := now |} = Ok mb }.

End StoreVocabulary.

(* ===================================================================== *)
(** ** Vocabulary for the authenticator, the naming rules and the server *)
(* ===================================================================== *)

(** The URI [path?t1&t2&...]. *)
Definition with_query (path : string) (params : list string) : string :=
  path +:+ "?" +:+ Strings.Join params "&".

(** What the loop of [parseAuthHeader] makes of one field: the key and
    the value around the first [=] of the trimmed field, if there is one. *)
Definition field (f : string) : option (string * string) :=
  match Strings.SplitN2 (Strings.TrimSpace f) "=" with
  | [key; value] => Some (key, value)
  | _ => None
  end.

(** The keys of the fields that have one, in order. *)
Definition field_keys (fields : list string) : list string :=
  omap (fun f => fst <$> field f) fields.

(** An [Authorization] header: the algorithm tag, a space, and the
    fields with commas between. *)
Definition authorization_of_fields (fields : list string) : string :=
  (signAlgorithm +:+ " ") +:+ Strings.Join fields ",".

(** The credential scope [date/region/service/aws4_request]. *)
Definition sigv4_scope (date region service : string) : string :=
  date +:+ "/" +:+ region +:+ "/" +:+ service +:+ "/aws4_request".

(** Printable ASCII other than the space. *)
Definition graphic_byte (c : Z) : bool := (0x21 <=? c) && (c <=? 0x7E).

Definition graphic (s : string) : bool := forallb graphic_byte (Bytes.of_string s).

(** The header a client sends for a scope, a list of signed header
    names and a signature. *)
Definition authorization_value (a : Auth) (scope signed sig : string) : string :=
  authorization_of_fields
    ["Credential=" +:+ accessKey a +:+ "/" +:+ scope;
     " SignedHeaders=" +:+ signed;
     " Signature=" +:+ sig].

(** The decimal text of four numbers with dots between, as in
    [192.168.5.4]. *)
Definition dotted_quad (a b c d : Z) : string :=
  Bytes.to_string
    (JSON.itoa a ++ 0x2E :: JSON.itoa b ++ 0x2E :: JSON.itoa c ++ 0x2E :: JSON.itoa d).

(** The digits of a number from 0 to 255, written without a leading zero. *)
Definition octet (ds : list Z) : bool :=
  match ds with
  | [d1] => JSON.is_digit d1
  | [d1; d2] => JSON.is_digit d1 && negb (d1 =? 0x30) && JSON.is_digit d2
  | [d1; d2; d3] =>
      JSON.is_digit d1 && negb (d1 =? 0x30) && JSON.is_digit d2 && JSON.is_digit d3
      && ((d1 - 0x30) * 100 + (d2 - 0x30) * 10 + (d3 - 0x30) <=? 255)
  | _ => false
  end.

(** A lower-case ASCII letter or an ASCII digit. *)
Definition alnum_byte (c : Z) : bool := UTF8.between 0x61 0x7A c || UTF8.between 0x30 0x39 c.

(** A digit or a dot. *)
Definition ip_byte (c : Z) : bool := JSON.is_digit c || (c =? 0x2E).

(** Two dots next to each other. *)
Fixpoint adjacent_dots (l : list Z) : bool :=
  match l with
  | a :: r => match r with
              | b :: _ => (a =? 0x2E) && (b =? 0x2E) || adjacent_dots r
              | [] => false
              end
  | [] => false
  end.

(** A string [appendString] writes as it is: ASCII that needs no escape. *)
Definition verbatim (s : string) : bool :=
  forallb (fun c => (c <? UTF8.RuneSelf) && JSON.htmlSafe c) (Bytes.of_string s).

(** An error that is not an [*Error] of the package. *)
Definition internal (e : error) : Prop :=
  match e with
  | Error_ _ _ => False
  | _ => True
  end.

(** The request the middleware hands to the handler: the same request
    with a body that can be read again. *)
Definition reread (r : HTTP.Request) (body : list Z) : HTTP.Request :=
  {| HTTP.Method := HTTP.Method r; HTTP.RequestURI := HTTP.RequestURI r;
     HTTP.Host := HTTP.Host r; HTTP.header := HTTP.header r;
     HTTP.Body := (body, None); HTTP.PathValue := HTTP.PathValue r |}.

(** The answers the middleware gives by itself. *)
Definition rejection (es : list HTTP.effect) : Prop :=
  es = [HTTP.Error "method not allowed" HTTP.StatusMethodNotAllowed]
  \/ es = [HTTP.Error "could not read request body" StatusBadRequest]
  \/ es = [HTTP.Error "header x-amz-content-sha256 is missing" StatusBadRequest]
  \/ es = [HTTP.Error "content hash mismatch" StatusBadRequest]
  \/ es = [HTTP.Error "unauthorized" HTTP.StatusUnauthorized].

Module Example_signed.
Import HTTP Server Example_request Example_store Example_server.

(** The headers of a [PUT /test-bucket/test.txt] with the body
    [hello world!], and the request signed over them. *)
Definition put_headers : gmap string string :=
  <["host" := "localhost:8000"]>
  (<["x-amz-date" := "20250601T120000Z"]>
  (<["x-amz-content-sha256" := Sha256Hash hello]> ∅)).

Definition put_signature : string :=
  Eval vm_compute in
  computedSignature auth "PUT" "/test-bucket/test.txt" put_headers (Sha256Hash hello)
    {| credential := scope; signedHeaders := signed_names; signature := "" |}.

Definition signed_put_request : Request :=
  {| Method := "PUT"; RequestURI := "/test-bucket/test.txt"; Host := "localhost:8000";
     header := [("Authorization", [authorization_value auth scope signed_names put_signature]);
                ("X-Amz-Content-Sha256", [Sha256Hash hello]);
                ("X-Amz-Date", ["20250601T120000Z"])];
     Body := (hello, None);
     PathValue := object_values |}.

End Example_signed.

(* ===================================================================== *)
(** * Tests: known answers *)
(* ===================================================================== *)

Example Sha256Hash_empty :
  Sha256Hash [] = "e3b0c44298fc1c149afbf4c8996fb92427ae41e4649b934ca495991b7852b855".
Proof. vm_compute. reflexivity. Qed.

Example Sha256Hash_abc :
  Sha256Hash (Bytes.of_string "abc")
  = "ba7816bf8f01cfea414140de5dae2223b00361a396177a9cb410ff61f20015ad".
Proof. vm_compute. reflexivity. Qed.

Example Sha256Hash_pad_boundary :
  Sha256Hash (repeat 97 56)
  = "b35439a4ac6f0948b6d6f9e3c6af0f5f590ce20f1bde7090ef7970686ec6738a"
  /\ Sha256Hash (repeat 97 119)
  = "31eba51c313a5c08226adf18d4a359cfdfd8d2e816b13f4af952f7ea6584dcfb".
Proof. vm_compute. split; reflexivity. Qed.

Example hmacHash_rfc4231_case2 :
  Hex.EncodeToString (hmacHash (Bytes.of_string "Jefe") "what do ya want for nothing?")
  = "5bdcc146bf60754e6a042426089575c75a003f089d2739839dec58b964ec3843".
Proof. vm_compute. reflexivity. Qed.

Example hmacHash_long_key :
  Hex.EncodeToString (hmacHash (repeat 107 100) "hello")
  = "3fd578d761a4f6703009e92d2e8a0aea22ab9ab50d4ad250dc95d8c369dec3f5".
Proof. vm_compute. reflexivity. Qed.

Example TrimSpace_ascii : Strings.TrimSpace "  Credential=a/b  " = "Credential=a/b".
Proof. vm_compute. reflexivity. Qed.

Example TrimSpace_nbsp :
  Strings.TrimSpace (Bytes.to_string [0xC2; 0xA0; 0x61; 0xE2; 0x80; 0xA8; 0x20]) = "a".
Proof. vm_compute. reflexivity. Qed.

Example Split_examples :
  Strings.Split "" "?" = [""] /\ Strings.Split "/p?a?b" "?" = ["/p"; "a"; "b"]
  /\ Strings.Split "a&&b&" "&" = ["a"; ""; "b"; ""].
Proof. vm_compute. repeat split. Qed.

(** storage_test.go: the table of [TestValidName]. *)
Example TestValidName :
  map (fun input => bool_decide (@validName latin1_runtime input = None))
    [ "amzn-s3-demo-bucket1-a1b2c3d4-5678-90ab-cdef-example11111";
      "amzn-s3-demo-bucket"; "example.com"; "www.example.com";
      "my.example.s3.bucket"; "amzn_s3_demo_bucket"; "AmznS3DemoBucket";
      "amzn-s3-demo-bucket-"; "example..com"; "192.168.5.4" ]
  = [ false; false; true; true; true; false; false; false; false; false ].
Proof. vm_compute. reflexivity. Qed.

(** A metadata document as [Marshal] writes it, and the same document
    with the size written [012]: a number does not go on after a leading
    zero. *)
Example Unmarshal_numbers :
  let m := {| ContentHash := "ab"; ContentSize := 12; OriginalKey := "k";
              LastModified := 0 |} in
  let written (size : string) :=
    (JSON.member true "content_sha256" ++ JSON.quote "ab" ++
     JSON.member false "content_size" ++ Bytes.of_string size ++
     JSON.member false "original_key" ++ JSON.quote "k" ++
     JSON.member false "last_modified" ++ Bytes.of_string "0}")%list in
  JSON.Marshal m = Ok (written "12")
  /\ JSON.Unmarshal (written "12") = Ok m
  /\ JSON.Unmarshal (written "012") = Err JSON.syntax_error
  /\ JSON.Unmarshal (written "-0") = Ok {| ContentHash := "ab"; ContentSize := 0;
                                           OriginalKey := "k"; LastModified := 0 |}.
Proof. vm_compute. repeat split. Qed.

(* ===================================================================== *)
(** * Properties *)
(* ===================================================================== *)

(** ** Strings *)

Lemma append_cons (x : ascii) (a b : string) : String x a +:+ b = String x (a +:+ b).
Proof. reflexivity. Qed.

Lemma append_empty_l (b : string) : "" +:+ b = b.
Proof. reflexivity. Qed.

Lemma append_assoc (a b c : string) : (a +:+ b) +:+ c = a +:+ (b +:+ c).
Proof.
  induction a as [|x a IH]; [reflexivity |].
  rewrite !append_cons. f_equal. exact IH.
Qed.

Lemma append_empty_r (a : string) : a +:+ "" = a.
Proof.
  induction a as [|x a IH]; [reflexivity |].
  rewrite append_cons. f_equal. exact IH.
Qed.

Lemma append_not_empty (a b : string) : b <> "" -> a +:+ b <> "".
Proof. destruct a; [rewrite append_empty_l; tauto | rewrite append_cons; discriminate]. Qed.

Lemma Split_not_nil (s : string) (sep : ascii) : Strings.Split s sep <> [].
Proof.
  destruct s as [|a r]; simpl; [discriminate |].
  destruct (Ascii.eqb a sep); [discriminate |].
  destruct (Strings.Split r sep); discriminate.
Qed.

(** Splitting distributes over a separator in the middle. *)
Lemma Split_app (a b : string) (sep : ascii) :
  Strings.Split (a +:+ String sep b) sep
  = (Strings.Split a sep ++ Strings.Split b sep)%list.
Proof.
  induction a as [|x a IH].
  - rewrite append_empty_l. simpl. now rewrite Ascii.eqb_refl.
  - rewrite append_cons. simpl. destruct (Ascii.eqb x sep); [now rewrite IH |].
    rewrite IH. pose proof (Split_not_nil a sep).
    destruct (Strings.Split a sep); [congruence | reflexivity].
Qed.

Lemma Split_free (s : string) (sep : ascii) :
  free_of sep s = true -> Strings.Split s sep = [s].
Proof.
  induction s as [|a r IH]; simpl; [reflexivity |].
  intros [Ha Hr]%andb_prop. apply negb_true_iff in Ha. rewrite Ha, (IH Hr). reflexivity.
Qed.

Lemma plain_Split c : plain c = true -> Strings.Split c "/" = [c].
Proof.
  unfold plain. intros H. apply Split_free.
  repeat (apply andb_prop in H; destruct H as [H ?]). exact H.
Qed.

Lemma plain_special c :
  plain c = true ->
  String.eqb c "" = false /\ String.eqb c "." = false /\ String.eqb c ".." = false.
Proof.
  unfold plain. intros H.
  repeat (apply andb_prop in H; destruct H as [H ?]).
  repeat split; now apply negb_true_iff.
Qed.

(** ** Hex strings and hashes *)

Lemma digit_is_hex (n : Z) : 0 <= n < 16 -> is_hex_digit (Hex.digit n) = true.
Proof.
  intros H.
  assert (Hn : In n [0;1;2;3;4;5;6;7;8;9;10;11;12;13;14;15]) by (simpl; lia).
  simpl in Hn.
  repeat (destruct Hn as [<- | Hn]; [vm_compute; reflexivity |]). destruct Hn.
Qed.

Lemma EncodeToString_is_hex (b : list Z) : is_hex (Hex.EncodeToString b) = true.
Proof.
  induction b as [|x b IH]; simpl; [reflexivity |].
  assert (Hx : 0 <= x mod 256 < 256) by (apply Z.mod_pos_bound; lia).
  rewrite IH, !digit_is_hex; [reflexivity | |].
  - change 15 with (Z.ones 4). rewrite Z.land_ones by lia. apply Z.mod_pos_bound. lia.
  - rewrite Z.shiftr_div_pow2 by lia. change (2 ^ 4) with 16.
    split; [apply Z.div_pos; lia | apply Z.div_lt_upper_bound; lia].
Qed.

Lemma EncodeToString_length (b : list Z) :
  String.length (Hex.EncodeToString b) = (2 * length b)%nat.
Proof. induction b as [|x b IH]; simpl; [reflexivity | rewrite IH; lia]. Qed.

Lemma Sum256_length (data : list Z) : length (SHA256.Sum256 data) = 32%nat.
Proof. reflexivity. Qed.

Lemma Sha256Hash_is_hex (data : list Z) : is_hex (Sha256Hash data) = true.
Proof. apply EncodeToString_is_hex. Qed.

Lemma Sha256Hash_length (data : list Z) : String.length (Sha256Hash data) = 64%nat.
Proof. unfold Sha256Hash. rewrite EncodeToString_length, Sum256_length. reflexivity. Qed.

Lemma is_hex_free (s : string) : is_hex s = true -> free_of "/" s = true.
Proof.
  induction s as [|a r IH]; simpl; [reflexivity |].
  intros [Ha Hr]%andb_prop. rewrite (IH Hr), andb_true_r.
  destruct (Ascii.eqb_spec a "/") as [-> | _]; [discriminate Ha | reflexivity].
Qed.

Lemma hex64_plain (h : string) :
  is_hex h = true -> String.length h = 64%nat -> plain h = true.
Proof.
  intros Hh L. unfold plain. rewrite (is_hex_free _ Hh).
  destruct (String.eqb_spec h "") as [E|_]; [rewrite E in L; discriminate |].
  destruct (String.eqb_spec h ".") as [E|_]; [rewrite E in L; discriminate |].
  destruct (String.eqb_spec h "..") as [E|_]; [rewrite E in L; discriminate |].
  reflexivity.
Qed.

(** The name of an object directory is a plain component. *)
Lemma Sha256Hash_plain (data : list Z) : plain (Sha256Hash data) = true.
Proof. apply hex64_plain; [apply Sha256Hash_is_hex | apply Sha256Hash_length]. Qed.

Global Opaque Sha256Hash.

(** ** UTF-8 decoding *)

Module UTF8Facts.

Lemma cont_high b : UTF8.cont b = true -> high b.
Proof. unfold UTF8.cont, high. lia. Qed.

Lemma between_high lo hi b : 0x80 <= lo -> UTF8.between lo hi b = true -> high b.
Proof. unfold UTF8.between, high. lia. Qed.

Lemma DecodeRune_high (c : Z) (r : list Z) :
  high c -> Forall high (firstn (UTF8.DecodeRune (c :: r)).2 (c :: r)).
Proof.
  intros Hc. unfold UTF8.DecodeRune.
  destruct (Z.ltb_spec c UTF8.RuneSelf) as [Hlt|_];
    [unfold UTF8.RuneSelf, high in *; lia |].
  destruct (UTF8.between 0xC2 0xDF c).
  { destruct r as [|b1 r]; [repeat constructor; exact Hc |].
    destruct (UTF8.cont b1) eqn:H1; repeat constructor; auto using cont_high. }
  destruct (UTF8.between 0xE0 0xEF c).
  { destruct r as [|b1 [|b2 r]]; try (repeat constructor; exact Hc).
    destruct (UTF8.between _ _ b1 && UTF8.cont b2) eqn:H; [| repeat constructor; exact Hc].
    apply andb_prop in H as [H1 H2].
    repeat constructor; auto using cont_high.
    eapply between_high; [| exact H1]. destruct (c =? 0xE0); lia. }
  destruct (UTF8.between 0xF0 0xF4 c).
  { destruct r as [|b1 [|b2 [|b3 r]]]; try (repeat constructor; exact Hc).
    destruct (UTF8.between _ _ b1 && UTF8.cont b2 && UTF8.cont b3) eqn:H;
      [| repeat constructor; exact Hc].
    apply andb_prop in H as [H H3]. apply andb_prop in H as [H1 H2].
    repeat constructor; auto using cont_high.
    eapply between_high; [| exact H1]. destruct (c =? 0xF0); lia. }
  repeat constructor; exact Hc.
Qed.

Lemma DecodeRune_ascii (c : Z) (r : list Z) :
  c < UTF8.RuneSelf -> UTF8.DecodeRune (c :: r) = (c, 1%nat).
Proof.
  intros H. unfold UTF8.DecodeRune.
  destruct (Z.ltb_spec c UTF8.RuneSelf); [reflexivity | lia].
Qed.

Lemma DecodeRune_size_pos (c : Z) (r : list Z) : (1 <= (UTF8.DecodeRune (c :: r)).2)%nat.
Proof.
  unfold UTF8.DecodeRune.
  repeat match goal with
         | |- context [if ?x then _ else _] => destruct x
         | |- context [match ?l with [] => _ | _ :: _ => _ end] => destruct l
         end; simpl; lia.
Qed.

(** Every byte below [RuneSelf] of a string is one of its runes. *)
Lemma runes_fuel_ascii (n : nat) (b : list Z) (c : Z) :
  (length b <= n)%nat -> c < UTF8.RuneSelf -> In c b -> In c (UTF8.runes_fuel n b).
Proof.
  revert b. induction n as [|n IH]; intros b Hn Hc Hin.
  - destruct b; [destruct Hin | simpl in Hn; lia].
  - destruct b as [|x r]; [destruct Hin |].
    change (UTF8.runes_fuel (S n) (x :: r))
      with (let '(rn, size) := UTF8.DecodeRune (x :: r) in
            rn :: UTF8.runes_fuel n (skipn size (x :: r))).
    destruct (Z.ltb_spec x UTF8.RuneSelf) as [Hx|Hx].
    + rewrite (DecodeRune_ascii _ _ Hx). destruct Hin as [-> | Hin]; [left; reflexivity |].
      right. change (skipn 1 (x :: r)) with r.
      apply IH; [simpl in Hn; lia | exact Hc | exact Hin].
    + pose proof (DecodeRune_high x r Hx) as Hh.
      pose proof (DecodeRune_size_pos x r) as Hp.
      destruct (UTF8.DecodeRune (x :: r)) as [rn size]. simpl in Hh, Hp.
      right. apply IH; [| exact Hc |].
      * rewrite length_skipn. simpl in *. lia.
      * rewrite <- (firstn_skipn size (x :: r)) in Hin.
        apply in_app_or in Hin as [Hin | Hin]; [| exact Hin].
        rewrite Forall_forall in Hh. apply list_elem_of_In, Hh in Hin.
        unfold high, UTF8.RuneSelf in *. lia.
Qed.

Lemma runes_ascii (s : string) (c : Z) :
  c < UTF8.RuneSelf -> In c (Bytes.of_string s) -> In c (UTF8.runes s).
Proof. intros Hc Hin. apply runes_fuel_ascii; [lia | exact Hc | exact Hin]. Qed.

End UTF8Facts.

(** ** The metadata codec reads back what it writes *)

Module JSONFacts.
Import JSON UTF8Facts.

Lemma expect_app (pre rest : list Z) : expect pre (pre ++ rest) = Some rest.
Proof.
  induction pre as [|x pre IH]; [reflexivity |].
  simpl. rewrite Z.eqb_refl. exact IH.
Qed.

Lemma byte_of_ascii_range (a : ascii) : in_range (Bytes.byte_of_ascii a).
Proof.
  unfold in_range, Bytes.byte_of_ascii. pose proof (N_ascii_bounded a). lia.
Qed.

Lemma of_string_range (s : string) : Forall in_range (Bytes.of_string s).
Proof.
  induction s as [|a s IH]; simpl; constructor; [apply byte_of_ascii_range | exact IH].
Qed.

Lemma ascii_of_byte_of_ascii (a : ascii) : Bytes.ascii_of_byte (Bytes.byte_of_ascii a) = a.
Proof.
  pose proof (byte_of_ascii_range a) as H. unfold in_range in H.
  unfold Bytes.ascii_of_byte. rewrite Z.mod_small by exact H.
  unfold Bytes.byte_of_ascii. rewrite N2Z.id. apply ascii_N_embedding.
Qed.

Lemma to_string_of_string (s : string) : Bytes.to_string (Bytes.of_string s) = s.
Proof.
  induction s as [|a s IH]; simpl; [reflexivity |].
  rewrite ascii_of_byte_of_ascii, IH. reflexivity.
Qed.

Lemma scannable_nil : scannable [].
Proof. intros rest. exists []. reflexivity. Qed.

Lemma unescape_ordinary (c : Z) (r : list Z) :
  ordinary c ->
  unescape (c :: r)
  = match unescape r with
    | Some (s, rest) => Some (c :: s, rest)
    | None => None
    end.
Proof.
  intros (H1 & H2 & H3). simpl.
  destruct (Z.eqb_spec c 0x22); [contradiction |].
  destruct (Z.eqb_spec c 0x5C); [contradiction |].
  destruct (Z.ltb_spec c 0x20); [lia | reflexivity].
Qed.

Lemma scannable_ordinary (l w : list Z) :
  Forall ordinary l -> scannable w -> scannable (l ++ w).
Proof.
  intros Hl Hw. induction Hl as [|c l Hc _ IH]; [exact Hw |].
  intros rest. destruct (IH rest) as (s & Hs).
  exists (c :: s). rewrite <- !app_comm_cons, (unescape_ordinary _ _ Hc).
  rewrite Hs. reflexivity.
Qed.

Lemma scannable_simple (x y : Z) (w : list Z) :
  x <> 0x75 -> simple_escape x = Some y -> scannable w -> scannable ([0x5C; x] ++ w).
Proof.
  intros Hx Hy Hw rest. destruct (Hw rest) as (s & Hs). exists (y :: s).
  change (unescape (0x5C :: x :: w ++ 0x22 :: rest) = Some (y :: s, rest)).
  cbn [unescape]. change (0x5C =? 0x22) with false. change (0x5C =? 0x5C) with true.
  cbv iota. destruct (Z.eqb_spec x 0x75); [contradiction |].
  rewrite Hy, Hs. reflexivity.
Qed.

Lemma scannable_unicode (a1 a2 a3 a4 : Z) (w : list Z) :
  is_Some (hexval a1) -> is_Some (hexval a2) -> is_Some (hexval a3) -> is_Some (hexval a4) ->
  scannable w -> scannable ([0x5C; 0x75; a1; a2; a3; a4] ++ w).
Proof.
  intros [v1 H1] [v2 H2] [v3 H3] [v4 H4] Hw rest. destruct (Hw rest) as (s & Hs).
  exists (encode_rune (((v1 * 16 + v2) * 16 + v3) * 16 + v4) ++ s).
  change (unescape (0x5C :: 0x75 :: a1 :: a2 :: a3 :: a4 :: w ++ 0x22 :: rest) = 
          Some (encode_rune (((v1 * 16 + v2) * 16 + v3) * 16 + v4) ++ s, rest)).
  cbn [unescape]. change (0x5C =? 0x22) with false. change (0x5C =? 0x5C) with true.
  change (0x75 =? 0x75) with true. cbv iota.
  rewrite H1, H2, H3, H4, Hs. reflexivity.
Qed.

Lemma hexval_hexdigit (n : Z) : 0 <= n < 16 -> is_Some (hexval (hexdigit n)).
Proof.
  intros H.
  assert (Hn : In n [0;1;2;3;4;5;6;7;8;9;10;11;12;13;14;15]) by (simpl; lia).
  simpl in Hn.
  repeat (destruct Hn as [<- | Hn]; [vm_compute; eauto |]). destruct Hn.
Qed.

Lemma high_ordinary c : high c -> ordinary c.
Proof. unfold high, ordinary. lia. Qed.

Lemma htmlSafe_ordinary c : htmlSafe c = true -> ordinary c.
Proof. unfold htmlSafe, UTF8.between, ordinary. lia. Qed.

Lemma escape_rune_scannable (b w : list Z) :
  Forall in_range b -> scannable w -> scannable ((escape_rune b).1 ++ w).
Proof.
  intros Hb Hw. destruct b as [|c r]; [exact Hw |].
  apply Forall_cons in Hb as [Hc _]. unfold in_range in Hc.
  unfold escape_rune.
  destruct (Z.ltb_spec c UTF8.RuneSelf) as [Hlt|Hge]; unfold UTF8.RuneSelf in *.
  - destruct (htmlSafe c) eqn:Hs.
    { apply (scannable_ordinary [c]); [| exact Hw].
      constructor; [apply htmlSafe_ordinary, Hs | constructor]. }
    destruct (Z.eqb_spec c 0x5C) as [-> | _];
      [apply (scannable_simple 0x5C 0x5C); [lia | reflexivity | exact Hw] |].
    destruct (Z.eqb_spec c 0x22) as [-> | _];
      [apply (scannable_simple 0x22 0x22); [lia | reflexivity | exact Hw] |].
    simpl orb. cbv iota.
    destruct (c =? 0x08); [apply (scannable_simple 0x62 0x08); [lia | reflexivity | exact Hw] |].
    destruct (c =? 0x0C); [apply (scannable_simple 0x66 0x0C); [lia | reflexivity | exact Hw] |].
    destruct (c =? 0x0A); [apply (scannable_simple 0x6E 0x0A); [lia | reflexivity | exact Hw] |].
    destruct (c =? 0x0D); [apply (scannable_simple 0x72 0x0D); [lia | reflexivity | exact Hw] |].
    destruct (c =? 0x09); [apply (scannable_simple 0x74 0x09); [lia | reflexivity | exact Hw] |].
    apply scannable_unicode; try exact Hw; try (vm_compute; eauto; fail).
    + apply hexval_hexdigit. rewrite Z.shiftr_div_pow2 by lia. change (2 ^ 4) with 16.
      split; [apply Z.div_pos; lia | apply Z.div_lt_upper_bound; lia].
    + apply hexval_hexdigit. change 0xF with (Z.ones 4). rewrite Z.land_ones by lia.
      apply Z.mod_pos_bound. lia.
  - pose proof (DecodeRune_high c r Hge) as Hh.
    destruct (UTF8.DecodeRune (c :: r)) as [rn size]. simpl in Hh.
    destruct ((rn =? UTF8.RuneError) && (size =? 1)%nat).
    { apply scannable_unicode; try exact Hw; vm_compute; eauto. }
    destruct (Z.eqb_spec rn 0x2028) as [-> | _].
    { apply scannable_unicode; try exact Hw; vm_compute; eauto. }
    destruct (Z.eqb_spec rn 0x2029) as [-> | _].
    { apply scannable_unicode; try exact Hw; vm_compute; eauto. }
    apply scannable_ordinary; [| exact Hw].
    eapply Forall_impl; [exact Hh | apply high_ordinary].
Qed.

Lemma escape_scannable (n : nat) (b : list Z) : Forall in_range b -> scannable (escape n b).
Proof.
  revert b. induction n as [|n IH]; intros b Hb; [apply scannable_nil |].
  destruct b as [|c r]; [apply scannable_nil |].
  change (escape (S n) (c :: r))
    with (let '(out, size) := escape_rune (c :: r) in out ++ escape n (skipn size (c :: r))).
  pose proof (fun w => escape_rune_scannable (c :: r) w Hb) as H.
  destruct (escape_rune (c :: r)) as [out size]. apply H, IH.
  apply Forall_drop, Hb.
Qed.

(** Hex strings are written as they are. *)
Lemma is_hex_digit_safe (a : ascii) :
  is_hex_digit a = true ->
  (Bytes.byte_of_ascii a <? UTF8.RuneSelf) = true /\ htmlSafe (Bytes.byte_of_ascii a) = true.
Proof.
  unfold is_hex_digit, htmlSafe, UTF8.between, UTF8.RuneSelf.
  generalize (Bytes.byte_of_ascii a). intros c H. lia.
Qed.

Lemma escape_hex (s : string) (n : nat) :
  is_hex s = true -> (String.length s <= n)%nat ->
  escape n (Bytes.of_string s) = Bytes.of_string s.
Proof.
  revert n. induction s as [|a s IH]; intros n Hs Hn.
  - destruct n; reflexivity.
  - simpl in Hs. apply andb_prop in Hs as [Ha Hs].
    destruct n as [|n]; [simpl in Hn; lia |].
    destruct (is_hex_digit_safe a Ha) as [H1 H2].
    simpl. rewrite H1, H2. simpl. f_equal. apply IH; [exact Hs | simpl in Hn; lia].
Qed.

Lemma of_string_length (s : string) : length (Bytes.of_string s) = String.length s.
Proof. induction s as [|a s IH]; simpl; [reflexivity | now rewrite IH]. Qed.

Lemma unescape_ordinary_all (l rest : list Z) :
  Forall ordinary l -> unescape (l ++ 0x22 :: rest) = Some (l, rest).
Proof.
  intros Hl. induction Hl as [|c l Hc _ IH]; [reflexivity |].
  rewrite <- app_comm_cons, (unescape_ordinary _ _ Hc), IH. reflexivity.
Qed.

Lemma hex_ordinary (s : string) : is_hex s = true -> Forall ordinary (Bytes.of_string s).
Proof.
  induction s as [|a s IH]; simpl; [constructor |].
  intros [Ha Hs]%andb_prop. constructor; [| exact (IH Hs)].
  apply htmlSafe_ordinary, is_hex_digit_safe, Ha.
Qed.

Lemma parse_string_quote_hex (s : string) (rest : list Z) :
  is_hex s = true -> parse_string (quote s ++ rest) = Some (s, rest).
Proof.
  intros Hs. unfold quote. rewrite escape_hex by (rewrite ?of_string_length; auto).
  change (parse_string (0x22 :: (Bytes.of_string s ++ [0x22]) ++ rest) = Some (s, rest)).
  rewrite <- app_assoc. cbn [parse_string]. change (0x22 =? 0x22) with true. cbv iota.
  change ([0x22] ++ rest) with (0x22 :: rest).
  rewrite (unescape_ordinary_all _ _ (hex_ordinary _ Hs)), to_string_of_string. reflexivity.
Qed.

Lemma parse_string_quote (s : string) (rest : list Z) :
  exists s', parse_string (quote s ++ rest) = Some (s', rest).
Proof.
  unfold quote.
  destruct (escape_scannable (length (Bytes.of_string s)) _ (of_string_range s) rest)
    as (out & Hout).
  exists (Bytes.to_string out).
  change (parse_string (0x22 :: (escape (length (Bytes.of_string s)) (Bytes.of_string s)
                                   ++ [0x22]) ++ rest) = Some (Bytes.to_string out, rest)).
  rewrite <- app_assoc. cbn [parse_string]. change (0x22 =? 0x22) with true. cbv iota.
  change ([0x22] ++ rest) with (0x22 :: rest). rewrite Hout. reflexivity.
Qed.

(** Numbers. *)
Lemma digits_spec (fuel : nat) (n : Z) (acc : list Z) :
  0 <= n -> exists ds, digits (S fuel) n acc = ds ++ acc
                       /\ ds <> [] /\ Forall (fun c => is_digit c = true) ds.
Proof.
  revert n acc. induction fuel as [|fuel IH]; intros n acc Hn.
  - exists [0x30 + n mod 10]. cbn [digits].
    assert (Hd : is_digit (0x30 + n mod 10) = true).
    { unfold is_digit, UTF8.between. pose proof (Z.mod_pos_bound n 10). lia. }
    destruct (n / 10 =? 0); (split; [reflexivity | split; [discriminate | repeat constructor; exact Hd]]).
  - assert (Hd : is_digit (0x30 + n mod 10) = true).
    { unfold is_digit, UTF8.between. pose proof (Z.mod_pos_bound n 10). lia. }
    change (digits (S (S fuel)) n acc)
      with (if n / 10 =? 0 then (0x30 + n mod 10) :: acc
            else digits (S fuel) (n / 10) ((0x30 + n mod 10) :: acc)).
    destruct (n / 10 =? 0).
    + exists [0x30 + n mod 10]. split; [reflexivity | split; [discriminate | repeat constructor; exact Hd]].
    + destruct (IH (n / 10) ((0x30 + n mod 10) :: acc)) as (ds & E & Hne & Hds);
        [apply Z.div_pos; lia |].
      exists (ds ++ [0x30 + n mod 10]). rewrite E, <- app_assoc. split; [reflexivity |].
      split; [destruct ds; discriminate |].
      apply Forall_app. split; [exact Hds | repeat constructor; exact Hd].
Qed.

Lemma span_digits_app (ds : list Z) (c : Z) (rest : list Z) (acc : Z) :
  Forall (fun c => is_digit c = true) ds -> is_digit c = false ->
  exists v, span_digits (ds ++ c :: rest) acc = (v, c :: rest).
Proof.
  intros Hds Hc. revert acc. induction Hds as [|d ds Hd _ IH]; intros acc.
  - exists acc. simpl. rewrite Hc. reflexivity.
  - simpl. rewrite Hd. apply IH.
Qed.

(** [itoa] gives [digits] fuel enough for every digit of the number. *)
Lemma fuel_enough (n : Z) : 0 <= n -> n < 10 ^ Z.of_nat (S (Z.to_nat (Z.log2 n))).
Proof.
  intros Hn. rewrite Nat2Z.inj_succ, Z2Nat.id by apply Z.log2_nonneg.
  destruct (Z.eq_dec n 0) as [->|Hz]; [reflexivity |].
  pose proof (Z.log2_spec n ltac:(lia)) as [_ H].
  eapply Z.lt_le_trans; [exact H |].
  apply Z.pow_le_mono_l. pose proof (Z.log2_nonneg n). lia.
Qed.

(** A positive number is written without a leading zero. *)
Lemma digits_lead (f : nat) (n : Z) (acc : list Z) :
  0 < n < 10 ^ Z.of_nat (S f) ->
  exists d ds,
    digits (S f) n acc = d :: ds ++ acc
    /\ is_digit d = true /\ d <> 0x30
    /\ Forall (fun c => is_digit c = true) ds.
Proof.
  revert n acc. induction f as [|f IH]; intros n acc Hn.
  - exists (0x30 + n mod 10), []. cbn [digits].
    assert (E : n / 10 = 0) by (apply Z.div_small; simpl in Hn; lia).
    rewrite E. simpl (0 =? 0). cbv iota.
    rewrite Z.mod_small by (simpl in Hn; lia).
    split; [reflexivity |]. split; [unfold is_digit, UTF8.between; simpl in Hn; lia |].
    split; [lia | constructor].
  - assert (Hd : is_digit (0x30 + n mod 10) = true).
    { unfold is_digit, UTF8.between. pose proof (Z.mod_pos_bound n 10). lia. }
    change (digits (S (S f)) n acc)
      with (if n / 10 =? 0 then (0x30 + n mod 10) :: acc
            else digits (S f) (n / 10) ((0x30 + n mod 10) :: acc)).
    destruct (Z.eqb_spec (n / 10) 0) as [E|E].
    + exists (0x30 + n mod 10), [].
      split; [reflexivity |]. split; [exact Hd |]. split; [| constructor].
      pose proof (Z.div_mod n 10 ltac:(lia)). lia.
    + destruct (IH (n / 10) ((0x30 + n mod 10) :: acc)) as (d & ds & E1 & Hd1 & Hz & Hds).
      { assert (0 <= n / 10) by (apply Z.div_pos; lia).
        split; [lia |].
        apply Z.div_lt_upper_bound; [lia |].
        replace (10 * 10 ^ Z.of_nat (S f)) with (10 ^ Z.of_nat (S (S f))); [lia |].
        rewrite (Nat2Z.inj_succ (S f)), Z.pow_succ_r by lia. reflexivity. }
      exists d, (ds ++ [0x30 + n mod 10]). rewrite E1, <- app_assoc.
      split; [reflexivity |]. split; [exact Hd1 |]. split; [exact Hz |].
      apply Forall_app. split; [exact Hds | repeat constructor; exact Hd].
Qed.

Lemma parse_nat_digits (d : Z) (ds : list Z) (c : Z) (rest : list Z) :
  is_digit d = true -> d <> 0x30 ->
  Forall (fun c => is_digit c = true) ds -> is_digit c = false ->
  exists v, parse_nat (d :: ds ++ c :: rest) = Some (v, c :: rest).
Proof.
  intros Hd Hz Hds Hc.
  destruct (span_digits_app (d :: ds) c rest 0) as (v & Hv);
    [constructor; assumption | exact Hc |].
  exists v. unfold parse_nat.
  destruct (Z.eqb_spec d 0x30) as [E|_]; [contradiction |].
  rewrite Hd. rewrite <- app_comm_cons in Hv. rewrite Hv. reflexivity.
Qed.

Lemma parse_nat_itoa (n c : Z) (rest : list Z) :
  0 <= n -> is_digit c = false ->
  exists v, parse_nat (digits (S (Z.to_nat (Z.log2 n))) n [] ++ c :: rest)
            = Some (v, c :: rest).
Proof.
  intros Hn Hc. destruct (Z.eq_dec n 0) as [->|Hz].
  - exists 0. reflexivity.
  - destruct (digits_lead (Z.to_nat (Z.log2 n)) n []) as (d & ds & E & Hd & Hd0 & Hds).
    { split; [lia | apply fuel_enough, Hn]. }
    rewrite E, app_nil_r, <- app_comm_cons.
    exact (parse_nat_digits d ds c rest Hd Hd0 Hds Hc).
Qed.

Lemma parse_int_itoa (n c : Z) (rest : list Z) :
  is_digit c = false -> exists v, parse_int (itoa n ++ c :: rest) = Some (v, c :: rest).
Proof.
  intros Hc. unfold itoa. destruct (Z.ltb_spec n 0) as [Hn|Hn].
  - destruct (parse_nat_itoa (- n) c rest ltac:(lia) Hc) as (v & Hv).
    exists (- v). rewrite <- app_comm_cons. cbn [parse_int]. change (0x2D =? 0x2D) with true.
    cbv iota. rewrite Hv. reflexivity.
  - destruct (parse_nat_itoa n c rest Hn Hc) as (v & Hv). exists v.
    destruct (digits_spec (Z.to_nat (Z.log2 n)) n []) as (ds & E & Hne & Hds); [lia |].
    rewrite E, app_nil_r in *. destruct ds as [|d ds]; [contradiction |].
    apply Forall_cons in Hds as [Hd _]. rewrite <- app_comm_cons in *. cbn [parse_int].
    assert ((d =? 0x2D) = false) as -> by (unfold is_digit, UTF8.between in Hd; lia).
    exact Hv.
Qed.

Lemma Unmarshal_Marshal (m : metadata) (b : list Z) :
  is_hex (ContentHash m) = true ->
  Marshal m = Ok b ->
  exists m', Unmarshal b = Ok m' /\ ContentHash m' = ContentHash m.
Proof.
  intros Hh H. assert (E : b = document m) by (unfold Marshal in H; congruence).
  subst b. clear H. unfold Unmarshal, document.
  rewrite expect_app, (parse_string_quote_hex _ _ Hh), expect_app.
  change (member false "original_key") with (0x2C :: tl (member false "original_key")) at 1.
  rewrite <- app_comm_cons.
  destruct (parse_int_itoa (ContentSize m) 0x2C
              (tl (member false "original_key") ++ quote (OriginalKey m) ++
               member false "last_modified" ++ itoa (LastModified m) ++ [0x7D]) eq_refl)
    as (size & ->).
  rewrite app_comm_cons.
  change (0x2C :: tl (member false "original_key")) with (member false "original_key").
  rewrite expect_app.
  destruct (parse_string_quote (OriginalKey m)
              (member false "last_modified" ++ itoa (LastModified m) ++ [0x7D]))
    as (key & ->).
  rewrite expect_app.
  destruct (parse_int_itoa (LastModified m) 0x7D [] eq_refl) as (modified & ->).
  change (0x7D =? 0x7D) with true. cbv iota. eexists. split; reflexivity.
Qed.

End JSONFacts.

Lemma metadata_codec_reads_back : reads_back metadata_codec.
Proof. exact JSONFacts.Unmarshal_Marshal. Qed.

(** ** The naming rules *)

Section NamingFacts.
Context {rt : GoRuntime}.
Import UTF8Facts JSONFacts.

Lemma allowed_rune_ascii (c : Z) : 0 <= c < 0x80 -> allowed_rune c = in_class c.
Proof.
  intros H. unfold allowed_rune, in_class, Unicode.IsLower, Unicode.IsDigit,
    Unicode.MaxLatin1, UTF8.between.
  destruct (Z.leb_spec 0 c); [| lia]. destruct (Z.leb_spec c 0xFF); [| lia]. simpl.
  destruct (Z.eqb_spec c 0xB5); [lia |].
  destruct (Z.leb_spec 0xDF c); [lia |]. destruct (Z.leb_spec 0xF8 c); [lia |].
  simpl. rewrite !orb_false_r. reflexivity.
Qed.

(** Every verdict of [validName] is a bad request. *)
Lemma validName_status (name : string) (e : error) :
  validName name = Some e -> exists msg, e = Error_ msg StatusBadRequest.
Proof.
  unfold validName, bad_request.
  repeat match goal with
         | |- context [if ?x then _ else _] => destruct x
         | |- context [match ?x with Some _ => _ | None => _ end] => destruct x
         end; intros [= <-]; eauto.
Qed.

Lemma validName_inv (name : string) :
  validName name = None ->
  (3 <= String.length name <= 63)%nat /\ forallb allowed_rune (UTF8.runes name) = true.
Proof.
  unfold validName, bad_request.
  destruct (Nat.ltb_spec (String.length name) 3); [discriminate |].
  destruct (Nat.ltb_spec 63 (String.length name)); [discriminate |].
  destruct (forallb allowed_rune (UTF8.runes name)); [| discriminate].
  intros _. split; [lia | reflexivity].
Qed.

(** A name with a byte below [RuneSelf] outside the class is rejected. *)
Lemma validName_rejects_byte (name : string) (c : Z) :
  In c (Bytes.of_string name) -> 0 <= c < 0x80 -> in_class c = false ->
  exists msg, validName name = Some (Error_ msg StatusBadRequest).
Proof.
  intros Hin Hc Hclass. destruct (validName name) as [e|] eqn:E.
  - destruct (validName_status _ _ E) as (msg & ->). eauto.
  - apply validName_inv in E as [_ Hall]. rewrite forallb_forall in Hall.
    specialize (Hall c (runes_ascii name c ltac:(unfold UTF8.RuneSelf; lia) Hin)).
    rewrite (allowed_rune_ascii c Hc) in Hall. congruence.
Qed.

Lemma free_of_bytes (sep : ascii) (s : string) :
  ~ In (Bytes.byte_of_ascii sep) (Bytes.of_string s) -> free_of sep s = true.
Proof.
  induction s as [|a s IH]; simpl; [reflexivity |].
  intros H. rewrite IH by tauto.
  destruct (Ascii.eqb_spec a sep) as [-> | _]; [tauto | reflexivity].
Qed.

(** An accepted name is a plain path component. *)
Lemma validName_plain (name : string) : validName name = None -> plain name = true.
Proof.
  intros E. destruct (validName_inv _ E) as [Hlen Hall].
  assert (Hfree : free_of "/" name = true).
  { apply free_of_bytes. intros Hin. rewrite forallb_forall in Hall.
    change (Bytes.byte_of_ascii "/") with 0x2F in Hin.
    specialize (Hall 0x2F (runes_ascii name 0x2F eq_refl Hin)).
    rewrite allowed_rune_ascii in Hall by lia. discriminate Hall. }
  unfold plain. rewrite Hfree.
  destruct (String.eqb_spec name "") as [-> | _]; [simpl in Hlen; lia |].
  destruct (String.eqb_spec name ".") as [-> | _]; [simpl in Hlen; lia |].
  destruct (String.eqb_spec name "..") as [-> | _]; [simpl in Hlen; lia |].
  reflexivity.
Qed.

End NamingFacts.

(** ** Path resolution *)

Module OSFacts.
Import OS.

Lemma walk_app fs cs1 cs2 from :
  walk fs (cs1 ++ cs2) from = walk fs cs2 (walk fs cs1 from).
Proof. apply fold_left_app. Qed.

Lemma walk_err fs cs e : walk fs cs (inr e) = inr e.
Proof. induction cs as [|c cs IH]; [reflexivity | exact IH]. Qed.

Lemma walk_cons fs c cs from :
  walk fs (c :: cs) from = walk fs cs (step fs from c).
Proof. reflexivity. Qed.

Lemma walk_snoc fs cs c from :
  walk fs (cs ++ [c]) from = step fs (walk fs cs from) c.
Proof. rewrite walk_app. reflexivity. Qed.

(** On a plain component a step is a lookup below a directory. *)
Lemma step_plain fs cur c :
  plain c = true ->
  step fs (inl cur) c
  = if negb (is_dir fs cur) then inr ENOTDIR
    else match fs !! (cur ++ [c]) with
         | Some _ => inl (cur ++ [c])
         | None => inr ENOENT
         end.
Proof.
  intros Hc. destruct (plain_special c Hc) as (E1 & E2 & E3).
  unfold step. rewrite E1, E2, E3. reflexivity.
Qed.

Lemma snoc_not_nil {A} (l : list A) (x : A) : l ++ [x] <> [].
Proof. destruct l; discriminate. Qed.

Lemma node_at_snoc fs cur c : node_at fs (cur ++ [c]) = fs !! (cur ++ [c]).
Proof. unfold node_at. pose proof (snoc_not_nil cur c). destruct (cur ++ [c]); congruence. Qed.

Lemma extends_refl fs : extends fs fs.
Proof. intros p n H. eauto. Qed.

Lemma extends_trans fs1 fs2 fs3 : extends fs1 fs2 -> extends fs2 fs3 -> extends fs1 fs3.
Proof.
  intros H12 H23 p n H. destruct (H12 p n H) as (n2 & H2 & D2).
  destruct (H23 p n2 H2) as (n3 & H3 & D3). exists n3. split; [exact H3 | auto].
Qed.

Lemma extends_insert fs p n :
  (fs !! p = Some Dir -> n = Dir) -> extends fs (<[p := n]> fs).
Proof.
  intros Hn q m Hq. destruct (decide (p = q)) as [-> | Hne].
  - exists n. rewrite lookup_insert_eq. split; [reflexivity |]. intros ->. auto.
  - exists m. rewrite lookup_insert_ne by exact Hne. auto.
Qed.

Lemma extends_is_dir fs fs' p : extends fs fs' -> is_dir fs p = true -> is_dir fs' p = true.
Proof.
  intros He. unfold is_dir, node_at. destruct p as [|c p]; [auto |].
  destruct (fs !! (c :: p)) as [[|d]|] eqn:E; try discriminate.
  destruct (He _ _ E) as (n' & -> & Hd). rewrite (Hd eq_refl). reflexivity.
Qed.

Lemma extends_step fs fs' cur c q :
  extends fs fs' -> step fs (inl cur) c = inl q -> step fs' (inl cur) c = inl q.
Proof.
  intros He. unfold step.
  destruct (is_dir fs cur) eqn:Hd; simpl; [| discriminate].
  rewrite (extends_is_dir _ _ _ He Hd). simpl.
  destruct (String.eqb c "" || String.eqb c "."); [auto |].
  destruct (String.eqb c ".."); [auto |].
  destruct (fs !! (cur ++ [c])) as [n|] eqn:E; [| discriminate].
  destruct (He _ _ E) as (n' & -> & _). auto.
Qed.

Lemma walk_inl_inv fs cs from q : walk fs cs from = inl q -> exists p, from = inl p.
Proof. destruct from as [p|e]; [eauto | rewrite walk_err; discriminate]. Qed.

(** Resolution survives extension. *)
Lemma extends_walk fs fs' cs cur q :
  extends fs fs' -> walk fs cs (inl cur) = inl q -> walk fs' cs (inl cur) = inl q.
Proof.
  intros He. revert cur. induction cs as [|c cs IH]; intros cur; [auto |].
  rewrite !walk_cons. intros H. destruct (walk_inl_inv _ _ _ _ H) as (p & Hp).
  rewrite Hp in H. rewrite (extends_step _ _ _ _ _ He Hp). apply IH, H.
Qed.

(** [MkdirAll] changes nothing along a path that already resolves. *)
Lemma mkdir_walk fs cs cur q :
  walk fs cs (inl cur) = inl q ->
  fold_left mkdir_step cs (fs, inl cur) = (fs, inl q).
Proof.
  revert cur. induction cs as [|c cs IH]; intros cur; [simpl; congruence |].
  rewrite walk_cons. intros H. destruct (walk_inl_inv _ _ _ _ H) as (p & Hp).
  rewrite Hp in H. rewrite <- (IH _ H).
  change (fold_left mkdir_step (c :: cs) (fs, inl cur))
    with (fold_left mkdir_step cs (mkdir_step (fs, inl cur) c)).
  f_equal. revert Hp. unfold step, mkdir_step.
  destruct (is_dir fs cur); simpl; [| discriminate].
  destruct (String.eqb c "" || String.eqb c "."); [congruence |].
  destruct (String.eqb c ".."); [congruence |].
  destruct (fs !! (cur ++ [c])); [congruence | discriminate].
Qed.

Lemma mkdir_fold_snoc cs c st :
  fold_left mkdir_step (cs ++ [c]) st = mkdir_step (fold_left mkdir_step cs st) c.
Proof. rewrite fold_left_app. reflexivity. Qed.

End OSFacts.

(** ** The store's paths *)

Module StoreFacts.
Import OS OSFacts.

Lemma slash_append (a : string) : "/" +:+ a = String "/" a.
Proof. reflexivity. Qed.

Lemma object_path_eq (s : Storage) (bucket hash : string) :
  path s +:+ "/" +:+ bucket +:+ "/" +:+ hash
  = (path s +:+ "/" +:+ bucket) +:+ String "/" hash.
Proof. rewrite !append_assoc. reflexivity. Qed.

Lemma eqb_append_slash (a b : string) : String.eqb (a +:+ "/" +:+ b) "" = false.
Proof.
  apply String.eqb_neq, append_not_empty. rewrite slash_append. discriminate.
Qed.

Lemma eqb_append_cons (a : string) (x : ascii) (b : string) :
  String.eqb (a +:+ String x b) "" = false.
Proof. apply String.eqb_neq, append_not_empty. discriminate. Qed.

Lemma resolve_bucket (s : Storage) (fs : FS) (bucket : string) :
  resolve fs (path s +:+ "/" +:+ bucket) = walk fs (bucket_path s bucket) (inl []).
Proof. unfold resolve. rewrite eqb_append_slash. reflexivity. Qed.

Lemma resolve_child (fs : FS) (d c : string) :
  plain c = true ->
  resolve fs (d +:+ String "/" c) = step fs (walk fs (Strings.Split d "/") (inl [])) c.
Proof.
  intros Hc. unfold resolve. rewrite eqb_append_cons, Split_app, (plain_Split c Hc).
  apply walk_snoc.
Qed.

Lemma resolve_object (s : Storage) (fs : FS) (bucket hash : string) :
  plain hash = true ->
  resolve fs (path s +:+ "/" +:+ bucket +:+ "/" +:+ hash)
  = step fs (walk fs (bucket_path s bucket) (inl [])) hash.
Proof. intros Hh. rewrite object_path_eq. apply resolve_child, Hh. Qed.

Lemma Split_object (s : Storage) (bucket hash : string) :
  plain hash = true ->
  Strings.Split (path s +:+ "/" +:+ bucket +:+ "/" +:+ hash) "/"
  = bucket_path s bucket ++ [hash].
Proof. intros Hh. rewrite object_path_eq, Split_app, (plain_Split _ Hh). reflexivity. Qed.

Lemma plain_body : plain "body" = true.
Proof. reflexivity. Qed.

Lemma plain_metadata : plain "metadata.json" = true.
Proof. reflexivity. Qed.

(** Reading an entry of an object directory. *)
Lemma ReadFile_child (fs : FS) (d c : string) (p : list string) :
  plain c = true ->
  walk fs (Strings.Split d "/") (inl []) = inl p ->
  is_dir fs p = true ->
  ReadFile fs (d +:+ String "/" c)
  = match fs !! (p ++ [c]) with
    | Some (File data) => Ok data
    | Some Dir => Err (PathError "read" (d +:+ String "/" c) EISDIR)
    | None => Err (PathError "open" (d +:+ String "/" c) ENOENT)
    end.
Proof.
  intros Hc Hw Hd. unfold ReadFile.
  rewrite (resolve_child _ _ _ Hc), Hw, (step_plain _ _ _ Hc), Hd. simpl.
  destruct (fs !! (p ++ [c])) as [n|] eqn:E; [| reflexivity].
  rewrite node_at_snoc, E. reflexivity.
Qed.

(** Writing an entry of an object directory. *)
Lemma WriteFile_child (fs : FS) (d c : string) (p : list string) (data : list Z) :
  plain c = true ->
  walk fs (Strings.Split d "/") (inl []) = inl p ->
  WriteFile fs (d +:+ String "/" c) data
  = if negb (is_dir fs p) then (fs, Some (PathError "open" (d +:+ String "/" c) ENOTDIR))
    else match fs !! (p ++ [c]) with
         | Some Dir => (fs, Some (PathError "open" (d +:+ String "/" c) EISDIR))
         | _ => (<[p ++ [c] := File data]> fs, None)
         end.
Proof.
  intros Hc Hw. unfold WriteFile.
  rewrite eqb_append_cons, Split_app, (plain_Split c Hc).
  rewrite removelast_last, last_last, Hw.
  destruct (plain_special c Hc) as (E1 & E2 & E3). rewrite E1, E2, E3. reflexivity.
Qed.

(** Making an object directory below a bucket that resolves. *)
Lemma MkdirAll_object (s : Storage) (fs : FS) (bucket hash : string) (pb : list string) :
  plain hash = true ->
  walk fs (bucket_path s bucket) (inl []) = inl pb ->
  MkdirAll fs (path s +:+ "/" +:+ bucket +:+ "/" +:+ hash)
  = if negb (is_dir fs pb) then
      (fs, Some (PathError "mkdir" (path s +:+ "/" +:+ bucket +:+ "/" +:+ hash) ENOTDIR))
    else match fs !! (pb ++ [hash]) with
         | Some Dir => (fs, None)
         | Some (File _) =>
             (fs, Some (PathError "mkdir" (path s +:+ "/" +:+ bucket +:+ "/" +:+ hash) ENOTDIR))
         | None => (<[pb ++ [hash] := Dir]> fs, None)
         end.
Proof.
  intros Hh Hw. unfold MkdirAll.
  rewrite (Split_object _ _ _ Hh), mkdir_fold_snoc, (mkdir_walk _ _ _ _ Hw).
  rewrite object_path_eq, eqb_append_cons.
  destruct (plain_special _ Hh) as (E1 & E2 & E3). unfold mkdir_step.
  destruct (is_dir fs pb); simpl; [| reflexivity]. rewrite E1, E2, E3. simpl.
  destruct (fs !! (pb ++ [hash])) as [[|d]|] eqn:E.
  - unfold is_dir. rewrite node_at_snoc, E. reflexivity.
  - unfold is_dir. rewrite node_at_snoc, E. reflexivity.
  - unfold is_dir. rewrite node_at_snoc, lookup_insert_eq. reflexivity.
Qed.

End StoreFacts.

(** ** Reading the store *)

Section GetFacts.
Context {rt : GoRuntime} {codec : JSONCodec}.
Import OS OSFacts StoreFacts.

Lemma existPath_bucket (s : Storage) (fs : FS) (bucket : string) :
  existPath s fs bucket
  = match walk fs (bucket_path s bucket) (inl []) with
    | inl p => match node_at fs p with Some _ => true | None => false end
    | inr _ => false
    end.
Proof.
  unfold existPath, Stat. rewrite resolve_bucket.
  destruct (walk fs (bucket_path s bucket) (inl [])) as [p|e]; [| reflexivity].
  destruct (node_at fs p); reflexivity.
Qed.

Lemma existPath_object (s : Storage) (fs : FS) (bucket hash : string) (pb : list string) :
  plain hash = true ->
  walk fs (bucket_path s bucket) (inl []) = inl pb ->
  existPath s fs (bucket +:+ "/" +:+ hash)
  = is_dir fs pb && match fs !! (pb ++ [hash]) with Some _ => true | None => false end.
Proof.
  intros Hh Hw. unfold existPath, Stat.
  rewrite (resolve_object _ _ _ _ Hh), Hw, (step_plain _ _ _ Hh).
  destruct (is_dir fs pb); simpl; [| reflexivity].
  destruct (fs !! (pb ++ [hash])) as [n|] eqn:E; [| reflexivity].
  rewrite node_at_snoc, E. reflexivity.
Qed.

Lemma walk_object (s : Storage) (fs : FS) (bucket hash : string) (pb : list string) n :
  plain hash = true ->
  walk fs (bucket_path s bucket) (inl []) = inl pb ->
  is_dir fs pb = true ->
  fs !! (pb ++ [hash]) = Some n ->
  walk fs (Strings.Split (path s +:+ "/" +:+ bucket +:+ "/" +:+ hash) "/") (inl [])
  = inl (pb ++ [hash]).
Proof.
  intros Hh Hw Hd E.
  rewrite (Split_object _ _ _ Hh), walk_snoc, Hw, (step_plain _ _ _ Hh), Hd, E.
  reflexivity.
Qed.

Lemma is_dir_node fs p : is_dir fs p = true -> node_at fs p = Some Dir.
Proof. unfold is_dir. destruct (node_at fs p) as [[|d]|]; congruence. Qed.

(** [Get] on an object directory that holds both files. *)
Lemma Get_stored (s : Storage) (fs : FS) (bucket key : string)
    (pb : list string) (body mb : list Z) (meta : metadata) :
  let ph := pb ++ [Sha256Hash (Bytes.of_string key)] in
  walk fs (bucket_path s bucket) (inl []) = inl pb ->
  is_dir fs pb = true ->
  fs !! ph = Some Dir ->
  fs !! (ph ++ ["body"]) = Some (File body) ->
  fs !! (ph ++ ["metadata.json"]) = Some (File mb) ->
  json_Unmarshal mb = Ok meta ->
  Get s fs bucket key
  = if negb (String.eqb (Sha256Hash body) (ContentHash meta))
    then Err (errorString "content checksum mismatch")
    else Ok body.
Proof.
  intros ph Hw Hd Hph Hbody Hmeta Hjson.
  pose proof (Sha256Hash_plain (Bytes.of_string key)) as Hh.
  assert (Hdh : is_dir fs ph = true).
  { unfold is_dir, ph. rewrite node_at_snoc. fold ph. rewrite Hph. reflexivity. }
  pose proof (walk_object s fs bucket _ pb Dir Hh Hw Hd Hph) as Hwo.
  unfold Get.
  rewrite existPath_bucket, Hw, (is_dir_node _ _ Hd). simpl.
  rewrite (existPath_object _ _ _ _ _ Hh Hw), Hd. fold ph. rewrite Hph. simpl.
  change "/body" with (String "/" "body").
  change "/metadata.json" with (String "/" "metadata.json").
  rewrite (ReadFile_child _ _ _ _ plain_body Hwo Hdh). fold ph. rewrite Hbody.
  rewrite (ReadFile_child _ _ _ _ plain_metadata Hwo Hdh). fold ph. rewrite Hmeta.
  rewrite Hjson. reflexivity.
Qed.

End GetFacts.

(** ** Writing the store *)

Section PutFacts.
Context {rt : GoRuntime} {codec : JSONCodec}.
Import OS OSFacts StoreFacts.

Lemma snoc_inj {A} (l : list A) (x y : A) : l ++ [x] = l ++ [y] -> x = y.
Proof. intros H. apply app_inv_head in H. congruence. Qed.

Lemma snoc_neq_self {A} (l : list A) (x : A) : l ++ [x] <> l.
Proof.
  intros H. apply (f_equal (@length A)) in H. rewrite length_app in H. simpl in H. lia.
Qed.

(** The two writes of [Put], once the object directory exists. *)
Lemma Put_writes (s : Storage) (fs1 fs' : FS) (bucket key : string) (body : list Z)
    (now : Z) (pb : list string) :
  let hash := Sha256Hash (Bytes.of_string key) in
  let dir := path s +:+ "/" +:+ bucket +:+ "/" +:+ hash in
  walk fs1 (bucket_path s bucket) (inl []) = inl pb ->
  is_dir fs1 pb = true ->
  fs1 !! (pb ++ [hash]) = Some Dir ->
  match json_Marshal {| ContentHash := Sha256Hash body;
                        ContentSize := Z.of_nat (length body);
                        OriginalKey := key;
                        LastModified := now |} with
  | Err err => (fs1, Some (wrapError "could not marshal metadata struct" err))
  | Ok meta =>
      match WriteFile fs1 (dir +:+ "/metadata.json") meta with
      | (fs, Some err) => (fs, Some (wrapError "could not write metadata.json" err))
      | (fs, None) => WriteFile fs (dir +:+ "/body") body
      end
  end = (fs', None) ->
  (exists mb, stored s fs' bucket key body now pb mb) /\ extends fs1 fs'.
Proof.
  intros hash dir Hw Hd Hph.
  pose proof (Sha256Hash_plain (Bytes.of_string key)) as Hh. fold hash in Hh.
  set (ph := pb ++ [hash]) in *.
  assert (Hdh : is_dir fs1 ph = true).
  { unfold is_dir, ph. rewrite node_at_snoc. fold ph. rewrite Hph. reflexivity. }
  pose proof (walk_object s fs1 bucket hash pb Dir Hh Hw Hd Hph) as Hwo. fold dir ph in Hwo.
  destruct (json_Marshal _) as [mb|err] eqn:Hm; [| discriminate].
  change "/metadata.json" with (String "/" "metadata.json").
  change "/body" with (String "/" "body").
  rewrite (WriteFile_child _ _ _ _ _ plain_metadata Hwo), Hdh. simpl.
  destruct (fs1 !! (ph ++ ["metadata.json"])) as [[|d]|] eqn:Em; [discriminate | |].
  all: set (fs2 := <[ph ++ ["metadata.json"] := File mb]> fs1).
  all: assert (He2 : extends fs1 fs2) by (apply extends_insert; congruence).
  all: rewrite (WriteFile_child _ _ _ _ _ plain_body (extends_walk _ _ _ _ _ He2 Hwo)),
         (extends_is_dir _ _ _ He2 Hdh); simpl.
  all: destruct (fs2 !! (ph ++ ["body"])) as [[|d']|] eqn:Eb; [discriminate | |].
  all: intros [= <-].
  all: assert (He3 : extends fs2 (<[ph ++ ["body"] := File body]> fs2))
         by (apply extends_insert; congruence).
  all: pose proof (extends_trans _ _ _ He2 He3) as He.
  all: split; [exists mb | exact He].
  all: split;
    [ exact (extends_walk _ _ _ _ _ He Hw)
    | exact (extends_is_dir _ _ _ He Hd)
    | fold hash ph;
      rewrite lookup_insert_ne by apply snoc_neq_self;
      unfold fs2; rewrite lookup_insert_ne by apply snoc_neq_self;
      exact Hph
    | fold hash ph; apply lookup_insert_eq
    | fold hash ph;
      rewrite lookup_insert_ne by (intros H; apply snoc_inj in H; discriminate);
      unfold fs2; apply lookup_insert_eq
    | exact Hm ].
Qed.

Lemma Put_success (s : Storage) (fs fs' : FS) (bucket key : string) (body : list Z) (now : Z) :
  Put s fs bucket key body now = (fs', None) ->
  exists pb, (exists mb, stored s fs' bucket key body now pb mb) /\ extends fs fs'.
Proof.
  unfold Put. rewrite existPath_bucket.
  destruct (walk fs (bucket_path s bucket) (inl [])) as [pb|e] eqn:Hw; [| discriminate].
  destruct (node_at fs pb) as [n|] eqn:Hn; [| discriminate]. simpl.
  pose proof (Sha256Hash_plain (Bytes.of_string key)) as Hh.
  rewrite (MkdirAll_object _ _ _ _ _ Hh Hw).
  destruct (is_dir fs pb) eqn:Hd; simpl; [| discriminate].
  destruct (fs !! (pb ++ [Sha256Hash (Bytes.of_string key)])) as [[|d]|] eqn:E;
    [| discriminate |].
  - intros H. exists pb. exact (Put_writes _ _ _ _ _ _ _ _ Hw Hd E H).
  - intros H. exists pb.
    assert (He : extends fs (<[pb ++ [Sha256Hash (Bytes.of_string key)] := Dir]> fs))
      by (apply extends_insert; congruence).
    destruct (Put_writes _ _ _ _ _ _ _ _ (extends_walk _ _ _ _ _ He Hw)
                (extends_is_dir _ _ _ He Hd) (lookup_insert_eq _ _ _) H) as [Hs He'].
    split; [exact Hs | exact (extends_trans _ _ _ He He')].
Qed.

End PutFacts.

(** ** Removing an object *)

Module DeleteFacts.
Import OS OSFacts StoreFacts.

Lemma step_no_dotdot fs cur c q :
  String.eqb c ".." = false -> step fs (inl cur) c = inl q ->
  is_dir fs cur = true /\ (q = cur \/ (q = cur ++ [c] /\ is_Some (fs !! (cur ++ [c])))).
Proof.
  intros Hc. unfold step. destruct (is_dir fs cur); simpl; [| discriminate].
  destruct (String.eqb c "" || String.eqb c "."); [intros [= <-]; auto |].
  rewrite Hc. destruct (fs !! (cur ++ [c])) as [n|]; [| discriminate].
  intros [= <-]. split; [reflexivity |]. right. split; [reflexivity | eauto].
Qed.

(** Without [".."] resolution only descends. *)
Lemma walk_prefix fs cs cur q :
  no_dotdot_in cs = true -> walk fs cs (inl cur) = inl q -> cur `prefix_of` q.
Proof.
  revert cur. induction cs as [|c cs IH]; intros cur Hcs.
  - simpl. intros [= <-]. reflexivity.
  - simpl in Hcs. apply andb_prop in Hcs as [Hc Hcs]. apply negb_true_iff in Hc.
    rewrite walk_cons. intros H. destruct (walk_inl_inv _ _ _ _ H) as (p & Hp).
    rewrite Hp in H. apply IH in H; [| exact Hcs].
    destruct (step_no_dotdot _ _ _ _ Hc Hp) as [_ [-> | [-> _]]]; [exact H |].
    etrans; [| exact H]. apply prefix_app_r. reflexivity.
Qed.

Lemma is_dir_agree (fs fs' : FS) p : fs !! p = fs' !! p -> is_dir fs p = is_dir fs' p.
Proof. unfold is_dir, node_at. intros H. destruct p; [reflexivity | rewrite H; reflexivity]. Qed.

(** ... and depends on the entries above its result only. *)
Lemma walk_agree (fs fs' : FS) cs cur q :
  no_dotdot_in cs = true ->
  (forall p, p `prefix_of` q -> fs !! p = fs' !! p) ->
  walk fs cs (inl cur) = inl q -> walk fs' cs (inl cur) = inl q.
Proof.
  intros Hcs Hag. revert cur Hcs. induction cs as [|c cs IH]; intros cur Hcs; [auto |].
  simpl in Hcs. apply andb_prop in Hcs as [Hc Hcs]. apply negb_true_iff in Hc.
  rewrite !walk_cons. intros H. destruct (walk_inl_inv _ _ _ _ H) as (p & Hp).
  rewrite Hp in H. pose proof (walk_prefix _ _ _ _ Hcs H) as Hpq.
  assert (Hs : step fs' (inl cur) c = inl p).
  { destruct (step_no_dotdot _ _ _ _ Hc Hp) as [Hd Hq].
    assert (Hcur : cur `prefix_of` q).
    { destruct Hq as [-> | [-> _]]; [exact Hpq |].
      etrans; [| exact Hpq]. apply prefix_app_r. reflexivity. }
    revert Hp. unfold step.
    rewrite <- (is_dir_agree fs fs' cur (Hag _ Hcur)), Hd. simpl.
    destruct (String.eqb c "" || String.eqb c "."); [auto |]. rewrite Hc.
    destruct (fs !! (cur ++ [c])) as [n|] eqn:E; [| discriminate].
    intros [= <-]. rewrite <- (Hag _ Hpq), E. reflexivity. }
  rewrite Hs. apply IH; assumption.
Qed.

Lemma slice_from_append (a b : string) (k : nat) :
  slice_from (String.length a + k) (a +:+ b) = slice_from k b.
Proof. induction a as [|x a IH]; [reflexivity | exact IH]. Qed.

Lemma slice_from_is_hex (h : string) (k : nat) : is_hex h = true -> is_hex (slice_from k h) = true.
Proof.
  revert k. induction h as [|x h IH]; intros [|k] Hh; try exact Hh.
  simpl in Hh. apply andb_prop in Hh as [_ Hh]. exact (IH k Hh).
Qed.

Lemma append_length (a b : string) :
  String.length (a +:+ b) = (String.length a + String.length b)%nat.
Proof. induction a as [|x a IH]; [reflexivity |]. rewrite append_cons. simpl. now rewrite IH. Qed.

(** An object directory is never written with a trailing dot. *)
Lemma endsWithDot_object (d h : string) :
  is_hex h = true -> String.length h = 64%nat -> endsWithDot (d +:+ String "/" h) = false.
Proof.
  intros Hh Hl. unfold endsWithDot, Strings.HasSuffix.
  destruct (String.eqb_spec (d +:+ String "/" h) ".") as [E|_].
  { apply (f_equal String.length) in E. rewrite append_length in E. simpl in E. lia. }
  rewrite append_length. simpl String.length. rewrite Hl.
  replace (String.length d + 65 - 2)%nat with (String.length d + 63)%nat by lia.
  rewrite slice_from_append. change (slice_from 63 (String "/" h)) with (slice_from 62 h).
  destruct (String.eqb_spec (slice_from 62 h) "/.") as [E|_]; [| apply andb_false_r].
  pose proof (slice_from_is_hex h 62 Hh) as Hs. rewrite E in Hs. discriminate Hs.
Qed.

End DeleteFacts.

Section RemoveFacts.
Context {rt : GoRuntime} {codec : JSONCodec}.
Import OS OSFacts StoreFacts DeleteFacts.

Lemma bucket_path_plain (s : Storage) (bucket : string) :
  plain bucket = true -> bucket_path s bucket = Strings.Split (path s) "/" ++ [bucket].
Proof.
  intros Hb. unfold bucket_path. rewrite slash_append, Split_app, (plain_Split _ Hb).
  reflexivity.
Qed.

Lemma plain_not_dotdot (c : string) : plain c = true -> String.eqb c ".." = false.
Proof. intros H. apply (plain_special c H). Qed.

Lemma no_dotdot_bucket (s : Storage) (bucket : string) :
  no_dotdot (path s) = true -> plain bucket = true ->
  no_dotdot_in (bucket_path s bucket) = true.
Proof.
  intros Hs Hb. rewrite (bucket_path_plain _ _ Hb). unfold no_dotdot_in.
  rewrite forallb_app. fold (no_dotdot_in (Strings.Split (path s) "/")).
  fold (no_dotdot (path s)). rewrite Hs. simpl. rewrite (plain_not_dotdot _ Hb). reflexivity.
Qed.

(** [Delete] succeeds when the bucket and the object directory exist. *)
Lemma Delete_existing (s : Storage) (fs : FS) (bucket key : string) :
  existPath s fs bucket = true ->
  existPath s fs (bucket +:+ "/" +:+ Sha256Hash (Bytes.of_string key)) = true ->
  exists p,
    resolve fs (path s +:+ "/" +:+ bucket +:+ "/" +:+ Sha256Hash (Bytes.of_string key)) = inl p
    /\ Delete s fs bucket key = (filter (fun kv => ¬ p `prefix_of` kv.1) fs, None).
Proof.
  intros Hb Ho. unfold Delete. rewrite Hb, Ho. simpl.
  unfold existPath, Stat in Ho.
  destruct (resolve fs (path s +:+ "/" +:+ bucket +:+ "/" +:+ Sha256Hash (Bytes.of_string key)))
    as [p|e] eqn:Hr; [| discriminate].
  exists p. split; [reflexivity |]. unfold RemoveAll.
  rewrite object_path_eq, eqb_append_cons,
    (endsWithDot_object _ _ (Sha256Hash_is_hex _) (Sha256Hash_length _)).
  rewrite <- object_path_eq, Hr. reflexivity.
Qed.

Lemma filter_below_lookup (fs : FS) (p k : list string) :
  (filter (fun kv => ¬ p `prefix_of` kv.1) fs) !! k
  = if decide (p `prefix_of` k) then None else fs !! k.
Proof.
  destruct (decide (p `prefix_of` k)) as [Hp|Hp].
  - apply map_lookup_filter_None. right. intros x _ H. apply H. exact Hp.
  - destruct (fs !! k) as [x|] eqn:E.
    + apply map_lookup_filter_Some. split; [exact E | exact Hp].
    + apply map_lookup_filter_None. left. exact E.
Qed.

Lemma prefix_longer {A} (p q : list A) (x : A) : q `prefix_of` p -> ¬ (p ++ [x]) `prefix_of` q.
Proof.
  intros H1 H2. apply prefix_length in H1, H2. rewrite length_app in H2. simpl in H2. lia.
Qed.

(** The state after removing the object directory [pb ++ [hash]] of a
    bucket with a plain name. *)
Lemma after_remove (s : Storage) (fs : FS) (bucket key : string) (pb : list string) n :
  let hash := Sha256Hash (Bytes.of_string key) in
  let fs' := filter (fun kv => ¬ (pb ++ [hash]) `prefix_of` kv.1) fs in
  no_dotdot (path s) = true -> plain bucket = true ->
  walk fs (bucket_path s bucket) (inl []) = inl pb ->
  node_at fs pb = Some n ->
  existPath s fs' bucket = true
  /\ existPath s fs' (bucket +:+ "/" +:+ hash) = false.
Proof.
  intros hash fs' Hs Hb Hw Hn.
  assert (Hag : forall p, p `prefix_of` pb -> fs !! p = fs' !! p).
  { intros p Hp. unfold fs'. rewrite filter_below_lookup.
    destruct (decide _) as [Hc|_]; [| reflexivity].
    exfalso. exact (prefix_longer _ _ _ Hp Hc). }
  pose proof (walk_agree fs fs' _ _ _ (no_dotdot_bucket _ _ Hs Hb) Hag Hw) as Hw'.
  assert (Hn' : node_at fs' pb = node_at fs pb).
  { unfold node_at. destruct pb; [reflexivity |]. symmetry. apply Hag. reflexivity. }
  split.
  - rewrite existPath_bucket, Hw', Hn', Hn. reflexivity.
  - unfold hash. rewrite (existPath_object _ _ _ _ _ (Sha256Hash_plain _) Hw').
    fold hash. unfold fs' at 2. rewrite filter_below_lookup.
    destruct (decide _) as [_|Hc]; [apply andb_false_r |].
    exfalso. apply Hc. reflexivity.
Qed.

End RemoveFacts.

(** ** No operation on objects reports a naming error *)

Module KindFacts.
Import OS.

Lemma PathError_not_naming e : is_PathError e -> ~ BucketNameInvalid e.
Proof. intros (op & p & en & ->) (msg & H). discriminate H. Qed.

Lemma MkdirAll_error fs name fs' e : MkdirAll fs name = (fs', Some e) -> is_PathError e.
Proof.
  unfold MkdirAll, is_PathError. destruct (String.eqb name ""); [intros [= _ <-]; eauto |].
  destruct (fold_left mkdir_step _ _) as [fs1 [p|en]].
  - destruct (is_dir fs1 p); [discriminate | intros [= _ <-]; eauto].
  - intros [= _ <-]; eauto.
Qed.

Lemma WriteFile_error fs name data fs' e :
  WriteFile fs name data = (fs', Some e) -> is_PathError e.
Proof.
  unfold WriteFile, is_PathError. destruct (String.eqb name ""); [intros [= _ <-]; eauto |].
  destruct (walk fs _ _) as [d|en]; [| intros [= _ <-]; eauto].
  destruct (is_dir fs d); simpl; [| intros [= _ <-]; eauto].
  destruct (_ || _); [intros [= _ <-]; eauto |].
  destruct (fs !! _) as [[|x]|]; try discriminate. intros [= _ <-]; eauto.
Qed.

Lemma RemoveAll_error fs name fs' e : RemoveAll fs name = (fs', Some e) -> is_PathError e.
Proof.
  unfold RemoveAll, is_PathError. destruct (String.eqb name ""); [discriminate |].
  destruct (endsWithDot name); [intros [= _ <-]; eauto |].
  destruct (resolve fs name) as [p|[]]; try discriminate; intros [= _ <-]; eauto.
Qed.

Section Ops.
Context {rt : GoRuntime} {codec : JSONCodec}.

Lemma Get_not_naming s fs bucket key e :
  Get s fs bucket key = Err e -> ~ BucketNameInvalid e.
Proof.
  unfold Get, BucketNameInvalid.
  repeat match goal with
         | |- context [if ?x then _ else _] => destruct x
         | |- context [match ?x with Ok _ => _ | Err _ => _ end] => destruct x
         end; intros [= <-] (msg & H); discriminate H.
Qed.

Lemma Put_not_naming s fs bucket key body now fs' e :
  Put s fs bucket key body now = (fs', Some e) -> ~ BucketNameInvalid e.
Proof.
  unfold Put. destruct (existPath s fs bucket); simpl;
    [| intros [= _ <-] (msg & H); discriminate H].
  destruct (MkdirAll fs _) as [fs1 [e1|]] eqn:Hm.
  { intros [= _ <-]. apply PathError_not_naming, (MkdirAll_error _ _ _ _ Hm). }
  destruct (json_Marshal _); [| intros [= _ <-] (msg & H); discriminate H].
  destruct (WriteFile fs1 _ _) as [fs2 [e2|]];
    [intros [= _ <-] (msg & H); discriminate H |].
  intros Hw. apply PathError_not_naming, (WriteFile_error _ _ _ _ _ Hw).
Qed.

Lemma Delete_not_naming s fs bucket key fs' e :
  Delete s fs bucket key = (fs', Some e) -> ~ BucketNameInvalid e.
Proof.
  unfold Delete. destruct (existPath s fs bucket); simpl;
    [| intros [= _ <-] (msg & H); discriminate H].
  destruct (existPath s fs _); simpl; [| intros [= _ <-] (msg & H); discriminate H].
  intros Hr. apply PathError_not_naming, (RemoveAll_error _ _ _ _ Hr).
Qed.

End Ops.
End KindFacts.

(** ** Bucket strings that denote the same directory *)

Module AliasFacts.
Import OS OSFacts StoreFacts.

Section Ops.
Context {rt : GoRuntime} {codec : JSONCodec}.

Lemma Put_unfold (s : Storage) (fs : FS) (bucket key : string) (body : list Z) (now : Z) :
  Put s fs bucket key body now
  = if negb (existPath s fs bucket) then
      (fs, Some (Error_ "requested bucket does not exist" StatusNotFound))
    else
      let dir := path s +:+ "/" +:+ bucket +:+ "/" +:+ Sha256Hash (Bytes.of_string key) in
      match MkdirAll fs dir with
      | (fs, Some err) => (fs, Some err)
      | (fs, None) => put_files dir fs key body now
      end.
Proof. reflexivity. Qed.

Lemma put_files_alias (s : Storage) (fs : FS) (b1 b2 key : string) (body : list Z)
    (now : Z) (pb : list string) :
  let hash := Sha256Hash (Bytes.of_string key) in
  walk fs (bucket_path s b1) (inl []) = inl pb ->
  walk fs (bucket_path s b2) (inl []) = inl pb ->
  is_dir fs pb = true ->
  fs !! (pb ++ [hash]) = Some Dir ->
  same_outcome (put_files (path s +:+ "/" +:+ b1 +:+ "/" +:+ hash) fs key body now)
               (put_files (path s +:+ "/" +:+ b2 +:+ "/" +:+ hash) fs key body now).
Proof.
  intros hash H1 H2 Hd Hph.
  pose proof (Sha256Hash_plain (Bytes.of_string key)) as Hh. fold hash in Hh.
  pose proof (walk_object s fs b1 hash pb Dir Hh H1 Hd Hph) as Hw1.
  pose proof (walk_object s fs b2 hash pb Dir Hh H2 Hd Hph) as Hw2.
  unfold put_files. destruct (json_Marshal _) as [mb|err]; [| split; reflexivity].
  change "/metadata.json" with (String "/" "metadata.json").
  change "/body" with (String "/" "body").
  rewrite (WriteFile_child _ _ _ _ _ plain_metadata Hw1),
    (WriteFile_child _ _ _ _ _ plain_metadata Hw2).
  destruct (is_dir fs (pb ++ [hash])) eqn:Hdh; simpl; [| split; reflexivity].
  destruct (fs !! ((pb ++ [hash]) ++ ["metadata.json"])) as [[|d]|] eqn:Em;
    [split; reflexivity | |].
  all: set (fs2 := <[(pb ++ [hash]) ++ ["metadata.json"] := File mb]> fs).
  all: assert (He : extends fs fs2) by (apply extends_insert; congruence).
  all: rewrite (WriteFile_child _ _ _ _ _ plain_body (extends_walk _ _ _ _ _ He Hw1)),
         (WriteFile_child _ _ _ _ _ plain_body (extends_walk _ _ _ _ _ He Hw2)).
  all: destruct (is_dir fs2 (pb ++ [hash])); simpl; [| split; reflexivity].
  all: destruct (fs2 !! ((pb ++ [hash]) ++ ["body"])) as [[|d']|]; split; reflexivity.
Qed.

Lemma ReadFile_entry (fs : FS) (d c : string) (p : list string) :
  plain c = true ->
  walk fs (Strings.Split d "/") (inl []) = inl p ->
  ReadFile fs (d +:+ String "/" c)
  = if negb (is_dir fs p) then Err (PathError "open" (d +:+ String "/" c) ENOTDIR)
    else match fs !! (p ++ [c]) with
         | Some (File data) => Ok data
         | Some Dir => Err (PathError "read" (d +:+ String "/" c) EISDIR)
         | None => Err (PathError "open" (d +:+ String "/" c) ENOENT)
         end.
Proof.
  intros Hc Hw. unfold ReadFile.
  rewrite (resolve_child _ _ _ Hc), Hw, (step_plain _ _ _ Hc).
  destruct (is_dir fs p); simpl; [| reflexivity].
  destruct (fs !! (p ++ [c])) as [n|] eqn:E; [| reflexivity].
  rewrite node_at_snoc, E. reflexivity.
Qed.

Lemma Put_alias (s : Storage) (fs : FS) (b1 b2 key : string) (body : list Z) (now : Z)
    (pb : list string) :
  walk fs (bucket_path s b1) (inl []) = inl pb ->
  walk fs (bucket_path s b2) (inl []) = inl pb ->
  same_outcome (Put s fs b1 key body now) (Put s fs b2 key body now).
Proof.
  intros H1 H2. pose proof (Sha256Hash_plain (Bytes.of_string key)) as Hh.
  rewrite !Put_unfold, !existPath_bucket, H1, H2.
  destruct (node_at fs pb); simpl; [| split; reflexivity].
  rewrite (MkdirAll_object _ _ _ _ _ Hh H1), (MkdirAll_object _ _ _ _ _ Hh H2).
  destruct (is_dir fs pb) eqn:Hd; simpl; [| split; reflexivity].
  destruct (fs !! (pb ++ [Sha256Hash (Bytes.of_string key)])) as [[|d]|] eqn:E.
  - exact (put_files_alias s fs b1 b2 key body now pb H1 H2 Hd E).
  - split; reflexivity.
  - assert (He : extends fs (<[pb ++ [Sha256Hash (Bytes.of_string key)] := Dir]> fs))
      by (apply extends_insert; congruence).
    apply (put_files_alias s _ b1 b2 key body now pb);
      [exact (extends_walk _ _ _ _ _ He H1) | exact (extends_walk _ _ _ _ _ He H2)
      | exact (extends_is_dir _ _ _ He Hd) | apply lookup_insert_eq].
Qed.

Lemma Get_alias (s : Storage) (fs : FS) (b1 b2 key : string) (pb : list string) :
  walk fs (bucket_path s b1) (inl []) = inl pb ->
  walk fs (bucket_path s b2) (inl []) = inl pb ->
  same_result (Get s fs b1 key) (Get s fs b2 key).
Proof.
  intros H1 H2. pose proof (Sha256Hash_plain (Bytes.of_string key)) as Hh.
  unfold Get. rewrite (existPath_bucket s fs b1), (existPath_bucket s fs b2), H1, H2.
  destruct (node_at fs pb); simpl; [| reflexivity].
  rewrite (existPath_object _ _ _ _ _ Hh H1), (existPath_object _ _ _ _ _ Hh H2).
  destruct (is_dir fs pb) eqn:Hd; simpl; [| reflexivity].
  destruct (fs !! (pb ++ [Sha256Hash (Bytes.of_string key)])) as [n'|] eqn:E; simpl;
    [| reflexivity].
  pose proof (walk_object s fs b1 _ pb n' Hh H1 Hd E) as Hw1.
  pose proof (walk_object s fs b2 _ pb n' Hh H2 Hd E) as Hw2.
  change "/metadata.json" with (String "/" "metadata.json").
  change "/body" with (String "/" "body").
  rewrite !(ReadFile_entry _ _ _ _ plain_body Hw1), !(ReadFile_entry _ _ _ _ plain_body Hw2),
    !(ReadFile_entry _ _ _ _ plain_metadata Hw1), !(ReadFile_entry _ _ _ _ plain_metadata Hw2).
  destruct (is_dir fs (pb ++ [Sha256Hash (Bytes.of_string key)])); cbn; [| reflexivity].
  destruct (fs !! (_ ++ ["body"])) as [[|body]|]; cbn; try reflexivity.
  destruct (fs !! (_ ++ ["metadata.json"])) as [[|mb]|]; cbn; try reflexivity.
  destruct (json_Unmarshal mb); cbn; [| reflexivity].
  destruct (negb _); reflexivity.
Qed.

Lemma Delete_alias (s : Storage) (fs : FS) (b1 b2 key : string) (pb : list string) :
  walk fs (bucket_path s b1) (inl []) = inl pb ->
  walk fs (bucket_path s b2) (inl []) = inl pb ->
  same_outcome (Delete s fs b1 key) (Delete s fs b2 key).
Proof.
  intros H1 H2. pose proof (Sha256Hash_plain (Bytes.of_string key)) as Hh.
  unfold Delete. rewrite (existPath_bucket s fs b1), (existPath_bucket s fs b2), H1, H2.
  destruct (node_at fs pb); simpl; [| split; reflexivity].
  rewrite (existPath_object _ _ _ _ _ Hh H1), (existPath_object _ _ _ _ _ Hh H2).
  destruct (is_dir fs pb) eqn:Hd; simpl; [| split; reflexivity].
  destruct (fs !! (pb ++ [Sha256Hash (Bytes.of_string key)])) as [n'|] eqn:E; simpl;
    [| split; reflexivity].
  unfold RemoveAll.
  rewrite !object_path_eq, !eqb_append_cons,
    !(DeleteFacts.endsWithDot_object _ _ (Sha256Hash_is_hex _) (Sha256Hash_length _)).
  rewrite <- !object_path_eq, !(resolve_object _ _ _ _ Hh), H1, H2,
    (step_plain _ _ _ Hh), Hd, E.
  split; reflexivity.
Qed.

End Ops.
End AliasFacts.

Section DotSlash.
Context {rt : GoRuntime} {codec : JSONCodec}.
Import OS OSFacts StoreFacts KindFacts AliasFacts.

Lemma step_dot (fs : FS) (x : list string + errno) (c : string) :
  step fs (step fs x ".") c = step fs x c.
Proof.
  destruct x as [cur|e]; [| reflexivity].
  unfold step at 2. destruct (is_dir fs cur) eqn:Hd; simpl; [reflexivity |].
  unfold step. rewrite Hd. reflexivity.
Qed.

(** [s.path + "/" + "./" + bucket] resolves as [s.path + "/" + bucket]. *)
Lemma walk_dot_slash (s : Storage) (fs : FS) (bucket : string) :
  walk fs (bucket_path s ("./" +:+ bucket)) (inl [])
  = walk fs (bucket_path s bucket) (inl []).
Proof.
  unfold bucket_path. rewrite !slash_append.
  change ("./" +:+ bucket) with ("." +:+ String "/" bucket).
  rewrite (Split_app (path s) ("." +:+ String "/" bucket)), (Split_app "." bucket),
    (Split_app (path s) bucket).
  change (Strings.Split "." "/") with ["."].
  rewrite !walk_app. pose proof (Split_not_nil bucket "/") as Hne.
  destruct (Strings.Split bucket "/") as [|c cs]; [congruence |].
  change (walk fs ["."] ?x) with (step fs x ".").
  rewrite !walk_cons, step_dot. reflexivity.
Qed.

End DotSlash.

(** ** Operations on one bucket leave the others alone *)

Module FrameFacts.
Import OS OSFacts StoreFacts DeleteFacts AliasFacts.

Lemma same_outside_refl p fs : same_outside p fs fs.
Proof. intros q _. reflexivity. Qed.

Lemma same_outside_trans p fs1 fs2 fs3 :
  same_outside p fs1 fs2 -> same_outside p fs2 fs3 -> same_outside p fs1 fs3.
Proof. intros H12 H23 q Hq. rewrite (H23 q Hq). apply H12, Hq. Qed.

Lemma same_outside_insert p q n fs : p `prefix_of` q -> same_outside p fs (<[q := n]> fs).
Proof.
  intros Hp k Hk. apply lookup_insert_ne. intros ->. contradiction.
Qed.

Lemma same_outside_weaken p p' fs fs' :
  p `prefix_of` p' -> same_outside p' fs fs' -> same_outside p fs fs'.
Proof. intros Hp H q Hq. apply H. intros Hq'. apply Hq. etrans; eassumption. Qed.

Section Ops.
Context {rt : GoRuntime} {codec : JSONCodec}.

Lemma WriteFile_outside (fs : FS) (d c : string) (p : list string) (data : list Z) :
  plain c = true ->
  walk fs (Strings.Split d "/") (inl []) = inl p ->
  same_outside p fs (WriteFile fs (d +:+ String "/" c) data).1
  /\ extends fs (WriteFile fs (d +:+ String "/" c) data).1.
Proof.
  intros Hc Hw. rewrite (WriteFile_child _ _ _ _ _ Hc Hw).
  destruct (is_dir fs p); simpl; [| split; [apply same_outside_refl | apply extends_refl]].
  destruct (fs !! (p ++ [c])) as [[|x]|] eqn:E; simpl.
  - split; [apply same_outside_refl | apply extends_refl].
  - split; [apply same_outside_insert, prefix_app_r; reflexivity
           | apply extends_insert; congruence].
  - split; [apply same_outside_insert, prefix_app_r; reflexivity
           | apply extends_insert; congruence].
Qed.

Lemma put_files_outside (s : Storage) (fs : FS) (bucket key : string) (body : list Z)
    (now : Z) (pb : list string) :
  let hash := Sha256Hash (Bytes.of_string key) in
  walk fs (bucket_path s bucket) (inl []) = inl pb ->
  is_dir fs pb = true ->
  fs !! (pb ++ [hash]) = Some Dir ->
  same_outside (pb ++ [hash]) fs
    (put_files (path s +:+ "/" +:+ bucket +:+ "/" +:+ hash) fs key body now).1
  /\ extends fs (put_files (path s +:+ "/" +:+ bucket +:+ "/" +:+ hash) fs key body now).1.
Proof.
  intros hash Hw Hd Hph.
  pose proof (Sha256Hash_plain (Bytes.of_string key)) as Hh. fold hash in Hh.
  pose proof (walk_object s fs bucket hash pb Dir Hh Hw Hd Hph) as Hwo.
  unfold put_files.
  destruct (json_Marshal _) as [mb|err];
    [| split; [apply same_outside_refl | apply extends_refl]].
  change "/metadata.json" with (String "/" "metadata.json").
  change "/body" with (String "/" "body").
  destruct (WriteFile_outside fs _ _ _ mb plain_metadata Hwo) as [Ho1 He1].
  destruct (WriteFile fs _ mb) as [fs2 [e|]] eqn:E1; simpl in Ho1, He1 |- *;
    [split; assumption |].
  destruct (WriteFile_outside fs2 _ _ _ body plain_body (extends_walk _ _ _ _ _ He1 Hwo))
    as [Ho2 He2].
  split; [exact (same_outside_trans _ _ _ _ Ho1 Ho2) | exact (extends_trans _ _ _ He1 He2)].
Qed.

(** [Put] changes the state at and below the bucket directory only, and
    removes nothing. *)
Lemma Put_outside (s : Storage) (fs : FS) (bucket key : string) (body : list Z) (now : Z)
    (pb : list string) :
  walk fs (bucket_path s bucket) (inl []) = inl pb ->
  same_outside pb fs (Put s fs bucket key body now).1
  /\ extends fs (Put s fs bucket key body now).1.
Proof.
  intros Hw. pose proof (Sha256Hash_plain (Bytes.of_string key)) as Hh.
  rewrite Put_unfold, existPath_bucket, Hw.
  destruct (node_at fs pb); simpl; [| split; [apply same_outside_refl | apply extends_refl]].
  rewrite (MkdirAll_object _ _ _ _ _ Hh Hw).
  destruct (is_dir fs pb) eqn:Hd; simpl;
    [| split; [apply same_outside_refl | apply extends_refl]].
  destruct (fs !! (pb ++ [Sha256Hash (Bytes.of_string key)])) as [[|d]|] eqn:E.
  - destruct (put_files_outside s fs bucket key body now pb Hw Hd E) as [Ho He].
    split; [| exact He].
    eapply same_outside_weaken; [| exact Ho]. apply prefix_app_r. reflexivity.
  - split; [apply same_outside_refl | apply extends_refl].
  - assert (He0 : extends fs (<[pb ++ [Sha256Hash (Bytes.of_string key)] := Dir]> fs))
      by (apply extends_insert; congruence).
    destruct (put_files_outside s _ bucket key body now pb
                (extends_walk _ _ _ _ _ He0 Hw) (extends_is_dir _ _ _ He0 Hd)
                (lookup_insert_eq _ _ _)) as [Ho He].
    split; [| exact (extends_trans _ _ _ He0 He)].
    eapply same_outside_trans;
      [apply same_outside_insert, prefix_app_r; reflexivity |].
    eapply same_outside_weaken; [| exact Ho]. apply prefix_app_r. reflexivity.
Qed.

(** [Delete] changes the state at and below the bucket directory only. *)
Lemma Delete_outside (s : Storage) (fs : FS) (bucket key : string) (pb : list string) :
  walk fs (bucket_path s bucket) (inl []) = inl pb ->
  same_outside pb fs (Delete s fs bucket key).1.
Proof.
  intros Hw. pose proof (Sha256Hash_plain (Bytes.of_string key)) as Hh.
  destruct (existPath s fs bucket) eqn:Hb;
    [| unfold Delete; rewrite Hb; apply same_outside_refl].
  destruct (existPath s fs (bucket +:+ "/" +:+ Sha256Hash (Bytes.of_string key))) eqn:Ho;
    [| unfold Delete; rewrite Hb, Ho; apply same_outside_refl].
  destruct (Delete_existing s fs bucket key Hb Ho) as (p & Hr & ->). simpl.
  rewrite (resolve_object _ _ _ _ Hh), Hw, (step_plain _ _ _ Hh) in Hr.
  destruct (is_dir fs pb); simpl in Hr; [| discriminate].
  destruct (fs !! (pb ++ [Sha256Hash (Bytes.of_string key)])); [| discriminate].
  injection Hr as <-. intros q Hq. rewrite filter_below_lookup.
  destruct (decide _) as [Hc|_]; [| reflexivity].
  exfalso. apply Hq. etrans; [| exact Hc]. apply prefix_app_r. reflexivity.
Qed.

End Ops.
End FrameFacts.

Section Isolation.
Context {rt : GoRuntime} {codec : JSONCodec}.
Import OS OSFacts StoreFacts DeleteFacts AliasFacts FrameFacts.

(** [Get] reads the state at and below the bucket directory only. *)
Lemma Get_agree (s : Storage) (fs fs' : FS) (bucket key : string) (pb : list string) :
  walk fs (bucket_path s bucket) (inl []) = inl pb ->
  walk fs' (bucket_path s bucket) (inl []) = inl pb ->
  (forall q, pb `prefix_of` q -> fs' !! q = fs !! q) ->
  Get s fs' bucket key = Get s fs bucket key.
Proof.
  intros Hw Hw' Hag. pose proof (Sha256Hash_plain (Bytes.of_string key)) as Hh.
  set (hash := Sha256Hash (Bytes.of_string key)) in *.
  assert (Hn : node_at fs' pb = node_at fs pb).
  { unfold node_at. destruct pb; [reflexivity |]. apply Hag. reflexivity. }
  assert (Hd : is_dir fs' pb = is_dir fs pb) by (unfold is_dir; rewrite Hn; reflexivity).
  assert (Hph : fs' !! (pb ++ [hash]) = fs !! (pb ++ [hash]))
    by (apply Hag, prefix_app_r; reflexivity).
  assert (Hdh : is_dir fs' (pb ++ [hash]) = is_dir fs (pb ++ [hash]))
    by (symmetry; apply is_dir_agree; symmetry; exact Hph).
  assert (Hf : forall c, fs' !! ((pb ++ [hash]) ++ [c]) = fs !! ((pb ++ [hash]) ++ [c])).
  { intros c. apply Hag. rewrite <- app_assoc. apply prefix_app_r. reflexivity. }
  unfold Get. fold hash.
  rewrite (existPath_bucket s fs' bucket), (existPath_bucket s fs bucket), Hw, Hw', Hn.
  destruct (node_at fs pb); simpl; [| reflexivity].
  rewrite (existPath_object _ fs' _ _ _ Hh Hw'), (existPath_object _ fs _ _ _ Hh Hw), Hd, Hph.
  destruct (is_dir fs pb) eqn:Hdb; simpl; [| reflexivity].
  destruct (fs !! (pb ++ [hash])) as [n'|] eqn:E; simpl; [| reflexivity].
  pose proof (walk_object s fs bucket _ pb n' Hh Hw Hdb E) as Hwo.
  pose proof (walk_object s fs' bucket _ pb n' Hh Hw' Hd Hph) as Hwo'.
  change "/metadata.json" with (String "/" "metadata.json").
  change "/body" with (String "/" "body").
  rewrite !(ReadFile_entry _ _ _ _ plain_body Hwo), !(ReadFile_entry _ _ _ _ plain_body Hwo'),
    !(ReadFile_entry _ _ _ _ plain_metadata Hwo), !(ReadFile_entry _ _ _ _ plain_metadata Hwo').
  rewrite Hdh, !Hf. reflexivity.
Qed.

Lemma snoc_prefix_distinct {A} (l q : list A) (x y : A) :
  x <> y -> (l ++ [x]) `prefix_of` q -> ¬ (l ++ [y]) `prefix_of` q.
Proof.
  intros Hxy [k1 ->] [k2 H]. rewrite <- !app_assoc in H. apply app_inv_head in H.
  simpl in H. congruence.
Qed.

Lemma snoc_not_prefix {A} (l q : list A) (x : A) : q `prefix_of` l -> ¬ (l ++ [x]) `prefix_of` q.
Proof. apply prefix_longer. Qed.

(** Whatever changes the state at and below the directory of bucket [A]
    only is invisible to [Get] on another bucket. *)
Lemma Get_other_bucket (s : Storage) (fs fs' : FS) (A B key : string) (pr : list string) :
  plain A = true -> plain B = true -> A <> B ->
  walk fs (Strings.Split (path s) "/") (inl []) = inl pr ->
  walk fs' (Strings.Split (path s) "/") (inl []) = inl pr ->
  same_outside (pr ++ [A]) fs fs' ->
  Get s fs' B key = Get s fs B key.
Proof.
  intros HA HB Hne Hr Hr' Ho.
  assert (Hd : is_dir fs' pr = is_dir fs pr).
  { symmetry. apply is_dir_agree. symmetry. apply Ho, snoc_not_prefix. reflexivity. }
  assert (HB' : fs' !! (pr ++ [B]) = fs !! (pr ++ [B])).
  { apply Ho. apply (snoc_prefix_distinct pr _ B A); [congruence | reflexivity]. }
  assert (Hw : walk fs' (bucket_path s B) (inl []) = walk fs (bucket_path s B) (inl [])).
  { rewrite (bucket_path_plain _ _ HB), !walk_snoc, Hr, Hr', !(step_plain _ _ _ HB), Hd, HB'.
    reflexivity. }
  destruct (walk fs (bucket_path s B) (inl [])) as [pb|e] eqn:HwB.
  - apply (Get_agree s fs fs' B key pb HwB Hw).
    intros q Hq. apply Ho.
    rewrite (bucket_path_plain _ _ HB), walk_snoc, Hr, (step_plain _ _ _ HB) in HwB.
    destruct (is_dir fs pr); simpl in HwB; [| discriminate].
    destruct (fs !! (pr ++ [B])); [| discriminate]. injection HwB as <-.
    exact (snoc_prefix_distinct pr q B A ltac:(congruence) Hq).
  - unfold Get. rewrite (existPath_bucket s fs' B), (existPath_bucket s fs B), Hw, HwB.
    reflexivity.
Qed.

End Isolation.

(** ** The authenticator *)

Section AuthFacts.

Lemma parseAuthHeader_cases (a : Auth) (header : string) :
  parseAuthHeader a header
  = if negb (Strings.HasPrefix header (signAlgorithm +:+ " ")) then Err UnsupportedAlgorithm
    else if negb (Strings.HasPrefix (index (authFields header) "Credential")
                    (accessKey a +:+ "/")) then Err InvalidAccessKey
    else Ok (parsedHeader a header).
Proof. reflexivity. Qed.

Lemma length_lt_1 (s : string) : (String.length s <? 1)%nat = String.eqb s "".
Proof. destruct s; reflexivity. Qed.

(** [Validate] as a decision list. *)
Lemma Validate_cases (a : Auth) (method uri : string) (headers : gmap string string)
    (body : string) :
  let header := index headers "authorization" in
  Validate a method uri headers body
  = if String.eqb header "" then Some MissingAuthHeader
    else if negb (Strings.HasPrefix header (signAlgorithm +:+ " ")) then
      Some UnsupportedAlgorithm
    else if negb (Strings.HasPrefix (index (authFields header) "Credential")
                    (accessKey a +:+ "/")) then Some InvalidAccessKey
    else if negb (String.eqb
                    (computedSignature a method uri headers body (parsedHeader a header))
                    (index (authFields header) "Signature")) then Some InvalidSignature
    else None.
Proof.
  intros header. unfold Validate. fold header. rewrite length_lt_1, parseAuthHeader_cases.
  destruct (String.eqb header ""); [reflexivity |].
  destruct (negb (Strings.HasPrefix header _)); [reflexivity |].
  destruct (negb (Strings.HasPrefix (index _ _) _)); reflexivity.
Qed.


End AuthFacts.

Section UnsignedHeaders.

Lemma index_insert_ne (m : gmap string string) (name k v : string) :
  k <> name -> index (<[name := v]> m) k = index m k.
Proof. intros H. unfold index. rewrite lookup_insert_ne by congruence. reflexivity. Qed.

Lemma canonicalHeaders_from (headers : gmap string string) (signed : list string)
    (acc : string) :
  fold_left
    (fun result key =>
       result +:+ key +:+ ":" +:+ Strings.TrimSpace (index headers key) +:+ Strings.LF)
    signed acc
  = acc +:+ canonicalHeaders headers signed.
Proof.
  unfold canonicalHeaders. revert acc. induction signed as [|k signed IH]; intros acc.
  - simpl. symmetry. apply append_empty_r.
  - simpl. rewrite IH, (IH (_ +:+ _)). rewrite append_empty_l, !append_assoc. reflexivity.
Qed.

Lemma canonicalHeaders_cons (headers : gmap string string) (k : string) (signed : list string) :
  canonicalHeaders headers (k :: signed)
  = (k +:+ ":" +:+ Strings.TrimSpace (index headers k) +:+ Strings.LF)
    +:+ canonicalHeaders headers signed.
Proof.
  unfold canonicalHeaders at 1. simpl. rewrite canonicalHeaders_from, append_empty_l.
  reflexivity.
Qed.

(** The canonical header block reads the signed headers only. *)
Lemma canonicalHeaders_insert (headers : gmap string string) (signed : list string)
    (name v : string) :
  ~ In name signed ->
  canonicalHeaders (<[name := v]> headers) signed = canonicalHeaders headers signed.
Proof.
  induction signed as [|k signed IH]; intros Hn; [reflexivity |].
  rewrite !canonicalHeaders_cons, IH by (intros H; apply Hn; right; exact H).
  rewrite index_insert_ne by (intros ->; apply Hn; left; reflexivity). reflexivity.
Qed.

Lemma computedSignature_insert (a : Auth) (method uri : string)
    (headers : gmap string string) (body : string) (h : authHeader) (name v : string) :
  name <> "x-amz-date" ->
  ~ In name (Strings.Split (signedHeaders h) ";") ->
  canonicalRequest method uri (<[name := v]> headers) (signedHeaders h) body
  = canonicalRequest method uri headers (signedHeaders h) body
  /\ computedSignature a method uri (<[name := v]> headers) body h
     = computedSignature a method uri headers body h.
Proof.
  intros Hd Hs.
  assert (E : canonicalRequest method uri (<[name := v]> headers) (signedHeaders h) body
              = canonicalRequest method uri headers (signedHeaders h) body).
  { unfold canonicalRequest. rewrite (canonicalHeaders_insert _ _ _ _ Hs). reflexivity. }
  split; [exact E |].
  unfold computedSignature. rewrite E, index_insert_ne by congruence. reflexivity.
Qed.

End UnsignedHeaders.

(** ** sort.Strings returns the sorted arrangement *)

Module SortFacts.

Lemma insert_perm (x : string) (l : list string) : Permutation (Sort.insert x l) (x :: l).
Proof.
  induction l as [|y r IH]; simpl; [reflexivity |].
  destruct (String.leb x y); [reflexivity |].
  rewrite IH. apply perm_swap.
Qed.

Lemma Strings_perm (l : list string) : Permutation (Sort.Strings l) l.
Proof.
  induction l as [|x l IH]; simpl; [reflexivity |].
  rewrite insert_perm, IH. reflexivity.
Qed.

Lemma insert_HdRel (x y : string) (l : list string) :
  string_le y x -> HdRel string_le y l -> HdRel string_le y (Sort.insert x l).
Proof.
  intros Hyx H. destruct l as [|z r]; simpl; [constructor; exact Hyx |].
  destruct (String.leb x z); constructor; [exact Hyx |]. inversion H; assumption.
Qed.

Lemma insert_sorted (x : string) (l : list string) :
  Sorted string_le l -> Sorted string_le (Sort.insert x l).
Proof.
  induction l as [|y r IH]; intros Hs; simpl; [repeat constructor |].
  destruct (String.leb x y) eqn:E.
  - constructor; [exact Hs | constructor; exact E].
  - inversion Hs as [|? ? Hr Hh]; subst. constructor; [apply IH, Hr |].
    apply insert_HdRel; [| exact Hh].
    destruct (String.leb_total x y) as [H|H]; [congruence | exact H].
Qed.

Lemma Strings_sorted (l : list string) : Sorted string_le (Sort.Strings l).
Proof. induction l as [|x l IH]; simpl; [constructor | apply insert_sorted, IH]. Qed.

End SortFacts.

(** ** Canonical URI and query string *)

Section Canonical.

Lemma hd_Split (s : string) (c : ascii) : hd "" (Strings.Split s c) = before_first c s.
Proof.
  induction s as [|a r IH]; [reflexivity |]. simpl.
  destruct (Ascii.eqb a c); [reflexivity |].
  pose proof (Split_not_nil r c). destruct (Strings.Split r c); [congruence |].
  simpl in *. rewrite IH. reflexivity.
Qed.

Lemma nth1_Split (s : string) (c : ascii) :
  nth 1 (Strings.Split s c) "" = before_first c (after_first c s).
Proof.
  induction s as [|a r IH]; [reflexivity |]. simpl.
  destruct (Ascii.eqb a c).
  { rewrite <- hd_Split. destruct (Strings.Split r c); reflexivity. }
  pose proof (Split_not_nil r c). destruct (Strings.Split r c); [congruence |].
  exact IH.
Qed.

Lemma length_Split_gt1 (s : string) (c : ascii) :
  (1 <? length (Strings.Split s c))%nat = false -> nth 1 (Strings.Split s c) "" = "".
Proof.
  intros H. apply Nat.ltb_ge in H.
  destruct (Strings.Split s c) as [|x [|y l]]; try reflexivity. simpl in H. lia.
Qed.

(** What [canonicalUri] computes. *)
Lemma canonicalUri_eq (uri : string) :
  canonicalUri uri = if String.eqb uri "" then "/" else before_first "?" uri.
Proof.
  unfold canonicalUri. rewrite hd_Split. destruct uri; reflexivity.
Qed.

(** The code and the spec agree on every URI that does not begin with
    [?]. *)
Lemma canonicalUri_agrees (uri : string) :
  String.prefix "?" uri = false -> canonicalUri uri = canonicalUri_spec uri.
Proof.
  rewrite canonicalUri_eq. unfold canonicalUri_spec.
  destruct uri as [|a r]; [reflexivity |]. simpl.
  destruct (Ascii.eqb_spec a "?") as [-> | Hne].
  - simpl. destruct r; discriminate.
  - intros _. reflexivity.
Qed.

Lemma loop_trailing (parts : list string) (acc : string) :
  fold_left (fun str v => str +:+ v +:+ "&") parts acc = acc +:+ trailing parts.
Proof.
  revert acc. induction parts as [|v r IH]; intros acc; simpl.
  - symmetry. apply append_empty_r.
  - rewrite IH, !append_assoc. reflexivity.
Qed.

Lemma drop_last_append (a b : string) : b <> "" -> drop_last (a +:+ b) = a +:+ drop_last b.
Proof.
  intros Hb. induction a as [|x a IH]; [reflexivity |].
  rewrite !append_cons. simpl. rewrite IH.
  destruct (a +:+ b) eqn:E; [| reflexivity].
  exfalso. exact (append_not_empty a b Hb E).
Qed.

Lemma trailing_not_empty (parts : list string) : parts <> [] -> trailing parts <> "".
Proof.
  destruct parts as [|v r]; [congruence |]. intros _. simpl.
  apply append_not_empty. discriminate.
Qed.

Lemma drop_last_trailing (parts : list string) :
  parts <> [] -> drop_last (trailing parts) = String.concat "&" parts.
Proof.
  induction parts as [|v r IH]; [congruence |]. intros _.
  destruct r as [|w r].
  - simpl. rewrite drop_last_append by discriminate. simpl. apply append_empty_r.
  - change (trailing (v :: w :: r)) with (v +:+ "&" +:+ trailing (w :: r)).
    rewrite <- append_assoc, drop_last_append by (apply trailing_not_empty; discriminate).
    rewrite IH by discriminate. rewrite append_assoc. reflexivity.
Qed.

Lemma insert_not_nil (x : string) (l : list string) : Sort.insert x l <> [].
Proof. destruct l as [|y r]; simpl; [discriminate |]. destruct (String.leb x y); discriminate. Qed.

Lemma Strings_not_nil (l : list string) : l <> [] -> Sort.Strings l <> [].
Proof. destruct l; [congruence |]. intros _. apply insert_not_nil. Qed.

Lemma length_pos_not_empty (s : string) : s <> "" -> (0 <? String.length s)%nat = true.
Proof. destruct s; [congruence | reflexivity]. Qed.

(** What [canonicalQuery] computes: the [&]-fields between the first and
    the second [?], sorted and joined. *)
Lemma canonicalQuery_eq (uri : string) :
  canonicalQuery uri
  = Strings.Join
      (Sort.Strings (Strings.Split (before_first "?" (after_first "?" uri)) "&")) "&".
Proof.
  unfold canonicalQuery, Strings.Join.
  assert (E : (if (1 <? length (Strings.Split uri "?"))%nat
               then nth 1 (Strings.Split uri "?") "" else "")
              = before_first "?" (after_first "?" uri)).
  { destruct (1 <? length (Strings.Split uri "?"))%nat eqn:H.
    - apply nth1_Split.
    - rewrite <- nth1_Split. symmetry. apply length_Split_gt1, H. }
  rewrite E, loop_trailing, append_empty_l.
  pose proof (Strings_not_nil _ (Split_not_nil (before_first "?" (after_first "?" uri)) "&"))
    as Hne.
  rewrite (length_pos_not_empty _ (trailing_not_empty _ Hne)).
  apply drop_last_trailing, Hne.
Qed.

Lemma before_first_free (c : ascii) (s : string) : free_of c s = true -> before_first c s = s.
Proof.
  induction s as [|a r IH]; [reflexivity |]. simpl.
  intros [Ha Hr]%andb_prop. apply negb_true_iff in Ha. rewrite Ha, (IH Hr). reflexivity.
Qed.

(** The code and the spec agree on every URI with at most one [?]. *)
Lemma canonicalQuery_agrees (uri : string) :
  free_of "?" (after_first "?" uri) = true -> canonicalQuery uri = canonicalQuery_spec uri.
Proof.
  intros H. rewrite canonicalQuery_eq, (before_first_free _ _ H). reflexivity.
Qed.

End Canonical.

(** ** What [validName] asks of the runtime *)

Section RuntimeFacts.
Import UTF8Facts.

Lemma dispatch_no_colon (rt1 rt2 : GoRuntime) (whole : string) (s : list Z) :
  ~ In 0x3A s -> @Net.dispatch rt1 whole s = @Net.dispatch rt2 whole s.
Proof.
  induction s as [|c r IH]; intros Hn; [reflexivity |]. simpl.
  destruct (c =? 0x2E); [reflexivity |].
  destruct (Z.eqb_spec c 0x3A) as [-> | _]; [exfalso; apply Hn; left; reflexivity |].
  destruct (c =? 0x25); [reflexivity |]. apply IH. intros H. apply Hn. right. exact H.
Qed.

(** [validName] consults the runtime for its two tables only: the IPv6
    parser is never reached, since a name with a colon fails the
    character rule first. *)
Lemma validName_tables_only (rt1 rt2 : GoRuntime) (name : string) :
  (forall r, @unicode_Lower rt1 r = @unicode_Lower rt2 r) ->
  (forall r, @unicode_Digit rt1 r = @unicode_Digit rt2 r) ->
  @validName rt1 name = @validName rt2 name.
Proof.
  intros HL HD.
  assert (EL : forall r, @Unicode.IsLower rt1 r = @Unicode.IsLower rt2 r).
  { intros r. unfold Unicode.IsLower. rewrite HL. reflexivity. }
  assert (ED : forall r, @Unicode.IsDigit rt1 r = @Unicode.IsDigit rt2 r).
  { intros r. unfold Unicode.IsDigit. rewrite HD. reflexivity. }
  assert (EA : forall r, @allowed_rune rt1 r = @allowed_rune rt2 r).
  { intros r. unfold allowed_rune. rewrite EL, ED. reflexivity. }
  assert (EF : forall l, forallb (@allowed_rune rt1) l = forallb (@allowed_rune rt2) l).
  { induction l as [|x l IH]; simpl; [reflexivity | rewrite EA, IH; reflexivity]. }
  unfold validName. rewrite !EL, !ED, EF.
  destruct (String.length name <? 3)%nat; [reflexivity |].
  destruct (63 <? String.length name)%nat; [reflexivity |].
  destruct (forallb (@allowed_rune rt2) (UTF8.runes name)) eqn:Hall; [| reflexivity].
  cbn [negb]. destruct (_ && _); [reflexivity |]. destruct (_ && _); [reflexivity |].
  destruct (Strings.Contains name ".."); [reflexivity |].
  assert (EP : @Net.ParseIP rt1 name = @Net.ParseIP rt2 name).
  { apply dispatch_no_colon. intros Hin. rewrite forallb_forall in Hall.
    specialize (Hall 0x3A (runes_ascii name 0x3A eq_refl Hin)).
    rewrite allowed_rune_ascii in Hall by lia. discriminate Hall. }
  rewrite EP. reflexivity.
Qed.

End RuntimeFacts.

(** ** Corruption after a write, and writing into a new bucket *)

Section MoreStoreFacts.
Context {rt : GoRuntime} {codec : JSONCodec}.
Import OS OSFacts StoreFacts DeleteFacts AliasFacts.

(** Out-of-band corruption after a [Put]: when the body file is
    overwritten with bytes of another hash and the metadata is left
    alone, [Get] reports the checksum error. *)
Lemma tampering_detected (s : Storage) (fs fs' : FS) (bucket key : string)
    (body : list Z) (now : Z) :
  reads_back codec ->
  Put s fs bucket key body now = (fs', None) ->
  exists pb,
    walk fs' (bucket_path s bucket) (inl []) = inl pb
    /\ forall body',
         Sha256Hash body' <> Sha256Hash body ->
         Get s (<[(pb ++ [Sha256Hash (Bytes.of_string key)]) ++ ["body"] := File body']> fs')
           bucket key
         = Err IntegrityError.
Proof.
  intros Hc HP. destruct (Put_success _ _ _ _ _ _ _ HP) as (pb & (mb & [Hw Hd Hph Hb Hm Hj]) & _).
  exists pb. split; [exact Hw |]. intros body' Hne.
  set (ph := pb ++ [Sha256Hash (Bytes.of_string key)]) in *.
  assert (He : extends fs' (<[ph ++ ["body"] := File body']> fs'))
    by (apply extends_insert; congruence).
  apply Hc in Hj as (m' & Hu & Hh); [| apply Sha256Hash_is_hex]. cbn [ContentHash] in Hh.
  rewrite (Get_stored s _ bucket key pb body' mb m'
             (extends_walk _ _ _ _ _ He Hw) (extends_is_dir _ _ _ He Hd)).
  - rewrite Hh. destruct (String.eqb_spec (Sha256Hash body') (Sha256Hash body));
      [contradiction | reflexivity].
  - fold ph. rewrite lookup_insert_ne by apply snoc_neq_self. exact Hph.
  - fold ph. apply lookup_insert_eq.
  - fold ph. rewrite lookup_insert_ne by (intros H; apply snoc_inj in H; discriminate).
    exact Hm.
  - exact Hu.
Qed.

Lemma well_formed_below (fs : FS) (p q : list string) :
  well_formed fs -> fs !! p = None -> p <> [] -> fs !! (p ++ q) = None.
Proof.
  intros Hwf Hp Hne. induction q as [|c q IH] using rev_ind; [rewrite app_nil_r; exact Hp |].
  destruct (fs !! (p ++ q ++ [c])) as [n|] eqn:E; [| reflexivity].
  rewrite app_assoc in E. apply Hwf in E. unfold is_dir, node_at in E.
  destruct (p ++ q) eqn:Epq; [destruct p; [congruence | discriminate] |].
  rewrite IH in E. discriminate.
Qed.

(** After [NewBucket] has succeeded in a well-formed state whose root is
    a directory, every [Put] into the new bucket succeeds. *)
Lemma Put_after_NewBucket (s : Storage) (fs fs1 : FS) (name key : string) (body : list Z)
    (now : Z) (pr : list string) :
  marshals codec ->
  well_formed fs ->
  walk fs (Strings.Split (path s) "/") (inl []) = inl pr ->
  NewBucket s fs name = (fs1, None) ->
  exists fs2, Put s fs1 name key body now = (fs2, None).
Proof.
  intros Hm Hwf Hr HN. unfold NewBucket in HN.
  destruct (validName name) eqn:Hv; [discriminate |]. apply validName_plain in Hv.
  destruct (existPath s fs name) eqn:He; [discriminate |].
  pose proof (bucket_path_plain s name Hv) as Hbp.
  rewrite existPath_bucket, Hbp, walk_snoc, Hr, (step_plain _ _ _ Hv) in He.
  unfold MkdirAll in HN. fold (bucket_path s name) in HN.
  rewrite eqb_append_slash, Hbp, mkdir_fold_snoc, (mkdir_walk _ _ _ _ Hr) in HN.
  destruct (plain_special _ Hv) as (E1 & E2 & E3). unfold mkdir_step in HN.
  destruct (is_dir fs pr) eqn:Hd; simpl in He, HN; [| discriminate].
  rewrite E1, E2, E3 in HN. simpl in HN.
  destruct (fs !! (pr ++ [name])) as [n|] eqn:En.
  { rewrite node_at_snoc, En in He. discriminate. }
  assert (Hd1 : is_dir (<[pr ++ [name] := Dir]> fs) (pr ++ [name]) = true).
  { unfold is_dir. rewrite node_at_snoc, lookup_insert_eq. reflexivity. }
  rewrite Hd1 in HN. injection HN as <-.
  set (fs1 := <[pr ++ [name] := Dir]> fs) in *.
  assert (Hx : extends fs fs1) by (apply extends_insert; congruence).
  assert (Hw1 : walk fs1 (bucket_path s name) (inl []) = inl (pr ++ [name])).
  { rewrite Hbp, walk_snoc, (extends_walk _ _ _ _ _ Hx Hr), (step_plain _ _ _ Hv),
      (extends_is_dir _ _ _ Hx Hd). simpl. unfold fs1. rewrite lookup_insert_eq. reflexivity. }
  assert (Hnone : forall q, q <> [] -> fs1 !! ((pr ++ [name]) ++ q) = None).
  { intros q Hq. unfold fs1. rewrite lookup_insert_ne.
    - apply well_formed_below; [exact Hwf | exact En | apply snoc_not_nil].
    - intros H. apply (f_equal (@length string)) in H. rewrite !length_app in H.
      destruct q; [congruence | simpl in H; lia]. }
  pose proof (Sha256Hash_plain (Bytes.of_string key)) as Hh.
  set (hash := Sha256Hash (Bytes.of_string key)) in *.
  assert (Hn1 : node_at fs1 (pr ++ [name]) = Some Dir)
    by (rewrite node_at_snoc; apply lookup_insert_eq).
  rewrite Put_unfold, existPath_bucket, Hw1, Hn1. cbn [negb]. cbv zeta. fold hash.
  rewrite (MkdirAll_object _ _ _ _ _ Hh Hw1), Hd1. cbn [negb].
  rewrite (Hnone [hash]) by discriminate.
  set (fs2 := <[(pr ++ [name]) ++ [hash] := Dir]> fs1).
  assert (Hx2 : extends fs1 fs2) by (apply extends_insert; rewrite Hnone; discriminate).
  assert (Hph : fs2 !! ((pr ++ [name]) ++ [hash]) = Some Dir) by apply lookup_insert_eq.
  pose proof (walk_object s fs2 name hash _ Dir Hh (extends_walk _ _ _ _ _ Hx2 Hw1)
                (extends_is_dir _ _ _ Hx2 Hd1) Hph) as Hwo.
  assert (Hdh : is_dir fs2 ((pr ++ [name]) ++ [hash]) = true).
  { unfold is_dir. rewrite node_at_snoc, Hph. reflexivity. }
  unfold put_files. destruct (Hm {| ContentHash := Sha256Hash body;
                                     ContentSize := Z.of_nat (length body);
                                     OriginalKey := key; LastModified := now |}) as (mb & ->).
  change "/metadata.json" with (String "/" "metadata.json").
  change "/body" with (String "/" "body").
  rewrite (WriteFile_child _ _ _ _ _ plain_metadata Hwo), Hdh. cbn [negb].
  assert (Hmeta : fs2 !! (((pr ++ [name]) ++ [hash]) ++ ["metadata.json"]) = None).
  { unfold fs2. rewrite lookup_insert_ne by (symmetry; apply snoc_neq_self).
    rewrite <- app_assoc. apply Hnone. discriminate. }
  rewrite Hmeta.
  set (fs3 := <[((pr ++ [name]) ++ [hash]) ++ ["metadata.json"] := File mb]> fs2).
  assert (Hx3 : extends fs2 fs3) by (apply extends_insert; congruence).
  rewrite (WriteFile_child _ _ _ _ _ plain_body (extends_walk _ _ _ _ _ Hx3 Hwo)),
    (extends_is_dir _ _ _ Hx3 Hdh). cbn [negb].
  assert (Hbody : fs3 !! (((pr ++ [name]) ++ [hash]) ++ ["body"]) = None).
  { unfold fs3. rewrite lookup_insert_ne by (intros H; apply snoc_inj in H; discriminate).
    unfold fs2. rewrite lookup_insert_ne by (symmetry; apply snoc_neq_self).
    rewrite <- app_assoc. apply Hnone. discriminate. }
  rewrite Hbody. eauto.
Qed.

End MoreStoreFacts.

Lemma metadata_codec_marshals : marshals metadata_codec.
Proof. intros m. exists (JSON.document m). reflexivity. Qed.

(* ===================================================================== *)
(** * The claims *)
(* ===================================================================== *)

Section StoreClaims.
Context {rt : GoRuntime} {codec : JSONCodec}.
Hypothesis codec_reads_back : reads_back codec.
Import OS OSFacts StoreFacts DeleteFacts.

Lemma Get_after_stored (s : Storage) (fs : FS) (bucket key : string) (body : list Z)
    (now : Z) (pb : list string) (mb : list Z) :
  stored s fs bucket key body now pb mb -> Get s fs bucket key = Ok body.
Proof.
  intros [Hw Hd Hph Hb Hm Hj].
  apply codec_reads_back in Hj as (m' & Hu & Hc); [| apply Sha256Hash_is_hex].
  rewrite (Get_stored s fs bucket key pb body mb m' Hw Hd Hph Hb Hm Hu).
  rewrite Hc. cbn [ContentHash]. rewrite String.eqb_refl. reflexivity.
Qed.

(** C1.  Round trip and overwrite.  In every state of the file system,
    for every bucket string (so in particular for a name accepted by
    [validName] on which [NewBucket] has succeeded), every key and every
    body, the empty one included: when [Put(bucket, key, body)] reports
    no error, [Get(bucket, key)] in the resulting state returns exactly
    [body].  The state before the [Put] is arbitrary, so earlier [Put]s
    to the same key do not matter; and when a further
    [Put(bucket, key, body2)] reports no error, [Get] returns [body2]. *)
Theorem put_get_roundtrip (s : Storage) (fs fs' : FS) (bucket key : string)
    (body : list Z) (now : Z) :
  Put s fs bucket key body now = (fs', None) ->
  Get s fs' bucket key = Ok body
  /\ forall (body2 : list Z) (now2 : Z) (fs'' : FS),
       Put s fs' bucket key body2 now2 = (fs'', None) ->
       Get s fs'' bucket key = Ok body2.
Proof.
  intros H. split.
  - destruct (Put_success _ _ _ _ _ _ _ H) as (pb & (mb & Hs) & _).
    exact (Get_after_stored _ _ _ _ _ _ _ _ Hs).
  - intros body2 now2 fs'' H2.
    destruct (Put_success _ _ _ _ _ _ _ H2) as (pb & (mb & Hs) & _).
    exact (Get_after_stored _ _ _ _ _ _ _ _ Hs).
Qed.

(** C5.  Integrity detection.  In every state in which the bucket and the
    object directory of [(bucket, key)] exist, the body file holds
    [body], and the metadata file decodes to a struct whose
    [content_sha256] is not the SHA-256 of [body]: [Get(bucket, key)]
    fails with the checksum error.  It returns no body at all, and the
    error is not the one reported for a missing object. *)
Theorem get_detects_corruption (s : Storage) (fs : FS) (bucket key : string)
    (body mb : list Z) (meta : metadata) :
  let hash := Sha256Hash (Bytes.of_string key) in
  let dir := path s +:+ "/" +:+ bucket +:+ "/" +:+ hash in
  existPath s fs bucket = true ->
  existPath s fs (bucket +:+ "/" +:+ hash) = true ->
  ReadFile fs (dir +:+ "/body") = Ok body ->
  ReadFile fs (dir +:+ "/metadata.json") = Ok mb ->
  json_Unmarshal mb = Ok meta ->
  ContentHash meta <> Sha256Hash body ->
  Get s fs bucket key = Err IntegrityError
  /\ (forall data, Get s fs bucket key <> Ok data)
  /\ IntegrityError <> ObjectNotFound.
Proof.
  intros hash dir Hb Ho Hbody Hmeta Hjson Hne.
  assert (HG : Get s fs bucket key = Err IntegrityError).
  { unfold Get. fold hash. rewrite Hb, Ho. simpl. fold dir.
    rewrite Hbody, Hmeta, Hjson.
    destruct (String.eqb_spec (Sha256Hash body) (ContentHash meta)) as [E|_];
      [congruence | reflexivity]. }
  split; [exact HG |]. split; [| discriminate].
  intros data. rewrite HG. discriminate.
Qed.

(** C6, as amended.  Deletion is final for names the naming rules
    accept.  For every bucket string, [Delete] on a bucket that does not
    exist fails with the bucket-not-found error, and when the bucket and
    the object directory exist, [Delete] succeeds.  For a bucket whose
    name the naming rules accept, in a store whose root is written
    without [".."]: after [Delete(bucket, key)] has succeeded,
    [Get(bucket, key)] fails with the object-not-found error, and so
    does a second [Delete(bucket, key)], which leaves the state as it
    is. *)
Theorem delete_is_final (s : Storage) (fs : FS) (bucket key : string) :
  (existPath s fs bucket = false ->
   Delete s fs bucket key = (fs, Some BucketNotFound))
  /\ (existPath s fs bucket = true ->
      existPath s fs (bucket +:+ "/" +:+ Sha256Hash (Bytes.of_string key)) = true ->
      exists fs', Delete s fs bucket key = (fs', None))
  /\ (no_dotdot (path s) = true ->
      validName bucket = None ->
      forall fs', Delete s fs bucket key = (fs', None) ->
        Get s fs' bucket key = Err ObjectNotFound
        /\ Delete s fs' bucket key = (fs', Some ObjectNotFound)).
Proof.
  split; [| split].
  - intros H. unfold Delete. rewrite H. reflexivity.
  - intros Hb Ho. destruct (Delete_existing s fs bucket key Hb Ho) as (p & _ & ->). eauto.
  - intros Hs Hv fs' HD. apply validName_plain in Hv.
    destruct (existPath s fs bucket) eqn:Hb;
      [| unfold Delete in HD; rewrite Hb in HD; discriminate HD].
    destruct (existPath s fs (bucket +:+ "/" +:+ Sha256Hash (Bytes.of_string key))) eqn:Ho;
      [| unfold Delete in HD; rewrite Hb, Ho in HD; discriminate HD].
    destruct (Delete_existing s fs bucket key Hb Ho) as (p & Hr & HD').
    rewrite HD' in HD. injection HD as <-.
    rewrite existPath_bucket in Hb.
    destruct (walk fs (bucket_path s bucket) (inl [])) as [pb|e] eqn:Hw; [| discriminate].
    destruct (node_at fs pb) as [n|] eqn:Hn; [| discriminate].
    rewrite (resolve_object _ _ _ _ (Sha256Hash_plain _)), Hw,
      (step_plain _ _ _ (Sha256Hash_plain _)) in Hr.
    destruct (is_dir fs pb); simpl in Hr; [| discriminate].
    destruct (fs !! (pb ++ [Sha256Hash (Bytes.of_string key)])); [| discriminate].
    injection Hr as <-.
    destruct (after_remove s fs bucket key pb n Hs Hv Hw Hn) as [Hb' Ho'].
    split.
    + unfold Get. rewrite Hb', Ho'. reflexivity.
    + unfold Delete. rewrite Hb', Ho'. reflexivity.
Qed.

End StoreClaims.

Section NoPolicy.
Context {rt : GoRuntime} {codec : JSONCodec}.
Import OS OSFacts StoreFacts KindFacts AliasFacts.

Lemma missing_bucket (s : Storage) (fs : FS) (bucket key : string) (body : list Z) (now : Z) :
  existPath s fs bucket = false ->
  Get s fs bucket key = Err BucketNotFound
  /\ Put s fs bucket key body now = (fs, Some BucketNotFound)
  /\ Delete s fs bucket key = (fs, Some BucketNotFound).
Proof.
  intros H. unfold Get, Put, Delete. rewrite H. repeat split.
Qed.

Lemma same_directory (s : Storage) (fs : FS) (b1 b2 key : string) (body : list Z) (now : Z) :
  walk fs (bucket_path s b1) (inl []) = walk fs (bucket_path s b2) (inl []) ->
  same_result (Get s fs b1 key) (Get s fs b2 key)
  /\ same_outcome (Put s fs b1 key body now) (Put s fs b2 key body now)
  /\ same_outcome (Delete s fs b1 key) (Delete s fs b2 key).
Proof.
  intros H. destruct (walk fs (bucket_path s b2) (inl [])) as [p|e] eqn:H2.
  - split; [exact (Get_alias s fs b1 b2 key p H H2) |].
    split; [exact (Put_alias s fs b1 b2 key body now p H H2) |].
    exact (Delete_alias s fs b1 b2 key p H H2).
  - assert (E1 : existPath s fs b1 = false) by (rewrite existPath_bucket, H; reflexivity).
    assert (E2 : existPath s fs b2 = false) by (rewrite existPath_bucket, H2; reflexivity).
    destruct (missing_bucket s fs b1 key body now E1) as (-> & -> & ->).
    destruct (missing_bucket s fs b2 key body now E2) as (-> & -> & ->).
    repeat split.
Qed.

(** C10.  [Put], [Get] and [Delete] never look at the naming rules.  For
    every bucket string: when [s.path + "/" + bucket] does not exist the
    three fail with the bucket-not-found error; no error any of them
    reports is a naming error (an [Error] with the bad-request status);
    and what they do depends on the directory the string denotes, not on
    the string: two strings that resolve alike give the same bytes, the
    same resulting state and the same errors up to the path a
    file-system error names.  ["./" + bucket] always resolves as
    [bucket] does. *)
Theorem object_operations_skip_naming_policy (s : Storage) (fs : FS)
    (bucket key : string) (body : list Z) (now : Z) :
  (existPath s fs bucket = false ->
     Get s fs bucket key = Err BucketNotFound
     /\ Put s fs bucket key body now = (fs, Some BucketNotFound)
     /\ Delete s fs bucket key = (fs, Some BucketNotFound))
  /\ (forall e, Get s fs bucket key = Err e -> ~ BucketNameInvalid e)
  /\ (forall fs' e, Put s fs bucket key body now = (fs', Some e) -> ~ BucketNameInvalid e)
  /\ (forall fs' e, Delete s fs bucket key = (fs', Some e) -> ~ BucketNameInvalid e)
  /\ (forall bucket2,
        walk fs (bucket_path s bucket) (inl []) = walk fs (bucket_path s bucket2) (inl []) ->
        same_result (Get s fs bucket key) (Get s fs bucket2 key)
        /\ same_outcome (Put s fs bucket key body now) (Put s fs bucket2 key body now)
        /\ same_outcome (Delete s fs bucket key) (Delete s fs bucket2 key))
  /\ (same_result (Get s fs ("./" +:+ bucket) key) (Get s fs bucket key)
      /\ same_outcome (Put s fs ("./" +:+ bucket) key body now) (Put s fs bucket key body now)
      /\ same_outcome (Delete s fs ("./" +:+ bucket) key) (Delete s fs bucket key)).
Proof.
  split; [apply missing_bucket |].
  split; [intros e; apply Get_not_naming |].
  split; [intros fs' e; apply Put_not_naming |].
  split; [intros fs' e; apply Delete_not_naming |].
  split; [intros bucket2; apply same_directory |].
  apply same_directory, walk_dot_slash.
Qed.

End NoPolicy.

Section IsolationClaim.
Context {rt : GoRuntime} {codec : JSONCodec}.
Import OS OSFacts StoreFacts DeleteFacts AliasFacts FrameFacts.

(** C4, as amended.  Bucket isolation for names the naming rules accept:
    for distinct accepted names [A] and [B], a [Put] into [A] changes the
    result of no [Get] on [B], whatever the keys, and neither does a
    [Delete] in [A] when the store root is written without [".."].  So
    what [Get(B, key)] returns is never a body that a [Put] to [A] stored:
    it is what [Get(B, key)] returned before. *)
Theorem bucket_isolation (s : Storage) (fs : FS) (A B keyA keyB : string)
    (body : list Z) (now : Z) :
  validName A = None -> validName B = None -> A <> B ->
  Get s (Put s fs A keyA body now).1 B keyB = Get s fs B keyB
  /\ (no_dotdot (path s) = true ->
      Get s (Delete s fs A keyA).1 B keyB = Get s fs B keyB).
Proof.
  intros HA HB Hne. apply validName_plain in HA, HB.
  destruct (walk fs (bucket_path s A) (inl [])) as [pA|e] eqn:HwA.
  - pose proof HwA as HwA'.
    rewrite (bucket_path_plain _ _ HA), walk_snoc in HwA'.
    destruct (walk fs (Strings.Split (path s) "/") (inl [])) as [pr|e] eqn:Hr;
      [| discriminate].
    rewrite (step_plain _ _ _ HA) in HwA'.
    destruct (is_dir fs pr) eqn:Hd; simpl in HwA'; [| discriminate].
    destruct (fs !! (pr ++ [A])); [| discriminate]. injection HwA' as <-.
    split.
    + destruct (Put_outside s fs A keyA body now _ HwA) as [Ho He].
      exact (Get_other_bucket s fs _ A B keyB pr HA HB Hne Hr
               (extends_walk _ _ _ _ _ He Hr) Ho).
    + intros Hs. pose proof (Delete_outside s fs A keyA _ HwA) as Ho.
      apply (Get_other_bucket s fs _ A B keyB pr HA HB Hne Hr); [| exact Ho].
      apply (walk_agree fs); [exact Hs | | exact Hr].
      intros p Hp. symmetry. apply Ho, snoc_not_prefix, Hp.
  - assert (E : existPath s fs A = false) by (rewrite existPath_bucket, HwA; reflexivity).
    split.
    + unfold Put at 1. rewrite E. reflexivity.
    + intros _. unfold Delete at 1. rewrite E. reflexivity.
Qed.

End IsolationClaim.

Section AuthClaims.



(** C3, as amended.  [Validate], the canonical request and the signature
    are functions of their arguments, so two runs on identical inputs
    agree.  For every header name that is not listed in the
    [SignedHeaders] field and is neither ["authorization"] nor
    ["x-amz-date"], setting that header to any value changes neither the
    canonical request, nor the computed signature, nor the outcome of
    [Validate]. *)
Theorem unsigned_header_irrelevant (a : Auth) (method uri : string)
    (headers : gmap string string) (body name v : string) :
  let header := index headers "authorization" in
  let signed := index (authFields header) "SignedHeaders" in
  name <> "authorization" ->
  name <> "x-amz-date" ->
  ~ In name (Strings.Split signed ";") ->
  canonicalRequest method uri (<[name := v]> headers) signed body
  = canonicalRequest method uri headers signed body
  /\ computedSignature a method uri (<[name := v]> headers) body (parsedHeader a header)
     = computedSignature a method uri headers body (parsedHeader a header)
  /\ Validate a method uri (<[name := v]> headers) body
     = Validate a method uri headers body.
Proof.
  intros header signed Ha Hd Hs.
  destruct (computedSignature_insert a method uri headers body (parsedHeader a header)
              name v Hd Hs) as [E1 E2].
  split; [exact E1 |]. split; [exact E2 |].
  pose proof (Validate_cases a method uri (<[name := v]> headers) body) as H1.
  pose proof (Validate_cases a method uri headers body) as H2.
  cbv zeta in H1, H2. rewrite (index_insert_ne headers name "authorization" v) in H1
    by congruence.
  fold header in H1, H2. rewrite E2 in H1. rewrite H1, H2. reflexivity.
Qed.

End AuthClaims.

Section AuthExamples.
Import Example_request.

Example Validate_examples :
  Validate auth "GET" "/test-bucket/test.txt?b=2&a=1" headers body_hash = None
  /\ Validate auth "GET" "/test-bucket/test.txt?b=2&a=1" unsigned_headers body_hash
     = Some MissingAuthHeader
  /\ Validate auth "GET" "/test-bucket/test.txt?b=2&a=1"
       (<["authorization" := "aws4-hmac-sha256 Credential=test-access-key/x"]> headers)
       body_hash = Some UnsupportedAlgorithm
  /\ Validate (NewAuth "other-key" "test-secret-key") "GET" "/test-bucket/test.txt?b=2&a=1"
       headers body_hash = Some InvalidAccessKey
  /\ Validate auth "PUT" "/test-bucket/test.txt?b=2&a=1" headers body_hash
     = Some InvalidSignature.
Proof. vm_compute. repeat split. Qed.

(** C3 as stated fails.  ["authorization"] is never a signed header, and
    replacing its value turns an accepted request into a rejected one;
    and when ["x-amz-date"] is left out of [SignedHeaders], changing it
    still changes the computed signature, because the string to sign
    carries the date. *)
Lemma unsigned_headers_that_matter :
  (~ In "authorization" (Strings.Split signed_names ";")
   /\ Validate auth "GET" "/test-bucket/test.txt?b=2&a=1" headers body_hash = None
   /\ Validate auth "GET" "/test-bucket/test.txt?b=2&a=1"
        (<["authorization" := authorization +:+ "0"]> headers) body_hash
      = Some InvalidSignature)
  /\ (~ In "x-amz-date" (Strings.Split "host" ";")
      /\ Validate auth "GET" "/test-bucket/test.txt?b=2&a=1" headers_host_only body_hash = None
      /\ Validate auth "GET" "/test-bucket/test.txt?b=2&a=1"
           (<["x-amz-date" := "20250601T120001Z"]> headers_host_only) body_hash
         = Some InvalidSignature).
Proof.
  split; (split; [vm_compute; intuition discriminate |]); vm_compute; split; reflexivity.
Defined.

Lemma unsigned_header_irrelevant_witness :
  Validate auth "GET" "/test-bucket/test.txt?b=2&a=1"
    (<["user-agent" := "curl/8.0"]> headers) body_hash
  = Validate auth "GET" "/test-bucket/test.txt?b=2&a=1" headers body_hash.
Proof.
  apply (unsigned_header_irrelevant auth "GET" "/test-bucket/test.txt?b=2&a=1" headers
           body_hash "user-agent" "curl/8.0").
  - discriminate.
  - discriminate.
  - vm_compute. intuition discriminate.
Defined.

End AuthExamples.

Section CanonicalClaims.

(** C8 fails on the code: for the URI [?a=1] the path portion is empty,
    the spec's canonical URI is [/], and [canonicalUri] returns the empty
    string. *)
Theorem canonicalUri_of_bare_query :
  before_first "?" "?a=1" = ""
  /\ canonicalUri_spec "?a=1" = "/"
  /\ canonicalUri "?a=1" = "".
Proof. repeat split. Qed.

(** C9 fails on the code: in [/b/k?b=2?a=1] what follows the first [?]
    is [b=2?a=1], one [&]-field, which the spec leaves as it is;
    [canonicalQuery] keeps only [b=2]. *)
Theorem canonicalQuery_of_second_question_mark :
  after_first "?" "/b/k?b=2?a=1" = "b=2?a=1"
  /\ canonicalQuery_spec "/b/k?b=2?a=1" = "b=2?a=1"
  /\ canonicalQuery "/b/k?b=2?a=1" = "b=2".
Proof. repeat split. Qed.

End CanonicalClaims.

Section NamingClaim.
Context {rt : GoRuntime}.

(** C7 fails on the code: the name spelled c, a, f, U+00E9, x has a
    character outside [a-z0-9.-], and [validName] accepts it, because
    [unicode.IsLower] holds of U+00E9. *)
Theorem validName_accepts_latin1_letter :
  UTF8.runes cafe = [0x63; 0x61; 0x66; 0xE9; 0x78]
  /\ in_class 0xE9 = false
  /\ validName cafe = None.
Proof. repeat split. Qed.

End NamingClaim.

Section StoreWitnesses.
Import Example_store.
#[local] Existing Instance latin1_runtime.
#[local] Existing Instance metadata_codec.

Lemma no_error_eta (r : OS.FS * option error) : r.2 = None -> r = (r.1, None).
Proof. destruct r as [fs e]. simpl. intros ->. reflexivity. Qed.

Lemma put_get_roundtrip_witness :
  NewBucket s fs0 "test-bucket" = (fs1, None)
  /\ Put s fs1 "test-bucket" "test.txt" hello 1748779200 = (fs2, None)
  /\ Get s fs2 "test-bucket" "test.txt" = Ok hello
  /\ Put s fs2 "test-bucket" "test.txt" bye 1748779260 = (fs3, None)
  /\ Get s fs3 "test-bucket" "test.txt" = Ok bye.
Proof.
  assert (H1 : Put s fs1 "test-bucket" "test.txt" hello 1748779200 = (fs2, None))
    by (apply no_error_eta; vm_compute; reflexivity).
  assert (H2 : Put s fs2 "test-bucket" "test.txt" bye 1748779260 = (fs3, None))
    by (apply no_error_eta; vm_compute; reflexivity).
  destruct (put_get_roundtrip metadata_codec_reads_back s fs1 fs2 "test-bucket" "test.txt"
              hello 1748779200 H1) as [G1 G2].
  split; [apply no_error_eta; vm_compute; reflexivity |].
  split; [exact H1 |]. split; [exact G1 |]. split; [exact H2 |].
  exact (G2 bye 1748779260 fs3 H2).
Defined.

Lemma get_detects_corruption_witness :
  Get s fs2_corrupt "test-bucket" "test.txt" = Err IntegrityError
  /\ (forall data, Get s fs2_corrupt "test-bucket" "test.txt" <> Ok data)
  /\ IntegrityError <> ObjectNotFound.
Proof.
  eapply (get_detects_corruption s fs2_corrupt "test-bucket" "test.txt" tampered).
  - vm_compute. reflexivity.
  - vm_compute. reflexivity.
  - vm_compute. reflexivity.
  - vm_compute. reflexivity.
  - vm_compute. reflexivity.
  - vm_compute. discriminate.
Defined.

(** C6 as stated fails: the string [nested_bucket] names the existing
    bucket directory by way of the object directory, the object of
    ["test.txt"] can be read under it, and [Delete] succeeds; the object
    directory is then gone, the string resolves no more, and [Get] and a
    second [Delete] report a missing bucket, not a missing object. *)
Lemma deletion_through_the_object_directory :
  existPath s fs2 nested_bucket = true
  /\ Get s fs2 nested_bucket "test.txt" = Ok hello
  /\ Delete s fs2 nested_bucket "test.txt" = (fs8, None)
  /\ Get s fs8 nested_bucket "test.txt" = Err BucketNotFound
  /\ Delete s fs8 nested_bucket "test.txt" = (fs8, Some BucketNotFound)
  /\ BucketNotFound <> ObjectNotFound
  /\ validName nested_bucket <> None.
Proof.
  split; [vm_compute; reflexivity |].
  split; [vm_compute; reflexivity |].
  split; [apply no_error_eta; vm_compute; reflexivity |].
  split; [vm_compute; reflexivity |].
  split; [| split; [discriminate | vm_compute; discriminate]].
  assert (E : existPath s fs8 nested_bucket = false) by (vm_compute; reflexivity).
  unfold Delete. rewrite E. reflexivity.
Defined.

(** The condition on the root is needed as well: [NewStorage] accepts a
    root that passes through an object directory, and deleting that
    object under the accepted name ["test-bucket"] leaves a root that no
    longer resolves. *)
Example deletion_under_a_nested_root :
  NewStorage fs2 (path nested_root) = Ok nested_root
  /\ validName "test-bucket" = None
  /\ Get nested_root fs2 "test-bucket" "test.txt" = Ok hello
  /\ Delete nested_root fs2 "test-bucket" "test.txt" = (fs9, None)
  /\ Get nested_root fs9 "test-bucket" "test.txt" = Err BucketNotFound.
Proof.
  split; [vm_compute; reflexivity |].
  split; [vm_compute; reflexivity |].
  split; [vm_compute; reflexivity |].
  split; [apply no_error_eta; vm_compute; reflexivity | vm_compute; reflexivity].
Qed.

Lemma delete_is_final_witness :
  Delete s fs0 "no-such-bucket" "test.txt" = (fs0, Some BucketNotFound)
  /\ Delete s fs2 "test-bucket" "test.txt" = (fs4, None)
  /\ Get s fs4 "test-bucket" "test.txt" = Err ObjectNotFound
  /\ Delete s fs4 "test-bucket" "test.txt" = (fs4, Some ObjectNotFound).
Proof.
  assert (HD : Delete s fs2 "test-bucket" "test.txt" = (fs4, None))
    by (apply no_error_eta; vm_compute; reflexivity).
  destruct (delete_is_final s fs0 "no-such-bucket" "test.txt") as (H0 & _ & _).
  destruct (delete_is_final s fs2 "test-bucket" "test.txt") as (_ & _ & H2).
  destruct (H2 ltac:(vm_compute; reflexivity) ltac:(vm_compute; reflexivity) fs4 HD)
    as [HG HD2].
  split; [apply H0; vm_compute; reflexivity |].
  split; [exact HD |]. split; [exact HG | exact HD2].
Defined.

(** C4 as stated fails: ["test-bucket"] and ["./test-bucket"] are
    distinct strings, and the body put under the first, which the second
    did not hold before, is what [Get] returns for the second. *)
Lemma isolation_fails_for_path_strings :
  "test-bucket" <> "./test-bucket"
  /\ Get s fs1 "./test-bucket" "test.txt" = Err ObjectNotFound
  /\ Put s fs1 "test-bucket" "test.txt" hello 1748779200 = (fs2, None)
  /\ Get s fs2 "./test-bucket" "test.txt" = Ok hello.
Proof.
  split; [discriminate |].
  split; [vm_compute; reflexivity |].
  split; [apply no_error_eta; vm_compute; reflexivity | vm_compute; reflexivity].
Defined.

Lemma bucket_isolation_witness :
  Get s fs5 "other-bucket" "test.txt" = Ok bye
  /\ Get s fs6 "other-bucket" "test.txt" = Get s fs5 "other-bucket" "test.txt"
  /\ Get s fs7 "other-bucket" "test.txt" = Get s fs6 "other-bucket" "test.txt".
Proof.
  destruct (bucket_isolation s fs5 "test-bucket" "other-bucket" "test.txt" "test.txt"
              hello 1748779400) as [H1 _];
    [vm_compute; reflexivity | vm_compute; reflexivity | discriminate |].
  destruct (bucket_isolation s fs6 "test-bucket" "other-bucket" "test.txt" "test.txt"
              hello 1748779400) as [_ H2];
    [vm_compute; reflexivity | vm_compute; reflexivity | discriminate |].
  split; [vm_compute; reflexivity |]. split; [exact H1 | exact (H2 eq_refl)].
Defined.

End StoreWitnesses.

(* ===================================================================== *)
(** * Further properties of the package, the server and the program *)
(* ===================================================================== *)

(** ** The order of strings, and [sort.Strings] *)

Module OrderFacts.

Lemma ascii_compare_eq (a b : ascii) : Ascii.compare a b = Eq -> a = b.
Proof.
  unfold Ascii.compare. intros H. apply N.compare_eq in H.
  rewrite <- (ascii_N_embedding a), <- (ascii_N_embedding b). now rewrite H.
Qed.

Lemma ascii_compare_lt_trans (a b c : ascii) :
  Ascii.compare a b = Lt -> Ascii.compare b c = Lt -> Ascii.compare a c = Lt.
Proof.
  unfold Ascii.compare. rewrite !N.compare_lt_iff. lia.
Qed.

Lemma compare_lt_trans (a b c : string) :
  String.compare a b = Lt -> String.compare b c = Lt -> String.compare a c = Lt.
Proof.
  revert b c. induction a as [|x a IH]; intros [|y b] [|z c]; simpl; try congruence.
  destruct (Ascii.compare x y) eqn:Exy; try discriminate.
  - apply ascii_compare_eq in Exy. subst y.
    destruct (Ascii.compare x z); try congruence. apply IH.
  - intros _. destruct (Ascii.compare y z) eqn:Eyz; try discriminate.
    + apply ascii_compare_eq in Eyz. subst z. now rewrite Exy.
    + intros _. now rewrite (ascii_compare_lt_trans _ _ _ Exy Eyz).
Qed.

Lemma leb_refl (a : string) : String.leb a a = true.
Proof. destruct (String.leb_total a a); assumption. Qed.

Lemma leb_trans (a b c : string) :
  String.leb a b = true -> String.leb b c = true -> String.leb a c = true.
Proof.
  intros Hab Hbc.
  destruct (String.compare a b) eqn:Eab.
  - apply String.compare_eq_iff in Eab. now subst.
  - destruct (String.compare b c) eqn:Ebc.
    + apply String.compare_eq_iff in Ebc. now subst.
    + unfold String.leb. now rewrite (compare_lt_trans _ _ _ Eab Ebc).
    + unfold String.leb in Hbc. now rewrite Ebc in Hbc.
  - unfold String.leb in Hab. now rewrite Eab in Hab.
Qed.

End OrderFacts.

Module SortUnique.
Import OrderFacts.

Lemma insert_sorted_head (x : string) (l : list string) :
  Forall (fun y => String.leb x y = true) l -> Sort.insert x l = x :: l.
Proof. destruct 1 as [|y l H _]; simpl; [reflexivity | now rewrite H]. Qed.

Lemma insert_comm (x y : string) (l : list string) :
  Sort.insert x (Sort.insert y l) = Sort.insert y (Sort.insert x l).
Proof.
  induction l as [|z l IH]; simpl.
  - destruct (String.leb x y) eqn:Exy, (String.leb y x) eqn:Eyx; try reflexivity.
    + now rewrite (String.leb_antisym _ _ Exy Eyx).
    + destruct (String.leb_total x y); congruence.
  - destruct (String.leb y z) eqn:Eyz, (String.leb x z) eqn:Exz; simpl;
      rewrite ?Eyz, ?Exz.
    + destruct (String.leb x y) eqn:Exy, (String.leb y x) eqn:Eyx; try reflexivity.
      * now rewrite (String.leb_antisym _ _ Exy Eyx).
      * destruct (String.leb_total x y); congruence.
    + destruct (String.leb x y) eqn:Exy; [| reflexivity].
      rewrite (leb_trans _ _ _ Exy Eyz) in Exz. discriminate.
    + destruct (String.leb y x) eqn:Eyx; [| reflexivity].
      rewrite (leb_trans _ _ _ Eyx Exz) in Eyz. discriminate.
    + now rewrite IH.
Qed.

Lemma Strings_Permutation (l l' : list string) :
  Permutation l l' -> Sort.Strings l = Sort.Strings l'.
Proof.
  unfold Sort.Strings.
  induction 1 as [|x l l' _ IH|x y l|l1 l2 l3 _ IH1 _ IH2]; simpl.
  - reflexivity.
  - now rewrite IH.
  - apply insert_comm.
  - now rewrite IH1.
Qed.

End SortUnique.

(** ** The canonical query string *)

Section QueryFacts.
Import SortUnique.

Lemma free_of_append (c : ascii) (a b : string) :
  free_of c (a +:+ b) = free_of c a && free_of c b.
Proof.
  induction a as [|x a IH]; [reflexivity |].
  rewrite append_cons. simpl. rewrite IH. now rewrite andb_assoc.
Qed.

Lemma after_first_append (c : ascii) (a b : string) :
  free_of c a = true -> after_first c (a +:+ String c b) = b.
Proof.
  induction a as [|x a IH]; simpl.
  - intros _. rewrite ?append_empty_l. simpl. now rewrite Ascii.eqb_refl.
  - intros [Hx Ha]%andb_prop. apply negb_true_iff in Hx.
    rewrite ?append_cons. simpl. rewrite Hx. now apply IH.
Qed.

Lemma before_first_append (c : ascii) (a b : string) :
  free_of c a = true -> before_first c (a +:+ String c b) = a.
Proof.
  induction a as [|x a IH]; simpl.
  - intros _. rewrite ?append_empty_l. simpl. now rewrite Ascii.eqb_refl.
  - intros [Hx Ha]%andb_prop. apply negb_true_iff in Hx.
    rewrite ?append_cons. simpl. rewrite Hx. now rewrite IH.
Qed.

Lemma free_of_before_first (c : ascii) (s : string) : free_of c (before_first c s) = true.
Proof.
  induction s as [|x s IH]; [reflexivity |]. simpl.
  destruct (Ascii.eqb x c) eqn:E; [reflexivity |]. simpl. now rewrite E.
Qed.

(** The pieces of a split do not contain the separator, and contain no
    byte the whole string does not contain. *)
Lemma Split_pieces (s : string) (sep : ascii) :
  Forall (fun t => free_of sep t = true) (Strings.Split s sep).
Proof.
  induction s as [|x s IH]; simpl.
  - repeat constructor.
  - destruct (Ascii.eqb x sep) eqn:E; [constructor; [reflexivity | exact IH] |].
    destruct (Strings.Split s sep) as [|t r]; [repeat constructor; simpl; now rewrite E |].
    inversion IH; subst. constructor; [simpl; now rewrite E | assumption].
Qed.

Lemma Split_pieces_free (c : ascii) (s : string) (sep : ascii) :
  free_of c s = true -> Forall (fun t => free_of c t = true) (Strings.Split s sep).
Proof.
  induction s as [|x s IH]; simpl.
  - repeat constructor.
  - intros [Hx Hs]%andb_prop. specialize (IH Hs).
    destruct (Ascii.eqb x sep); [constructor; [reflexivity | exact IH] |].
    destruct (Strings.Split s sep) as [|t r]; [repeat constructor; simpl; now rewrite Hx |].
    inversion IH; subst. constructor; [simpl; now rewrite Hx | assumption].
Qed.

Lemma Join_cons (x y : string) (l : list string) (sep : string) :
  Strings.Join (x :: y :: l) sep = x +:+ sep +:+ Strings.Join (y :: l) sep.
Proof. reflexivity. Qed.

Lemma free_of_Join (c sep : ascii) (l : list string) :
  c <> sep -> Forall (fun t => free_of c t = true) l ->
  free_of c (Strings.Join l (String sep "")) = true.
Proof.
  intros Hc. induction 1 as [|x l Hx Hl IH]; [reflexivity |].
  destruct l as [|y l]; [exact Hx |].
  rewrite Join_cons, !free_of_append, Hx, IH. simpl.
  destruct (Ascii.eqb_spec sep c); [congruence | reflexivity].
Qed.

(** Joining and splitting again gives the pieces back. *)
Lemma Split_Join (l : list string) (sep : ascii) :
  l <> [] -> Forall (fun t => free_of sep t = true) l ->
  Strings.Split (Strings.Join l (String sep "")) sep = l.
Proof.
  intros Hne H. induction H as [|x l Hx Hl IH]; [congruence |].
  destruct l as [|y l]; [exact (Split_free _ _ Hx) |].
  rewrite Join_cons, append_cons, append_empty_l, Split_app, (Split_free _ _ Hx).
  rewrite IH by discriminate. reflexivity.
Qed.

Lemma Strings_idem (l : list string) : Sort.Strings (Sort.Strings l) = Sort.Strings l.
Proof. apply Strings_Permutation, SortFacts.Strings_perm. Qed.

End QueryFacts.

Section QueryProperties.
Import SortUnique.

Lemma canonicalQuery_with_query (path : string) (params : list string) :
  free_of "?" path = true ->
  params <> [] ->
  Forall (fun t => free_of "&" t = true) params ->
  Forall (fun t => free_of "?" t = true) params ->
  canonicalQuery (with_query path params) = Strings.Join (Sort.Strings params) "&".
Proof.
  intros Hp Hne Ha Hq. unfold with_query.
  rewrite canonicalQuery_eq, append_cons, append_empty_l, after_first_append by exact Hp.
  rewrite before_first_free by (apply free_of_Join; [discriminate | exact Hq]).
  rewrite Split_Join by assumption. reflexivity.
Qed.

(** X1.  The order of the query parameters does not matter.  Two URIs
    with the same path (one without [?]) whose parameters (strings
    without [&] and [?]) are a rearrangement of each other have the same
    canonical query, the same canonical URI and the same canonical
    request, whatever the method, the headers and the body hash. *)
Theorem query_parameter_order_is_irrelevant (path : string) (p1 p2 : list string)
    (method : string) (headers : gmap string string) (signed body : string) :
  free_of "?" path = true ->
  Forall (fun t => free_of "&" t = true) p1 ->
  Forall (fun t => free_of "?" t = true) p1 ->
  Permutation p1 p2 ->
  canonicalQuery (with_query path p1) = canonicalQuery (with_query path p2)
  /\ canonicalUri (with_query path p1) = canonicalUri (with_query path p2)
  /\ canonicalRequest method (with_query path p1) headers signed body
     = canonicalRequest method (with_query path p2) headers signed body.
Proof.
  intros Hp Ha Hq Hperm.
  assert (EQ : canonicalQuery (with_query path p1) = canonicalQuery (with_query path p2)).
  { destruct p1 as [|t p1].
    - apply Permutation_nil in Hperm. now subst.
    - assert (Hne2 : p2 <> []).
      { intros ->. apply Permutation_sym, Permutation_nil in Hperm. discriminate. }
      rewrite !canonicalQuery_with_query; try assumption; try discriminate.
      + now rewrite (Strings_Permutation _ _ Hperm).
      + exact (Permutation_Forall Hperm Ha).
      + exact (Permutation_Forall Hperm Hq). }
  assert (EU : canonicalUri (with_query path p1) = canonicalUri (with_query path p2)).
  { rewrite !canonicalUri_eq. unfold with_query.
    rewrite !append_cons, !append_empty_l, !before_first_append by exact Hp.
    destruct path; reflexivity. }
  split; [exact EQ |]. split; [exact EU |].
  unfold canonicalRequest. now rewrite EQ, EU.
Qed.

Lemma query_parameter_order_is_irrelevant_witness :
  canonicalQuery "/b/k?b=2&a=1&c" = canonicalQuery "/b/k?c&b=2&a=1".
Proof.
  refine (proj1 (query_parameter_order_is_irrelevant "/b/k" ["b=2"; "a=1"; "c"]
                   ["c"; "b=2"; "a=1"] "GET" ∅ "host" "" _ _ _ _)).
  - reflexivity.
  - repeat constructor.
  - repeat constructor.
  - symmetry. exact (Permutation_cons_append ["b=2"; "a=1"] "c").
Defined.

(** X2.  Canonicalising a query is idempotent: the canonical query of
    a URI whose query is the canonical query of [uri] is the canonical
    query of [uri]. *)
Theorem canonicalQuery_idempotent (uri : string) :
  canonicalQuery ("?" +:+ canonicalQuery uri) = canonicalQuery uri.
Proof.
  set (q := before_first "?" (after_first "?" uri)).
  assert (Hq : free_of "?" q = true) by apply free_of_before_first.
  rewrite (canonicalQuery_eq uri). fold q.
  set (parts := Strings.Split q "&").
  assert (Hne : parts <> []) by apply Split_not_nil.
  assert (Ha : Forall (fun t => free_of "&" t = true) (Sort.Strings parts)).
  { eapply Permutation_Forall; [symmetry; apply SortFacts.Strings_perm | apply Split_pieces]. }
  assert (Hf : Forall (fun t => free_of "?" t = true) (Sort.Strings parts)).
  { eapply Permutation_Forall; [symmetry; apply SortFacts.Strings_perm |].
    apply Split_pieces_free, Hq. }
  change ("?" +:+ Strings.Join (Sort.Strings parts) "&")
    with (with_query "" (Sort.Strings parts)).
  rewrite canonicalQuery_with_query; try assumption; try reflexivity.
  - now rewrite Strings_idem.
  - apply Strings_not_nil, Hne.
Qed.

End QueryProperties.

(** ** The [Authorization] header and the signature *)

Section SignatureFacts.

Lemma hmacHash_length (key : list Z) (data : string) : length (hmacHash key data) = 32%nat.
Proof. apply Sum256_length. Qed.

Lemma computedSignature_shape (a : Auth) (method uri : string)
    (headers : gmap string string) (body : string) (h : authHeader) :
  is_hex (computedSignature a method uri headers body h) = true
  /\ String.length (computedSignature a method uri headers body h) = 64%nat.
Proof.
  unfold computedSignature. split; [apply EncodeToString_is_hex |].
  rewrite EncodeToString_length, hmacHash_length. reflexivity.
Qed.

Lemma canonicalHeaders_ext (h1 h2 : gmap string string) (signed : list string) :
  (forall k, In k signed ->
     Strings.TrimSpace (index h1 k) = Strings.TrimSpace (index h2 k)) ->
  canonicalHeaders h1 signed = canonicalHeaders h2 signed.
Proof.
  intros H.
  induction signed as [|k signed IH]; [reflexivity |].
  rewrite !canonicalHeaders_cons, (H k) by (left; reflexivity).
  rewrite IH; [reflexivity |]. intros k' Hk'. apply H. now right.
Qed.

Lemma parseFields_fold (fields : list string) (kv : gmap string string) :
  fold_left
    (fun kv field =>
       match Strings.SplitN2 (Strings.TrimSpace field) "=" with
       | [key; value] => <[key := value]> kv
       | _ => kv
       end) fields kv
  = fold_left (fun kv f => match field f with
                           | Some (k, v) => <[k := v]> kv
                           | None => kv
                           end) fields kv.
Proof.
  revert kv. induction fields as [|f fields IH]; intros kv; [reflexivity |]. simpl.
  rewrite IH. f_equal. unfold field.
  destruct (Strings.SplitN2 (Strings.TrimSpace f) "=") as [|k [|v [|w r]]]; reflexivity.
Qed.

Lemma fields_Permutation (l l' : list string) (kv : gmap string string) :
  Permutation l l' -> NoDup (field_keys l) ->
  fold_left (fun kv f => match field f with
                         | Some (k, v) => <[k := v]> kv
                         | None => kv
                         end) l kv
  = fold_left (fun kv f => match field f with
                           | Some (k, v) => <[k := v]> kv
                           | None => kv
                           end) l' kv.
Proof.
  intros HP. revert kv.
  induction HP as [|x l l' HP IH|x y l|l1 l2 l3 HP1 IH1 HP2 IH2]; intros kv Hnd.
  - reflexivity.
  - simpl. apply IH. unfold field_keys in *. simpl in Hnd.
    destruct (field x) as [[k v]|]; simpl in Hnd; [now inversion Hnd | exact Hnd].
  - simpl. f_equal. unfold field_keys in Hnd. simpl in Hnd.
    destruct (field x) as [[k v]|], (field y) as [[k' v']|]; simpl in Hnd; try reflexivity.
    apply insert_insert_ne. intros ->. inversion Hnd as [|? ? Hin _]; subst.
    apply Hin. left.
  - rewrite IH1 by exact Hnd. apply IH2.
    unfold field_keys in *. now rewrite <- HP1.
Qed.

End SignatureFacts.

Section AuthProperties.

Lemma prefix_append (p s : string) : String.prefix p (p +:+ s) = true.
Proof.
  induction p as [|x p IH]; [now destruct s |].
  rewrite append_cons. simpl. now rewrite Ascii.eqb_refl || (destruct (ascii_dec x x); congruence).
Qed.

Lemma authFields_of_fields (fields : list string) :
  fields <> [] -> Forall (fun f => free_of "," f = true) fields ->
  authFields (authorization_of_fields fields) = parseFields fields.
Proof.
  intros Hne Hf. unfold authFields, authorization_of_fields.
  rewrite <- (Nat.add_0_r (String.length (signAlgorithm +:+ " "))), DeleteFacts.slice_from_append.
  simpl slice_from. now rewrite Split_Join.
Qed.

(** X3.  The fields of the [Authorization] header may come in any
    order.  When the fields hold no comma and no two of them have the
    same key, [parseAuthHeader] returns the same result, header or
    error, for every rearrangement of the fields. *)
Theorem authorization_fields_in_any_order (a : Auth) (l l' : list string) :
  Forall (fun f => free_of "," f = true) l ->
  NoDup (field_keys l) ->
  Permutation l l' ->
  parseAuthHeader a (authorization_of_fields l)
  = parseAuthHeader a (authorization_of_fields l').
Proof.
  intros Hf Hnd HP.
  destruct l as [|f l].
  { apply Permutation_nil in HP. now subst. }
  assert (Hne' : l' <> []).
  { intros ->. apply Permutation_sym, Permutation_nil in HP. discriminate. }
  rewrite !parseAuthHeader_cases. unfold parsedHeader.
  rewrite !authFields_of_fields; try assumption; try discriminate;
    [| exact (Permutation_Forall HP Hf)].
  unfold authorization_of_fields. unfold Strings.HasPrefix. rewrite !prefix_append.
  assert (E : parseFields (f :: l) = parseFields l').
  { unfold parseFields. rewrite !parseFields_fold. now apply fields_Permutation. }
  now rewrite E.
Qed.

Lemma authorization_fields_in_any_order_witness :
  parseAuthHeader Example_request.auth
    (authorization_of_fields ["Credential=test-access-key/s"; " SignedHeaders=host"; " Signature=00"])
  = parseAuthHeader Example_request.auth
    (authorization_of_fields [" Signature=00"; "Credential=test-access-key/s"; " SignedHeaders=host"]).
Proof.
  apply authorization_fields_in_any_order.
  - repeat constructor.
  - apply (bool_decide_unpack (NoDup _)). vm_compute. reflexivity.
  - symmetry.
    exact (Permutation_cons_append ["Credential=test-access-key/s"; " SignedHeaders=host"]
             " Signature=00").
Defined.

(** X4.  A request that [Validate] accepts carries, in the
    [Signature] field of its [Authorization] header, the signature
    [Validate] recomputes, and that is a string of 64 lower-case
    hexadecimal digits: a signature in upper case, or of another length,
    is never accepted. *)
Theorem accepted_signature_is_lowercase_hex (a : Auth) (method uri : string)
    (headers : gmap string string) (body : string) :
  Validate a method uri headers body = None ->
  let header := index headers "authorization" in
  let sig := index (authFields header) "Signature" in
  sig = computedSignature a method uri headers body (parsedHeader a header)
  /\ is_hex sig = true
  /\ String.length sig = 64%nat.
Proof.
  intros H header sig. rewrite Validate_cases in H. fold header in H.
  destruct (String.eqb header ""); [discriminate |].
  destruct (negb (Strings.HasPrefix header _)); [discriminate |].
  destruct (negb (Strings.HasPrefix (index _ "Credential") _)); [discriminate |].
  fold sig in H.
  destruct (String.eqb_spec
              (computedSignature a method uri headers body (parsedHeader a header)) sig)
    as [E|_]; [| discriminate].
  rewrite <- E. split; [reflexivity |]. apply computedSignature_shape.
Qed.

Lemma accepted_signature_is_lowercase_hex_witness :
  let sig := index (authFields (index Example_request.headers "authorization")) "Signature" in
  is_hex sig = true /\ String.length sig = 64%nat.
Proof.
  destruct (accepted_signature_is_lowercase_hex Example_request.auth "GET"
              "/test-bucket/test.txt?b=2&a=1" Example_request.headers
              Example_request.body_hash) as (_ & H1 & H2).
  - vm_compute. reflexivity.
  - split; [exact H1 | exact H2].
Defined.

(** X5.  Signed headers count up to the white space around their
    values, and an absent header counts as an empty one.  Two header
    maps with the same [authorization] and [x-amz-date] entries whose
    entries for every name in [SignedHeaders] agree after
    [strings.TrimSpace] (a missing entry reading as [""]) get the same
    verdict from [Validate]. *)
Theorem signed_header_values_are_trimmed (a : Auth) (method uri : string)
    (h1 h2 : gmap string string) (body : string) :
  index h1 "authorization" = index h2 "authorization" ->
  index h1 "x-amz-date" = index h2 "x-amz-date" ->
  (forall k,
     In k (Strings.Split (index (authFields (index h1 "authorization")) "SignedHeaders") ";") ->
     Strings.TrimSpace (index h1 k) = Strings.TrimSpace (index h2 k)) ->
  Validate a method uri h1 body = Validate a method uri h2 body.
Proof.
  intros Ha Hd Hs. rewrite !Validate_cases. cbv zeta. rewrite <- Ha.
  set (header := index h1 "authorization") in *.
  assert (E : computedSignature a method uri h1 body (parsedHeader a header)
              = computedSignature a method uri h2 body (parsedHeader a header)).
  { unfold computedSignature, canonicalRequest. rewrite Hd.
    rewrite (canonicalHeaders_ext h1 h2); [reflexivity |]. exact Hs. }
  now rewrite E.
Qed.

(** X6.  For a credential scope [date/region/service/aws4_request]
    whose first three parts hold no [/], [signingKey] is the SigV4 key
    derivation: HMAC-SHA256 chained over the date, the region, the
    service and ["aws4_request"], starting from ["AWS4"] followed by the
    secret key. *)
Theorem signingKey_is_the_SigV4_derivation (a : Auth) (date region service : string) :
  free_of "/" date = true -> free_of "/" region = true -> free_of "/" service = true ->
  signingKey a (sigv4_scope date region service)
  = hmacHash
      (hmacHash
         (hmacHash
            (hmacHash (Bytes.of_string ("AWS4" +:+ secretKey a)) date)
            region)
         service)
      "aws4_request".
Proof.
  intros Hd Hr Hs. unfold signingKey, sigv4_scope.
  change (date +:+ "/" +:+ region +:+ "/" +:+ service +:+ "/aws4_request")
    with (date +:+ String "/" (region +:+ String "/" (service +:+ String "/" "aws4_request"))).
  rewrite !Split_app, (Split_free _ _ Hd), (Split_free _ _ Hr), (Split_free _ _ Hs).
  reflexivity.
Qed.

End AuthProperties.

Module TrimFacts.

Lemma graphic_not_space (c : Z) : graphic_byte c = true -> Unicode.IsSpace c = false.
Proof.
  unfold graphic_byte, Unicode.IsSpace, Unicode.MaxLatin1, UTF8.between.
  intros [H1 H2]%andb_prop. apply Z.leb_le in H1, H2.
  destruct (Z.leb_spec 0 c), (Z.leb_spec c 255); simpl; lia.
Qed.

Lemma trim_left_stop (n : nat) (c : Z) (r : list Z) :
  graphic_byte c = true -> Strings.trim_left n (c :: r) = c :: r.
Proof.
  intros H. destruct n as [|n]; [reflexivity |].
  assert (Hc : c < UTF8.RuneSelf).
  { unfold graphic_byte in H. apply andb_prop in H as [_ H]. apply Z.leb_le in H.
    unfold UTF8.RuneSelf. lia. }
  change (Strings.trim_left (S n) (c :: r))
    with (let '(rn, size) := UTF8.DecodeRune (c :: r) in
          if Unicode.IsSpace rn then Strings.trim_left n (skipn size (c :: r)) else c :: r).
  rewrite (UTF8Facts.DecodeRune_ascii _ _ Hc), (graphic_not_space _ H). reflexivity.
Qed.

Lemma DecodeLastRune_ascii (b : list Z) (c : Z) :
  c < UTF8.RuneSelf -> UTF8.DecodeLastRune (b ++ [c]) = (c, 1%nat).
Proof.
  intros H. unfold UTF8.DecodeLastRune. rewrite rev_app_distr. simpl.
  destruct (Z.ltb_spec c UTF8.RuneSelf); [reflexivity | lia].
Qed.

Lemma trim_right_stop (n : nat) (b : list Z) (c : Z) :
  graphic_byte c = true -> Strings.trim_right n (b ++ [c]) = b ++ [c].
Proof.
  intros H. destruct n as [|n]; [reflexivity |].
  assert (Hc : c < UTF8.RuneSelf).
  { unfold graphic_byte in H. apply andb_prop in H as [_ H]. apply Z.leb_le in H.
    unfold UTF8.RuneSelf. lia. }
  destruct (b ++ [c]) as [|x l] eqn:E; [reflexivity |].
  change (Strings.trim_right (S n) (x :: l))
    with (let '(rn, size) := UTF8.DecodeLastRune (x :: l) in
          if Unicode.IsSpace rn
          then Strings.trim_right n (firstn (length (x :: l) - size) (x :: l))
          else x :: l).
  rewrite <- E, (DecodeLastRune_ascii _ _ Hc), (graphic_not_space _ H). reflexivity.
Qed.

Lemma trim_graphic (b : list Z) (n m : nat) :
  forallb graphic_byte b = true ->
  Strings.trim_right m (Strings.trim_left n b) = b.
Proof.
  intros H. destruct b as [|c r].
  - destruct n, m; reflexivity.
  - simpl in H. apply andb_prop in H as [Hc Hr]. rewrite (trim_left_stop _ _ _ Hc).
    destruct (exists_last (l := c :: r)) as (b' & z & E); [discriminate |].
    rewrite E. apply trim_right_stop.
    assert (Hall : forallb graphic_byte (c :: r) = true) by (simpl; now rewrite Hc, Hr).
    rewrite E, forallb_app in Hall. apply andb_prop in Hall as [_ Hz]. simpl in Hz.
    now apply andb_prop in Hz as [Hz _].
Qed.

Lemma TrimSpace_graphic (s : string) : graphic s = true -> Strings.TrimSpace s = s.
Proof.
  intros H. unfold Strings.TrimSpace. cbv zeta.
  rewrite (trim_graphic _ _ _ H). apply JSONFacts.to_string_of_string.
Qed.

Lemma TrimSpace_space_graphic (s : string) :
  graphic s = true -> Strings.TrimSpace (String " " s) = s.
Proof.
  intros H. unfold Strings.TrimSpace. cbv zeta.
  change (Bytes.of_string (String " " s)) with (0x20 :: Bytes.of_string s).
  change (Strings.trim_left (length (0x20 :: Bytes.of_string s)) (0x20 :: Bytes.of_string s))
    with (Strings.trim_left (length (Bytes.of_string s)) (Bytes.of_string s)).
  rewrite (trim_graphic _ _ _ H). apply JSONFacts.to_string_of_string.
Qed.

Lemma of_string_append (a b : string) :
  Bytes.of_string (a +:+ b) = Bytes.of_string a ++ Bytes.of_string b.
Proof. induction a as [|x a IH]; [reflexivity |]. rewrite append_cons. simpl. now rewrite IH. Qed.

Lemma graphic_append (a b : string) : graphic (a +:+ b) = graphic a && graphic b.
Proof. unfold graphic. now rewrite of_string_append, forallb_app. Qed.

Lemma Cut_append (a b : string) (sep : ascii) :
  free_of sep a = true -> Strings.Cut (a +:+ String sep b) sep = Some (a, b).
Proof.
  induction a as [|x a IH]; simpl.
  - intros _. rewrite ?append_empty_l. simpl. now rewrite Ascii.eqb_refl.
  - intros [Hx Ha]%andb_prop. apply negb_true_iff in Hx.
    rewrite ?append_cons. simpl. now rewrite Hx, (IH Ha).
Qed.

Lemma field_graphic (k v : string) :
  free_of "=" k = true -> graphic (k +:+ String "=" v) = true ->
  field (k +:+ String "=" v) = Some (k, v).
Proof.
  intros Hk Hg. unfold field, Strings.SplitN2.
  now rewrite (TrimSpace_graphic _ Hg), (Cut_append _ _ _ Hk).
Qed.

Lemma field_space_graphic (k v : string) :
  free_of "=" k = true -> graphic (k +:+ String "=" v) = true ->
  field (String " " (k +:+ String "=" v)) = Some (k, v).
Proof.
  intros Hk Hg. unfold field, Strings.SplitN2.
  now rewrite (TrimSpace_space_graphic _ Hg), (Cut_append _ _ _ Hk).
Qed.

Lemma is_hex_graphic (s : string) : is_hex s = true -> graphic s = true.
Proof.
  unfold graphic. induction s as [|x s IH]; [reflexivity |]. simpl.
  intros [Hx Hs]%andb_prop. rewrite (IH Hs), andb_true_r.
  unfold is_hex_digit, UTF8.between in Hx. unfold graphic_byte.
  apply orb_prop in Hx as [H|H]; apply andb_prop in H as [H1 H2];
    apply Z.leb_le in H1, H2; apply andb_true_intro; split; apply Z.leb_le; lia.
Qed.

Lemma is_hex_free_of (c : ascii) (s : string) :
  is_hex_digit c = false -> is_hex s = true -> free_of c s = true.
Proof.
  intros Hc. induction s as [|x s IH]; [reflexivity |]. simpl.
  intros [Hx Hs]%andb_prop. rewrite (IH Hs), andb_true_r.
  destruct (Ascii.eqb_spec x c); [congruence | reflexivity].
Qed.

End TrimFacts.

Section SignedRequests.
Import TrimFacts.

Lemma parseFields_authorization (a : Auth) (scope signed sig : string) :
  graphic (accessKey a) = true -> graphic scope = true -> graphic signed = true ->
  graphic sig = true ->
  parseFields ["Credential=" +:+ accessKey a +:+ "/" +:+ scope;
               " SignedHeaders=" +:+ signed;
               " Signature=" +:+ sig]
  = <["Signature" := sig]>
      (<["SignedHeaders" := signed]>
         (<["Credential" := accessKey a +:+ "/" +:+ scope]> ∅)).
Proof.
  intros Ha Hs Hh Hg. unfold parseFields. rewrite parseFields_fold.
  cbn [fold_left].
  change ("Credential=" +:+ accessKey a +:+ "/" +:+ scope)
    with ("Credential" +:+ String "=" (accessKey a +:+ "/" +:+ scope)).
  change (" SignedHeaders=" +:+ signed)
    with (String " " ("SignedHeaders" +:+ String "=" signed)).
  change (" Signature=" +:+ sig) with (String " " ("Signature" +:+ String "=" sig)).
  assert (G1 : graphic ("Credential" +:+ String "=" (accessKey a +:+ "/" +:+ scope)) = true).
  { change (String "=" (accessKey a +:+ "/" +:+ scope))
      with ("=" +:+ accessKey a +:+ "/" +:+ scope).
    now rewrite !graphic_append, Ha, Hs. }
  assert (G2 : graphic ("SignedHeaders" +:+ String "=" signed) = true).
  { change (String "=" signed) with ("=" +:+ signed). now rewrite !graphic_append, Hh. }
  assert (G3 : graphic ("Signature" +:+ String "=" sig) = true).
  { change (String "=" sig) with ("=" +:+ sig). now rewrite !graphic_append, Hg. }
  rewrite (field_graphic "Credential" _ eq_refl G1),
    (field_space_graphic "SignedHeaders" _ eq_refl G2),
    (field_space_graphic "Signature" _ eq_refl G3).
  reflexivity.
Qed.

(** The header built for a scope, a list of names and the signature
    computed over the header map passes [Validate]. *)
Lemma signed_header_passes (a : Auth) (method uri : string)
    (headers : gmap string string) (body scope signed : string) :
  graphic (accessKey a) = true -> free_of "," (accessKey a) = true ->
  graphic scope = true -> free_of "," scope = true ->
  graphic signed = true -> free_of "," signed = true ->
  ~ In "authorization" (Strings.Split signed ";") ->
  let sig := computedSignature a method uri headers body
               {| credential := scope; signedHeaders := signed; signature := "" |} in
  Validate a method uri
    (<["authorization" := authorization_value a scope signed sig]> headers) body
  = None.
Proof.
  intros Ha Fa Hs Fs Hh Fh Hin sig.
  destruct (computedSignature_shape a method uri headers body
              {| credential := scope; signedHeaders := signed; signature := "" |})
    as [Hhex _]. fold sig in Hhex.
  assert (Esig : computedSignature a method uri headers body
                   {| credential := scope; signedHeaders := signed; signature := sig |}
                 = sig) by reflexivity.
  clearbody sig.
  assert (Hg : graphic sig = true) by now apply is_hex_graphic.
  assert (Fg : free_of "," sig = true) by now apply is_hex_free_of.
  rewrite Validate_cases. cbv zeta.
  assert (EI : index (<["authorization" := authorization_value a scope signed sig]> headers)
                 "authorization" = authorization_value a scope signed sig).
  { unfold index. now rewrite lookup_insert_eq. }
  rewrite EI.
  assert (EF : authFields (authorization_value a scope signed sig)
               = <["Signature" := sig]>
                   (<["SignedHeaders" := signed]>
                      (<["Credential" := accessKey a +:+ "/" +:+ scope]> ∅))).
  { unfold authorization_value. rewrite authFields_of_fields; [| discriminate |].
    - now apply parseFields_authorization.
    - repeat constructor.
      + change ("Credential=" +:+ accessKey a +:+ "/" +:+ scope)
          with ("Credential=" +:+ accessKey a +:+ ("/" +:+ scope)).
        now rewrite !free_of_append, Fa, Fs.
      + now rewrite free_of_append, Fh.
      + now rewrite free_of_append, Fg. }
  rewrite EF.
  assert (E0 : String.eqb (authorization_value a scope signed sig) "" = false) by reflexivity.
  rewrite E0. unfold authorization_value at 1, authorization_of_fields at 1.
  unfold Strings.HasPrefix. rewrite prefix_append. cbn [negb].
  assert (EC : index (<["Signature" := sig]>
                        (<["SignedHeaders" := signed]>
                           (<["Credential" := accessKey a +:+ "/" +:+ scope]> ∅)))
                 "Credential" = (accessKey a +:+ "/") +:+ scope).
  { unfold index. rewrite !lookup_insert_ne by discriminate. rewrite lookup_insert_eq.
    simpl. now rewrite append_assoc. }
  rewrite EC, prefix_append. cbn [negb].
  assert (EH : index (<["Signature" := sig]>
                        (<["SignedHeaders" := signed]>
                           (<["Credential" := accessKey a +:+ "/" +:+ scope]> ∅)))
                 "SignedHeaders" = signed).
  { unfold index. rewrite lookup_insert_ne by discriminate. now rewrite lookup_insert_eq. }
  assert (ES : index (<["Signature" := sig]>
                        (<["SignedHeaders" := signed]>
                           (<["Credential" := accessKey a +:+ "/" +:+ scope]> ∅)))
                 "Signature" = sig).
  { unfold index. now rewrite lookup_insert_eq. }
  assert (EP : parsedHeader a (authorization_value a scope signed sig)
               = {| credential := scope; signedHeaders := signed; signature := sig |}).
  { unfold parsedHeader. rewrite EF, EC, EH, ES.
    rewrite <- (Nat.add_0_r (String.length _)), DeleteFacts.slice_from_append. reflexivity. }
  rewrite EP, ES.
  destruct (computedSignature_insert a method uri headers body
              {| credential := scope; signedHeaders := signed; signature := sig |}
              "authorization" (authorization_value a scope signed sig)) as [_ EQ];
    [discriminate | exact Hin |].
  rewrite EQ, Esig, String.eqb_refl. reflexivity.
Qed.

(** X7.  A request signed the way [Validate] recomputes the signature
    is accepted.  For an access key, a credential scope and a list of
    signed header names made of printable ASCII without space and comma,
    with [authorization] not among the signed names: the header map
    extended by the [Authorization] header that carries the access key,
    the scope, the names and the signature computed over the map passes
    [Validate]. *)
Theorem correctly_signed_request_is_accepted (a : Auth) (method uri : string)
    (headers : gmap string string) (body scope signed : string) :
  graphic (accessKey a) = true -> free_of "," (accessKey a) = true ->
  graphic scope = true -> free_of "," scope = true ->
  graphic signed = true -> free_of "," signed = true ->
  ~ In "authorization" (Strings.Split signed ";") ->
  let sig := computedSignature a method uri headers body
               {| credential := scope; signedHeaders := signed; signature := "" |} in
  Validate a method uri
    (<["authorization" := authorization_value a scope signed sig]> headers) body
  = None.
Proof.
  intros Ha Fa Hs Fs Hh Fh Hin. now apply signed_header_passes.
Qed.

Lemma correctly_signed_request_is_accepted_witness :
  Validate Example_request.auth "GET" "/test-bucket/test.txt?b=2&a=1"
    (<["authorization" :=
         authorization_value Example_request.auth Example_request.scope
           Example_request.signed_names
           (computedSignature Example_request.auth "GET" "/test-bucket/test.txt?b=2&a=1"
              Example_request.unsigned_headers Example_request.body_hash
              {| credential := Example_request.scope;
                 signedHeaders := Example_request.signed_names;
                 signature := "" |})]> Example_request.unsigned_headers)
    Example_request.body_hash
  = None.
Proof.
  apply (correctly_signed_request_is_accepted Example_request.auth "GET"
           "/test-bucket/test.txt?b=2&a=1" Example_request.unsigned_headers
           Example_request.body_hash Example_request.scope Example_request.signed_names).
  - reflexivity.
  - reflexivity.
  - reflexivity.
  - reflexivity.
  - reflexivity.
  - reflexivity.
  - vm_compute. intuition discriminate.
Defined.

End SignedRequests.

(** ** Objects of one bucket, and new buckets *)

Section KeyFacts.
Context {rt : GoRuntime} {codec : JSONCodec}.
Import OS OSFacts StoreFacts DeleteFacts AliasFacts FrameFacts.

(** [Get] reads the bucket directory's own entry and the state at and
    below the object directory only. *)
Lemma Get_agree_object (s : Storage) (fs fs' : FS) (bucket key : string) (pb : list string) :
  let hash := Sha256Hash (Bytes.of_string key) in
  walk fs (bucket_path s bucket) (inl []) = inl pb ->
  walk fs' (bucket_path s bucket) (inl []) = inl pb ->
  node_at fs' pb = node_at fs pb ->
  (forall q, (pb ++ [hash]) `prefix_of` q -> fs' !! q = fs !! q) ->
  Get s fs' bucket key = Get s fs bucket key.
Proof.
  intros hash Hw Hw' Hn Hag. pose proof (Sha256Hash_plain (Bytes.of_string key)) as Hh.
  fold hash in Hh.
  assert (Hd : is_dir fs' pb = is_dir fs pb) by (unfold is_dir; rewrite Hn; reflexivity).
  assert (Hph : fs' !! (pb ++ [hash]) = fs !! (pb ++ [hash])) by (apply Hag; reflexivity).
  assert (Hdh : is_dir fs' (pb ++ [hash]) = is_dir fs (pb ++ [hash]))
    by (symmetry; apply is_dir_agree; symmetry; exact Hph).
  assert (Hf : forall c, fs' !! ((pb ++ [hash]) ++ [c]) = fs !! ((pb ++ [hash]) ++ [c])).
  { intros c. apply Hag. apply prefix_app_r. reflexivity. }
  unfold Get. fold hash.
  rewrite (existPath_bucket s fs' bucket), (existPath_bucket s fs bucket), Hw, Hw', Hn.
  destruct (node_at fs pb); simpl; [| reflexivity].
  rewrite (existPath_object _ fs' _ _ _ Hh Hw'), (existPath_object _ fs _ _ _ Hh Hw), Hd, Hph.
  destruct (is_dir fs pb) eqn:Hdb; simpl; [| reflexivity].
  destruct (fs !! (pb ++ [hash])) as [n'|] eqn:E; simpl; [| reflexivity].
  pose proof (walk_object s fs bucket _ pb n' Hh Hw Hdb E) as Hwo.
  pose proof (walk_object s fs' bucket _ pb n' Hh Hw' Hd Hph) as Hwo'.
  change "/metadata.json" with (String "/" "metadata.json").
  change "/body" with (String "/" "body").
  rewrite !(ReadFile_entry _ _ _ _ plain_body Hwo), !(ReadFile_entry _ _ _ _ plain_body Hwo'),
    !(ReadFile_entry _ _ _ _ plain_metadata Hwo), !(ReadFile_entry _ _ _ _ plain_metadata Hwo').
  rewrite Hdh, !Hf. reflexivity.
Qed.

(** [Put] changes the state at and below the object directory only. *)
Lemma Put_outside_object (s : Storage) (fs : FS) (bucket key : string) (body : list Z)
    (now : Z) (pb : list string) :
  walk fs (bucket_path s bucket) (inl []) = inl pb ->
  same_outside (pb ++ [Sha256Hash (Bytes.of_string key)]) fs
    (Put s fs bucket key body now).1.
Proof.
  intros Hw. pose proof (Sha256Hash_plain (Bytes.of_string key)) as Hh.
  rewrite Put_unfold, existPath_bucket, Hw.
  destruct (node_at fs pb); simpl; [| apply same_outside_refl].
  rewrite (MkdirAll_object _ _ _ _ _ Hh Hw).
  destruct (is_dir fs pb) eqn:Hd; simpl; [| apply same_outside_refl].
  destruct (fs !! (pb ++ [Sha256Hash (Bytes.of_string key)])) as [[|d]|] eqn:E.
  - exact (proj1 (put_files_outside s fs bucket key body now pb Hw Hd E)).
  - apply same_outside_refl.
  - assert (He0 : extends fs (<[pb ++ [Sha256Hash (Bytes.of_string key)] := Dir]> fs))
      by (apply extends_insert; congruence).
    destruct (put_files_outside s _ bucket key body now pb
                (extends_walk _ _ _ _ _ He0 Hw) (extends_is_dir _ _ _ He0 Hd)
                (lookup_insert_eq _ _ _)) as [Ho _].
    eapply same_outside_trans; [apply same_outside_insert; reflexivity | exact Ho].
Qed.

(** [Delete] changes the state at and below the object directory only. *)
Lemma Delete_outside_object (s : Storage) (fs : FS) (bucket key : string) (pb : list string) :
  walk fs (bucket_path s bucket) (inl []) = inl pb ->
  same_outside (pb ++ [Sha256Hash (Bytes.of_string key)]) fs (Delete s fs bucket key).1.
Proof.
  intros Hw. pose proof (Sha256Hash_plain (Bytes.of_string key)) as Hh.
  destruct (existPath s fs bucket) eqn:Hb;
    [| unfold Delete; rewrite Hb; apply same_outside_refl].
  destruct (existPath s fs (bucket +:+ "/" +:+ Sha256Hash (Bytes.of_string key))) eqn:Ho;
    [| unfold Delete; rewrite Hb, Ho; apply same_outside_refl].
  destruct (Delete_existing s fs bucket key Hb Ho) as (p & Hr & ->). simpl.
  rewrite (resolve_object _ _ _ _ Hh), Hw, (step_plain _ _ _ Hh) in Hr.
  destruct (is_dir fs pb); simpl in Hr; [| discriminate].
  destruct (fs !! (pb ++ [Sha256Hash (Bytes.of_string key)])); [| discriminate].
  injection Hr as <-. intros q Hq. rewrite filter_below_lookup.
  destruct (decide _) as [Hc|_]; [contradiction | reflexivity].
Qed.

Lemma same_outside_node (fs fs' : FS) (pb : list string) (c : string) :
  same_outside (pb ++ [c]) fs fs' -> node_at fs' pb = node_at fs pb.
Proof.
  intros Ho. unfold node_at. destruct pb as [|x pb]; [reflexivity |].
  apply Ho. apply (snoc_not_prefix (x :: pb)). reflexivity.
Qed.

End KeyFacts.

Section KeyProperties.
Context {rt : GoRuntime} {codec : JSONCodec}.
Import OS OSFacts StoreFacts DeleteFacts AliasFacts FrameFacts.

(** X8.  Objects of one bucket do not interfere.  For two keys with
    different SHA-256 hashes, a [Put] under the first key changes the
    result of no [Get] under the second key in the same bucket, in any
    state and whether the [Put] succeeds or not; and neither does a
    [Delete] of the first key, for a bucket name the naming rules accept
    in a store whose root is written without [".."]. *)
Theorem keys_of_a_bucket_do_not_interfere (s : Storage) (fs : FS)
    (bucket key1 key2 : string) (body : list Z) (now : Z) :
  Sha256Hash (Bytes.of_string key1) <> Sha256Hash (Bytes.of_string key2) ->
  Get s (Put s fs bucket key1 body now).1 bucket key2 = Get s fs bucket key2
  /\ (no_dotdot (path s) = true -> validName bucket = None ->
      Get s (Delete s fs bucket key1).1 bucket key2 = Get s fs bucket key2).
Proof.
  intros Hne.
  destruct (walk fs (bucket_path s bucket) (inl [])) as [pb|e] eqn:Hw.
  - split.
    + pose proof (Put_outside_object s fs bucket key1 body now pb Hw) as Ho.
      destruct (Put_outside s fs bucket key1 body now pb Hw) as [_ He].
      apply (Get_agree_object s fs _ bucket key2 pb Hw (extends_walk _ _ _ _ _ He Hw)).
      * exact (same_outside_node _ _ _ _ Ho).
      * intros q Hq. apply Ho.
        exact (snoc_prefix_distinct pb q _ _ (not_eq_sym Hne) Hq).
    + intros Hs Hv. apply validName_plain in Hv.
      pose proof (Delete_outside_object s fs bucket key1 pb Hw) as Ho.
      apply (Get_agree_object s fs _ bucket key2 pb Hw).
      * apply (walk_agree fs); [exact (no_dotdot_bucket _ _ Hs Hv) | | exact Hw].
        intros p Hp. symmetry. apply Ho, snoc_not_prefix, Hp.
      * exact (same_outside_node _ _ _ _ Ho).
      * intros q Hq. apply Ho.
        exact (snoc_prefix_distinct pb q _ _ (not_eq_sym Hne) Hq).
  - assert (E : existPath s fs bucket = false) by (rewrite existPath_bucket, Hw; reflexivity).
    split.
    + unfold Put at 1. rewrite E. reflexivity.
    + intros _ _. unfold Delete at 1. rewrite E. reflexivity.
Qed.

End KeyProperties.

Section BucketFacts.
Context {rt : GoRuntime} {codec : JSONCodec}.
Import OS OSFacts StoreFacts DeleteFacts AliasFacts FrameFacts.

(** [NewBucket] in a state whose root resolves. *)
Lemma NewBucket_cases (s : Storage) (fs : FS) (name : string) (pr : list string) :
  walk fs (Strings.Split (path s) "/") (inl []) = inl pr ->
  NewBucket s fs name
  = match validName name with
    | Some err => (fs, Some err)
    | None =>
        if negb (is_dir fs pr) then
          (fs, Some (PathError "mkdir" (path s +:+ "/" +:+ name) ENOTDIR))
        else match fs !! (pr ++ [name]) with
             | Some _ => (fs, Some BucketAlreadyExists)
             | None => (<[pr ++ [name] := Dir]> fs, None)
             end
    end.
Proof.
  intros Hr. unfold NewBucket.
  destruct (validName name) eqn:Hv; [reflexivity |]. apply validName_plain in Hv.
  pose proof (bucket_path_plain s name Hv) as Hbp.
  rewrite existPath_bucket, Hbp, walk_snoc, Hr, (step_plain _ _ _ Hv).
  unfold MkdirAll. fold (bucket_path s name).
  rewrite eqb_append_slash, Hbp, mkdir_fold_snoc, (mkdir_walk _ _ _ _ Hr).
  destruct (plain_special _ Hv) as (E1 & E2 & E3). unfold mkdir_step.
  destruct (is_dir fs pr) eqn:Hd; simpl; [| reflexivity].
  rewrite E1, E2, E3. simpl.
  destruct (fs !! (pr ++ [name])) as [n|] eqn:En.
  - rewrite node_at_snoc, En. reflexivity.
  - unfold is_dir. rewrite node_at_snoc, lookup_insert_eq. reflexivity.
Qed.


(** X9.  In a state where the store root resolves, a [NewBucket] that
    reports no error has added exactly one entry, a directory named by
    the bucket directly under the root, where nothing was before.
    Creating the same bucket again then fails with the conflict error
    and changes nothing; and when every entry of the state before lay in
    a directory, the new bucket is empty: [Get] fails with the
    object-not-found error for every key. *)
Theorem NewBucket_creates_one_empty_bucket (s : Storage) (fs fs1 : FS) (name : string)
    (pr : list string) :
  walk fs (Strings.Split (path s) "/") (inl []) = inl pr ->
  NewBucket s fs name = (fs1, None) ->
  fs !! (pr ++ [name]) = None
  /\ fs1 = <[pr ++ [name] := Dir]> fs
  /\ NewBucket s fs1 name = (fs1, Some BucketAlreadyExists)
  /\ (well_formed fs -> forall key, Get s fs1 name key = Err ObjectNotFound).
Proof.
  intros Hr HN. rewrite (NewBucket_cases s fs name pr Hr) in HN.
  destruct (validName name) eqn:Hv; [discriminate |].
  destruct (is_dir fs pr) eqn:Hd; simpl in HN; [| discriminate].
  destruct (fs !! (pr ++ [name])) eqn:En; [discriminate |].
  injection HN as <-. set (fs1 := <[pr ++ [name] := Dir]> fs).
  assert (Hx : extends fs fs1) by (apply extends_insert; congruence).
  pose proof (extends_walk _ _ _ _ _ Hx Hr) as Hr1.
  pose proof (validName_plain _ Hv) as Hp.
  assert (Hw1 : walk fs1 (bucket_path s name) (inl []) = inl (pr ++ [name])).
  { rewrite (bucket_path_plain _ _ Hp), walk_snoc, Hr1, (step_plain _ _ _ Hp),
      (extends_is_dir _ _ _ Hx Hd). simpl. unfold fs1. rewrite lookup_insert_eq. reflexivity. }
  assert (Hn1 : fs1 !! (pr ++ [name]) = Some Dir) by apply lookup_insert_eq.
  split; [reflexivity |]. split; [reflexivity |]. split.
  - rewrite (NewBucket_cases s fs1 name pr Hr1), Hv, (extends_is_dir _ _ _ Hx Hd), Hn1.
    reflexivity.
  - intros Hwf key. pose proof (Sha256Hash_plain (Bytes.of_string key)) as Hh.
    unfold Get. rewrite existPath_bucket, Hw1, node_at_snoc, Hn1. cbn [negb].
    rewrite (existPath_object _ _ _ _ _ Hh Hw1).
    assert (E : fs1 !! ((pr ++ [name]) ++ [Sha256Hash (Bytes.of_string key)]) = None).
    { unfold fs1. rewrite lookup_insert_ne by (symmetry; apply snoc_neq_self).
      apply well_formed_below; [exact Hwf | exact En | apply snoc_not_nil]. }
    rewrite E, andb_false_r. reflexivity.
Qed.

(** X10.  Creating a bucket changes nothing another bucket holds.  In
    a state where the store root resolves, [NewBucket(name)], successful
    or not, changes the result of no [Get] on a bucket with another name
    that the naming rules accept. *)
Theorem NewBucket_leaves_other_buckets_alone (s : Storage) (fs : FS) (name B key : string)
    (pr : list string) :
  walk fs (Strings.Split (path s) "/") (inl []) = inl pr ->
  validName B = None -> B <> name ->
  Get s (NewBucket s fs name).1 B key = Get s fs B key.
Proof.
  intros Hr HB Hne. rewrite (NewBucket_cases s fs name pr Hr).
  destruct (validName name) eqn:Hv; [reflexivity |].
  destruct (is_dir fs pr) eqn:Hd; simpl; [| reflexivity].
  destruct (fs !! (pr ++ [name])) eqn:En; [reflexivity |]. simpl.
  assert (Hx : extends fs (<[pr ++ [name] := Dir]> fs))
    by (apply extends_insert; congruence).
  apply (Get_other_bucket s fs _ name B key pr (validName_plain _ Hv) (validName_plain _ HB)
           (not_eq_sym Hne) Hr (extends_walk _ _ _ _ _ Hx Hr)).
  apply same_outside_insert. reflexivity.
Qed.

End BucketFacts.

Section PutAgain.
Context {rt : GoRuntime} {codec : JSONCodec}.
Import OS OSFacts StoreFacts DeleteFacts AliasFacts FrameFacts.

(** [Put] succeeds when the bucket is a directory and nothing stands in
    the way of the object directory and its two files. *)
Lemma Put_succeeds (s : Storage) (fs : FS) (bucket key : string) (body : list Z) (now : Z)
    (pb : list string) :
  let ph := pb ++ [Sha256Hash (Bytes.of_string key)] in
  marshals codec ->
  walk fs (bucket_path s bucket) (inl []) = inl pb ->
  is_dir fs pb = true ->
  (forall d, fs !! ph <> Some (File d)) ->
  fs !! (ph ++ ["metadata.json"]) <> Some Dir ->
  fs !! (ph ++ ["body"]) <> Some Dir ->
  exists fs', Put s fs bucket key body now = (fs', None).
Proof.
  intros ph Hm Hw Hd Hph Hmeta Hbody.
  pose proof (Sha256Hash_plain (Bytes.of_string key)) as Hh.
  set (hash := Sha256Hash (Bytes.of_string key)) in *.
  rewrite Put_unfold, existPath_bucket, Hw, (is_dir_node _ _ Hd). cbn [negb]. cbv zeta.
  fold hash. rewrite (MkdirAll_object _ _ _ _ _ Hh Hw), Hd. cbn [negb]. fold ph.
  assert (Hgen : forall fs2,
             walk fs2 (bucket_path s bucket) (inl []) = inl pb ->
             is_dir fs2 pb = true ->
             fs2 !! ph = Some Dir ->
             fs2 !! (ph ++ ["metadata.json"]) <> Some Dir ->
             fs2 !! (ph ++ ["body"]) <> Some Dir ->
             exists fs',
               put_files (path s +:+ "/" +:+ bucket +:+ "/" +:+ hash) fs2 key body now
               = (fs', None)).
  { clear fs Hw Hd Hph Hmeta Hbody. intros fs2 Hw Hd Hph Hmeta Hbody.
    pose proof (walk_object s fs2 bucket hash pb Dir Hh Hw Hd Hph) as Hwo.
    assert (Hdh : is_dir fs2 ph = true).
    { unfold is_dir, ph. rewrite node_at_snoc. fold ph. rewrite Hph. reflexivity. }
    unfold put_files.
    destruct (Hm {| ContentHash := Sha256Hash body;
                    ContentSize := Z.of_nat (length body);
                    OriginalKey := key; LastModified := now |}) as (mb & ->).
    change "/metadata.json" with (String "/" "metadata.json").
    change "/body" with (String "/" "body").
    rewrite (WriteFile_child _ _ _ _ _ plain_metadata Hwo). fold ph. rewrite Hdh. cbn [negb].
    set (fs3 := <[ph ++ ["metadata.json"] := File mb]> fs2).
    assert (E3 : (match fs2 !! (ph ++ ["metadata.json"]) with
                  | Some Dir =>
                      (fs2, Some (PathError "open"
                                    ((path s +:+ "/" +:+ bucket +:+ "/" +:+ hash)
                                     +:+ String "/" "metadata.json") EISDIR))
                  | _ => (fs3, None)
                  end) = (fs3, None)).
    { destruct (fs2 !! (ph ++ ["metadata.json"])) as [[|d]|]; congruence. }
    rewrite E3.
    assert (Hx3 : extends fs2 fs3).
    { apply extends_insert. intros H. contradiction. }
    rewrite (WriteFile_child _ _ _ _ _ plain_body (extends_walk _ _ _ _ _ Hx3 Hwo)).
    fold ph. rewrite (extends_is_dir _ _ _ Hx3 Hdh). cbn [negb].
    assert (Hb3 : fs3 !! (ph ++ ["body"]) <> Some Dir).
    { unfold fs3. rewrite lookup_insert_ne by (intros H; apply snoc_inj in H; discriminate).
      exact Hbody. }
    destruct (fs3 !! (ph ++ ["body"])) as [[|d]|]; [congruence | eauto | eauto]. }
  destruct (fs !! ph) as [[|d]|] eqn:E.
  - apply Hgen; assumption.
  - exfalso. exact (Hph d eq_refl).
  - assert (Hx : extends fs (<[ph := Dir]> fs)) by (apply extends_insert; congruence).
    apply Hgen.
    + exact (extends_walk _ _ _ _ _ Hx Hw).
    + exact (extends_is_dir _ _ _ Hx Hd).
    + apply lookup_insert_eq.
    + rewrite lookup_insert_ne by (symmetry; apply snoc_neq_self). exact Hmeta.
    + rewrite lookup_insert_ne by (symmetry; apply snoc_neq_self). exact Hbody.
Qed.

End PutAgain.

Section PutAgainProperties.
Context {rt : GoRuntime} {codec : JSONCodec}.
Import OS OSFacts StoreFacts DeleteFacts AliasFacts FrameFacts.

(** X11.  An object that was stored can always be overwritten.  After a
    [Put] that reported no error, every further [Put] under the same
    bucket and key, with any body and at any time, reports no error, and
    [Get] then returns the new body. *)
Theorem stored_object_can_be_overwritten (s : Storage) (fs fs' : FS) (bucket key : string)
    (body : list Z) (now : Z) :
  marshals codec -> reads_back codec ->
  Put s fs bucket key body now = (fs', None) ->
  forall body2 now2,
    exists fs'', Put s fs' bucket key body2 now2 = (fs'', None)
                 /\ Get s fs'' bucket key = Ok body2.
Proof.
  intros Hm Hrb HP body2 now2.
  destruct (Put_success _ _ _ _ _ _ _ HP) as (pb & (mb & [Hw Hd Hph Hb Hmd Hj]) & _).
  destruct (Put_succeeds s fs' bucket key body2 now2 pb Hm Hw Hd) as (fs'' & HP2);
    try congruence.
  exists fs''. split; [exact HP2 |].
  destruct (Put_success _ _ _ _ _ _ _ HP2) as (pb2 & (mb2 & Hst) & _).
  exact (Get_after_stored Hrb _ _ _ _ _ _ _ _ Hst).
Qed.

(** X12.  A key that was deleted can be stored again.  For a bucket
    name the naming rules accept, in a store whose root is written
    without [".."]: after a [Delete] that reported no error, a [Put]
    under the same bucket and key reports no error, and [Get] then
    returns its body. *)
Theorem deleted_key_can_be_stored_again (s : Storage) (fs fs' : FS) (bucket key : string) :
  marshals codec -> reads_back codec ->
  no_dotdot (path s) = true -> validName bucket = None ->
  Delete s fs bucket key = (fs', None) ->
  forall body now,
    exists fs'', Put s fs' bucket key body now = (fs'', None)
                 /\ Get s fs'' bucket key = Ok body.
Proof.
  intros Hm Hrb Hs Hv HD body now. apply validName_plain in Hv.
  pose proof (Sha256Hash_plain (Bytes.of_string key)) as Hh.
  destruct (existPath s fs bucket) eqn:Hb;
    [| unfold Delete in HD; rewrite Hb in HD; discriminate HD].
  destruct (existPath s fs (bucket +:+ "/" +:+ Sha256Hash (Bytes.of_string key))) eqn:Ho;
    [| unfold Delete in HD; rewrite Hb, Ho in HD; discriminate HD].
  destruct (Delete_existing s fs bucket key Hb Ho) as (p & Hr & HD').
  rewrite HD' in HD. injection HD as <-.
  rewrite existPath_bucket in Hb.
  destruct (walk fs (bucket_path s bucket) (inl [])) as [pb|e] eqn:Hw; [| discriminate].
  rewrite (existPath_object _ _ _ _ _ Hh Hw) in Ho.
  apply andb_prop in Ho as [Hd _].
  rewrite (resolve_object _ _ _ _ Hh), Hw, (step_plain _ _ _ Hh), Hd in Hr. simpl in Hr.
  destruct (fs !! (pb ++ [Sha256Hash (Bytes.of_string key)])); [| discriminate].
  injection Hr as <-.
  set (ph := pb ++ [Sha256Hash (Bytes.of_string key)]) in *.
  set (fs' := filter (fun kv => ¬ ph `prefix_of` kv.1) fs).
  assert (Hag : forall q, q `prefix_of` pb -> fs !! q = fs' !! q).
  { intros q Hq. unfold fs'. rewrite filter_below_lookup.
    destruct (decide _) as [Hc|_]; [| reflexivity].
    exfalso. exact (prefix_longer _ _ _ Hq Hc). }
  pose proof (walk_agree fs fs' _ _ _ (no_dotdot_bucket _ _ Hs Hv) Hag Hw) as Hw'.
  assert (Hd' : is_dir fs' pb = true).
  { rewrite <- Hd. symmetry. unfold is_dir, node_at. destruct pb; [reflexivity |].
    rewrite (Hag (_ :: _)) by reflexivity. reflexivity. }
  assert (Hgone : forall q, fs' !! (ph ++ q) = None).
  { intros q. unfold fs'. rewrite filter_below_lookup.
    destruct (decide _) as [_|Hc]; [reflexivity |].
    exfalso. apply Hc. apply prefix_app_r. reflexivity. }
  destruct (Put_succeeds s fs' bucket key body now pb Hm Hw' Hd') as (fs'' & HP).
  - intros d. fold ph. rewrite <- (app_nil_r ph), Hgone. discriminate.
  - fold ph. rewrite Hgone. discriminate.
  - fold ph. rewrite Hgone. discriminate.
  - exists fs''. split; [exact HP |].
    destruct (Put_success _ _ _ _ _ _ _ HP) as (pb2 & (mb2 & Hst) & _).
    exact (Get_after_stored Hrb _ _ _ _ _ _ _ _ Hst).
Qed.

End PutAgainProperties.

(** ** Names that look like IP addresses *)

Module OctetFacts.

Lemma itoa_octet (n : Z) : 0 <= n <= 255 -> octet (JSON.itoa n) = true.
Proof.
  intros H.
  assert (E : forallb (fun k => octet (JSON.itoa (Z.of_nat k))) (seq 0 256) = true)
    by (vm_compute; reflexivity).
  rewrite forallb_forall in E. rewrite <- (Z2Nat.id n) by lia. apply E.
  apply in_seq. lia.
Qed.

Lemma digit_range (c : Z) : JSON.is_digit c = true -> 0x30 <= c <= 0x39.
Proof. unfold JSON.is_digit, UTF8.between. lia. Qed.

Ltac ip_step :=
  match goal with
  | |- context [Z.leb ?a ?b] => destruct (Z.leb_spec a b); try lia
  | |- context [Z.ltb ?a ?b] => destruct (Z.ltb_spec a b); try lia
  | |- context [Z.eqb ?a ?b] => destruct (Z.eqb_spec a b); try lia
  end; cbn [andb orb negb Nat.eqb Net.parseIPv4Fields].

Lemma octet_inv (ds : list Z) :
  octet ds = true ->
  (exists d1, ds = [d1] /\ 0x30 <= d1 <= 0x39)
  \/ (exists d1 d2, ds = [d1; d2] /\ 0x31 <= d1 <= 0x39 /\ 0x30 <= d2 <= 0x39)
  \/ (exists d1 d2 d3, ds = [d1; d2; d3] /\ 0x31 <= d1 <= 0x39 /\ 0x30 <= d2 <= 0x39
        /\ 0x30 <= d3 <= 0x39 /\ (d1 - 0x30) * 100 + (d2 - 0x30) * 10 + (d3 - 0x30) <= 255).
Proof.
  destruct ds as [|d1 [|d2 [|d3 [|d4 ds]]]]; cbn [octet]; try discriminate;
    unfold JSON.is_digit, UTF8.between; intros H.
  - left. exists d1. split; [reflexivity | lia].
  - right. left. exists d1, d2. split; [reflexivity | lia].
  - right. right. exists d1, d2, d3. split; [reflexivity | lia].
Qed.

Lemma field_then_dot (ds r : list Z) (pos : nat) (fst pd : bool) :
  octet ds = true -> r <> [] -> (pos <> 3)%nat ->
  Net.parseIPv4Fields (ds ++ 0x2E :: r) 0 pos 0%nat fst pd
  = Net.parseIPv4Fields r 0 (S pos) 0%nat false true.
Proof.
  intros Ho Hr Hp.
  assert (Hp' : (pos =? 3)%nat = false) by now apply Nat.eqb_neq.
  assert (Hr' : match r with [] => true | _ => false end = false) by (destruct r; congruence).
  destruct (octet_inv _ Ho) as [(d1 & -> & H1) | [(d1 & d2 & -> & H1 & H2)
                                 | (d1 & d2 & d3 & -> & H1 & H2 & H3 & H4)]];
    cbn [app Net.parseIPv4Fields]; repeat ip_step; rewrite ?Hr', ?Hp'; reflexivity.
Qed.

Lemma field_at_end (ds : list Z) (pos : nat) (fst pd : bool) :
  octet ds = true ->
  Net.parseIPv4Fields ds 0 pos 0%nat fst pd = negb (pos <? 3)%nat.
Proof.
  intros Ho.
  destruct (octet_inv _ Ho) as [(d1 & -> & H1) | [(d1 & d2 & -> & H1 & H2)
                                 | (d1 & d2 & d3 & -> & H1 & H2 & H3 & H4)]];
    cbn [app Net.parseIPv4Fields]; repeat ip_step; reflexivity.
Qed.

End OctetFacts.

Module DottedFacts.
Import OctetFacts.

Lemma ip_byte_range (c : Z) : ip_byte c = true -> 0 <= c < 0x80.
Proof. unfold ip_byte, JSON.is_digit, UTF8.between. lia. Qed.

Lemma byte_of_ascii_of_byte (c : Z) : in_range c -> Bytes.byte_of_ascii (Bytes.ascii_of_byte c) = c.
Proof.
  unfold in_range, Bytes.byte_of_ascii, Bytes.ascii_of_byte. intros H.
  rewrite N_ascii_embedding.
  - rewrite Z2N.id; [apply Z.mod_small; lia | apply Z.mod_pos_bound; lia].
  - apply N2Z.inj_lt. rewrite Z2N.id by (apply Z.mod_pos_bound; lia).
    change (Z.of_N 256) with 256. apply Z.mod_pos_bound. lia.
Qed.

Lemma of_string_to_string (l : list Z) :
  Forall in_range l -> Bytes.of_string (Bytes.to_string l) = l.
Proof.
  induction 1 as [|c l Hc _ IH]; [reflexivity |]. simpl.
  now rewrite (byte_of_ascii_of_byte _ Hc), IH.
Qed.

Lemma to_string_length (l : list Z) : String.length (Bytes.to_string l) = length l.
Proof. induction l as [|c l IH]; [reflexivity |]. simpl. now rewrite IH. Qed.

Lemma runes_fuel_all_ascii (n : nat) (l : list Z) :
  Forall (fun c => c < UTF8.RuneSelf) l -> (length l <= n)%nat -> UTF8.runes_fuel n l = l.
Proof.
  revert l. induction n as [|n IH]; intros l Hl Hn.
  - destruct l; [reflexivity | simpl in Hn; lia].
  - destruct l as [|c l]; [reflexivity |]. inversion Hl as [|? ? Hc Hl']; subst.
    change (UTF8.runes_fuel (S n) (c :: l))
      with (let '(rn, size) := UTF8.DecodeRune (c :: l) in
            rn :: UTF8.runes_fuel n (skipn size (c :: l))).
    rewrite (UTF8Facts.DecodeRune_ascii _ _ Hc). change (skipn 1 (c :: l)) with l.
    rewrite IH; [reflexivity | exact Hl' | simpl in Hn; lia].
Qed.

Lemma octet_digits (ds : list Z) : octet ds = true -> Forall (fun c => JSON.is_digit c = true) ds.
Proof.
  intros Ho.
  destruct (octet_inv _ Ho) as [(d1 & -> & H1) | [(d1 & d2 & -> & H1 & H2)
                                 | (d1 & d2 & d3 & -> & H1 & H2 & H3 & H4)]];
    repeat constructor; unfold JSON.is_digit, UTF8.between; lia.
Qed.

Lemma octet_length (ds : list Z) : octet ds = true -> (1 <= length ds <= 3)%nat.
Proof.
  intros Ho.
  destruct (octet_inv _ Ho) as [(d1 & -> & H1) | [(d1 & d2 & -> & H1 & H2)
                                 | (d1 & d2 & d3 & -> & H1 & H2 & H3 & H4)]]; simpl; lia.
Qed.

Lemma adjacent_dots_digits (ds r : list Z) :
  Forall (fun c => JSON.is_digit c = true) ds -> adjacent_dots (ds ++ r) = adjacent_dots r.
Proof.
  induction 1 as [|d ds Hd _ IH]; [reflexivity |].
  change ((d :: ds) ++ r) with (d :: (ds ++ r)). cbn [adjacent_dots].
  destruct (ds ++ r) as [|b t] eqn:E.
  - rewrite <- IH. reflexivity.
  - rewrite IH. apply digit_range in Hd.
    destruct (Z.eqb_spec d 0x2E); [lia | reflexivity].
Qed.

Lemma adjacent_dots_dot (ds r : list Z) :
  octet ds = true -> adjacent_dots (0x2E :: ds ++ r) = adjacent_dots r.
Proof.
  intros Ho. pose proof (octet_digits _ Ho) as Hd. pose proof (octet_length _ Ho) as Hl.
  destruct ds as [|d ds]; [simpl in Hl; lia |].
  change (adjacent_dots (0x2E :: (d :: ds) ++ r))
    with ((0x2E =? 0x2E) && (d =? 0x2E) || adjacent_dots ((d :: ds) ++ r)).
  rewrite (adjacent_dots_digits _ _ Hd).
  inversion Hd as [|? ? H1 _]; subst. apply digit_range in H1.
  destruct (Z.eqb_spec d 0x2E); [lia | reflexivity].
Qed.

Lemma prefix_dots (a b : Z) (r : list Z) :
  in_range a -> in_range b ->
  String.prefix ".." (Bytes.to_string (a :: b :: r)) = (a =? 0x2E) && (b =? 0x2E).
Proof.
  intros Ha Hb. cbn [Bytes.to_string String.prefix].
  destruct (Z.eqb_spec a 0x2E) as [->|Hne].
  - change (Bytes.ascii_of_byte 0x2E) with "."%char.
    destruct (ascii_dec "." "."); [| congruence].
    destruct (Z.eqb_spec b 0x2E) as [->|Hne].
    + change (Bytes.ascii_of_byte 0x2E) with "."%char.
      destruct (ascii_dec "." "."); [| congruence]. now destruct (Bytes.to_string r).
    + destruct (ascii_dec "." (Bytes.ascii_of_byte b)) as [E|_]; [| reflexivity].
      exfalso. apply Hne. rewrite <- (byte_of_ascii_of_byte b Hb), <- E. reflexivity.
  - destruct (ascii_dec "." (Bytes.ascii_of_byte a)) as [E|_]; [| reflexivity].
    exfalso. apply Hne. rewrite <- (byte_of_ascii_of_byte a Ha), <- E. reflexivity.
Qed.

Lemma Contains_dots (l : list Z) :
  Forall in_range l -> Strings.Contains (Bytes.to_string l) ".." = adjacent_dots l.
Proof.
  induction 1 as [|a l Ha Hl IH]; [reflexivity |].
  change (Strings.Contains (Bytes.to_string (a :: l)) "..")
    with (String.prefix ".." (Bytes.to_string (a :: l))
          || Strings.Contains (Bytes.to_string l) "..").
  rewrite IH. destruct l as [|b r].
  - cbn [Bytes.to_string String.prefix adjacent_dots].
    destruct (ascii_dec "." (Bytes.ascii_of_byte a)); reflexivity.
  - inversion Hl; subst. rewrite (prefix_dots a b r Ha) by assumption. reflexivity.
Qed.

Lemma dispatch_digits {rt : GoRuntime} (whole : string) (ds r : list Z) :
  Forall (fun c => JSON.is_digit c = true) ds ->
  Net.dispatch whole (ds ++ 0x2E :: r) = Net.parseIPv4 whole.
Proof.
  induction 1 as [|d ds Hd _ IH]; [reflexivity |].
  change ((d :: ds) ++ 0x2E :: r) with (d :: (ds ++ 0x2E :: r)). cbn [Net.dispatch].
  apply digit_range in Hd.
  destruct (Z.eqb_spec d 0x2E); [lia |]. destruct (Z.eqb_spec d 0x3A); [lia |].
  destruct (Z.eqb_spec d 0x25); [lia |]. exact IH.
Qed.

End DottedFacts.

Section IPRule.
Context {rt : GoRuntime}.
Import OctetFacts DottedFacts.

Lemma ip_byte_allowed (c : Z) : ip_byte c = true -> allowed_rune c = true.
Proof.
  intros H. rewrite allowed_rune_ascii by (apply ip_byte_range, H).
  unfold ip_byte, JSON.is_digit in H. unfold in_class.
  apply orb_prop in H as [H | H]; rewrite H; rewrite ?orb_true_r; reflexivity.
Qed.

Lemma digit_IsDigit (c : Z) : JSON.is_digit c = true -> Unicode.IsDigit c = true.
Proof.
  intros H. pose proof (digit_range _ H). unfold Unicode.IsDigit, Unicode.MaxLatin1.
  destruct (Z.leb_spec 0 c); [| lia]. destruct (Z.leb_spec c 0xFF); [| lia]. exact H.
Qed.

(** X13.  Every dotted quad is turned down.  The decimal text of four
    numbers from 0 to 255 with dots between, such as [192.168.5.4],
    passes the length, character, first, last and adjacent-period rules
    and is rejected by [validName] as formatted like an IP address,
    whatever the Unicode tables and the IPv6 parser of the runtime. *)
Theorem validName_rejects_every_IPv4_address (a b c d : Z) :
  0 <= a <= 255 -> 0 <= b <= 255 -> 0 <= c <= 255 -> 0 <= d <= 255 ->
  validName (dotted_quad a b c d)
  = Some (Error_ "bucket name can not be formatted as an IP address" StatusBadRequest).
Proof.
  intros Ha Hb Hc Hd. unfold dotted_quad.
  pose proof (itoa_octet a Ha) as Oa. pose proof (itoa_octet b Hb) as Ob.
  pose proof (itoa_octet c Hc) as Oc. pose proof (itoa_octet d Hd) as Od.
  generalize dependent (JSON.itoa a). intros da Oa. clear Ha.
  generalize dependent (JSON.itoa b). intros db Ob. clear Hb.
  generalize dependent (JSON.itoa c). intros dc Oc. clear Hc.
  generalize dependent (JSON.itoa d). intros dd Od. clear Hd.
  set (l := da ++ 0x2E :: db ++ 0x2E :: dc ++ 0x2E :: dd).
  pose proof (octet_digits _ Oa) as Da. pose proof (octet_digits _ Ob) as Db.
  pose proof (octet_digits _ Oc) as Dc. pose proof (octet_digits _ Od) as Dd.
  pose proof (octet_length _ Oa) as La. pose proof (octet_length _ Ob) as Lb.
  pose proof (octet_length _ Oc) as Lc. pose proof (octet_length _ Od) as Ld.
  assert (Hip : Forall (fun c => ip_byte c = true) l).
  { assert (Hdig : forall ds, Forall (fun c => JSON.is_digit c = true) ds ->
                              Forall (fun c => ip_byte c = true) ds).
    { intros ds H. eapply Forall_impl; [exact H |]. intros x Hx. unfold ip_byte.
      simpl in Hx. now rewrite Hx. }
    unfold l. apply Forall_app. split; [auto |]. apply Forall_cons. split; [reflexivity |].
    apply Forall_app. split; [auto |]. apply Forall_cons. split; [reflexivity |].
    apply Forall_app. split; [auto |]. apply Forall_cons. split; [reflexivity | auto]. }
  assert (Hrange : Forall in_range l).
  { eapply Forall_impl; [exact Hip |]. intros x Hx. apply ip_byte_range in Hx.
    unfold in_range. lia. }
  assert (Hascii : Forall (fun c => c < UTF8.RuneSelf) l).
  { eapply Forall_impl; [exact Hip |]. intros x Hx. apply ip_byte_range in Hx.
    unfold UTF8.RuneSelf. lia. }
  assert (Hlen : (7 <= length l <= 15)%nat).
  { unfold l. rewrite !length_app. cbn [length]. rewrite !length_app. cbn [length].
    rewrite !length_app. cbn [length]. lia. }
  assert (Hbytes : Bytes.of_string (Bytes.to_string l) = l) by now apply of_string_to_string.
  unfold validName, bad_request.
  rewrite to_string_length.
  destruct (Nat.ltb_spec (length l) 3); [lia |].
  destruct (Nat.ltb_spec 63 (length l)); [lia |].
  unfold UTF8.runes, first_byte, last_byte. rewrite Hbytes.
  rewrite (runes_fuel_all_ascii _ _ Hascii) by lia.
  assert (Hall : forallb allowed_rune l = true).
  { apply forallb_forall. intros x Hx. apply ip_byte_allowed.
    rewrite Forall_forall in Hip. apply Hip. now apply list_elem_of_In. }
  rewrite Hall. cbn [negb].
  assert (Hfirst : Unicode.IsDigit (hd 0 l) = true).
  { unfold l. destruct da as [|x da]; [simpl in La; lia |]. simpl.
    inversion Da; subst. now apply digit_IsDigit. }
  rewrite Hfirst, andb_false_r.
  assert (Hlast : Unicode.IsDigit (List.last l 0) = true).
  { unfold l. destruct (exists_last (l := dd)) as (dd' & x & ->);
      [destruct dd; [simpl in Ld; lia | discriminate] |].
    rewrite !app_comm_cons, !app_assoc, last_last.
    apply Forall_app in Dd as [_ Dx]. inversion Dx; subst. now apply digit_IsDigit. }
  rewrite Hlast, andb_false_r.
  rewrite (Contains_dots _ Hrange).
  assert (Hadj : adjacent_dots l = false).
  { unfold l. rewrite (adjacent_dots_digits _ _ Da), (adjacent_dots_dot _ _ Ob),
      (adjacent_dots_dot _ _ Oc).
    change (0x2E :: dd) with (0x2E :: dd ++ []) || rewrite <- (app_nil_r dd).
    rewrite (adjacent_dots_dot _ _ Od). reflexivity. }
  rewrite Hadj.
  assert (HIP : Net.ParseIP (Bytes.to_string l) = true).
  { unfold Net.ParseIP. rewrite Hbytes. unfold l at 2. rewrite (dispatch_digits _ _ _ Da).
    unfold Net.parseIPv4. rewrite Hbytes. unfold l.
    assert (Hdd : dd <> []) by (destruct dd; [simpl in Ld; lia | discriminate]).
    rewrite (field_then_dot _ _ _ _ _ Oa)
      by first [lia | intros E; apply app_eq_nil in E as [_ E]; discriminate E].
    rewrite (field_then_dot _ _ _ _ _ Ob)
      by first [lia | intros E; apply app_eq_nil in E as [_ E]; discriminate E].
    rewrite (field_then_dot _ _ _ _ _ Oc) by first [lia | exact Hdd].
    rewrite (field_at_end _ _ _ _ Od). reflexivity. }
  rewrite HIP. reflexivity.
Qed.

End IPRule.

(** ** The naming rules on ASCII names *)

Section ASCIINames.
Context {rt : GoRuntime}.
Import OctetFacts DottedFacts.

Lemma lower_or_digit_ascii (c : Z) :
  0 <= c < 0x80 -> Unicode.IsLower c || Unicode.IsDigit c = alnum_byte c.
Proof.
  unfold alnum_byte, Unicode.IsLower, Unicode.IsDigit, Unicode.MaxLatin1, UTF8.between.
  intros H. destruct (Z.leb_spec 0 c); [| lia]. destruct (Z.leb_spec c 0xFF); [| lia].
  cbn [andb].
  destruct (Z.eqb_spec c 0xB5); [lia |].
  destruct (Z.leb_spec 0xDF c); [lia |]. destruct (Z.leb_spec 0xF8 c); [lia |].
  cbn [andb orb]. now rewrite !orb_false_r.
Qed.

Lemma class_range (c : Z) : in_class c = true -> 0 <= c < 0x80.
Proof. unfold in_class, UTF8.between. lia. Qed.

Lemma parseIPv4Fields_no_dot (l : list Z) (val : Z) (digLen : nat) (first pd : bool) :
  Forall (fun c => c <> 0x2E) l -> Net.parseIPv4Fields l val 0%nat digLen first pd = false.
Proof.
  intros H. revert val digLen first pd.
  induction H as [|c l Hc _ IH]; intros val digLen first pd; [reflexivity |].
  cbn [Net.parseIPv4Fields].
  destruct ((0x30 <=? c) && (c <=? 0x39)).
  - destruct ((digLen =? 1)%nat && (val =? 0)); [reflexivity |].
    destruct (255 <? val * 10 + c - 0x30); [reflexivity | apply IH].
  - destruct (Z.eqb_spec c 0x2E); [contradiction | reflexivity].
Qed.

Lemma dispatch_class (whole : string) (l : list Z) :
  Forall (fun c => in_class c = true) l ->
  Net.dispatch whole l = existsb (fun c => c =? 0x2E) l && Net.parseIPv4 whole.
Proof.
  induction 1 as [|a l Ha _ IH]; [reflexivity |]. cbn [Net.dispatch existsb].
  destruct (Z.eqb_spec a 0x2E); [reflexivity |].
  unfold in_class, UTF8.between in Ha.
  destruct (Z.eqb_spec a 0x3A); [lia |]. destruct (Z.eqb_spec a 0x25); [lia |]. exact IH.
Qed.

Lemma ParseIP_class (name : string) :
  Forall (fun c => in_class c = true) (Bytes.of_string name) ->
  Net.ParseIP name = Net.parseIPv4 name.
Proof.
  intros H. unfold Net.ParseIP. rewrite (dispatch_class _ _ H).
  destruct (existsb (fun c => c =? 0x2E) (Bytes.of_string name)) eqn:E; [reflexivity |].
  symmetry. apply parseIPv4Fields_no_dot. apply Forall_forall. intros x Hx ->.
  assert (existsb (fun c => c =? 0x2E) (Bytes.of_string name) = true); [| congruence].
  apply existsb_exists. exists 0x2E. split; [now apply list_elem_of_In | reflexivity].
Qed.

Lemma last_Forall {A} (P : A -> Prop) (l : list A) (d : A) :
  Forall P l -> P d -> P (List.last l d).
Proof.
  induction 1 as [|x l Hx Hl IH]; intros Hd; [exact Hd |].
  destruct l; [exact Hx | exact (IH Hd)].
Qed.

(** X28.  The naming rules on ASCII names.  For a name made of
    lower-case ASCII letters, ASCII digits, periods and hyphens,
    [validName] accepts the name exactly when it is 3 to 63 bytes long,
    begins and ends with a letter or digit, has no two adjacent periods,
    is not a dotted-decimal IPv4 address, begins with none of the
    reserved prefixes and ends with none of the reserved suffixes;
    nothing in the verdict depends on the Unicode tables or the IPv6
    parser of the runtime. *)
Theorem validName_on_ASCII_names (name : string) :
  forallb in_class (Bytes.of_string name) = true ->
  validName name = None
  <-> (3 <= String.length name <= 63)%nat
      /\ alnum_byte (first_byte name) = true
      /\ alnum_byte (last_byte name) = true
      /\ Strings.Contains name ".." = false
      /\ Net.parseIPv4 name = false
      /\ List.find (Strings.HasPrefix name) reserved_prefixes = None
      /\ List.find (Strings.HasSuffix name) reserved_suffixes = None.
Proof.
  intros Hall. set (b := Bytes.of_string name) in *.
  assert (Hl : Forall (fun c => in_class c = true) b).
  { apply Forall_forall. intros x Hx. rewrite forallb_forall in Hall. apply Hall.
    now apply list_elem_of_In. }
  assert (Hascii : Forall (fun c => c < UTF8.RuneSelf) b).
  { eapply Forall_impl; [exact Hl |]. intros x Hx. apply class_range in Hx.
    unfold UTF8.RuneSelf. lia. }
  assert (Hallowed : forallb allowed_rune b = true).
  { apply forallb_forall. intros x Hx. rewrite forallb_forall in Hall.
    rewrite allowed_rune_ascii; [now apply Hall | apply class_range; now apply Hall]. }
  assert (Hr : Forall (fun c => 0 <= c < 0x80) b).
  { eapply Forall_impl; [exact Hl |]. intros x Hx. now apply class_range. }
  assert (Hhd : 0 <= first_byte name < 0x80).
  { unfold first_byte. fold b. destruct Hr as [|x l Hx _]; [simpl; lia | exact Hx]. }
  assert (Hlast : 0 <= last_byte name < 0x80).
  { unfold last_byte. fold b. apply (last_Forall (fun c => 0 <= c < 0x80)); [exact Hr | lia]. }
  unfold validName, bad_request.
  unfold UTF8.runes. fold b. rewrite (runes_fuel_all_ascii _ _ Hascii) by lia.
  rewrite Hallowed. cbn [negb].
  rewrite <- !negb_orb, !lower_or_digit_ascii by assumption.
  rewrite (ParseIP_class _ Hl).
  destruct (Nat.ltb_spec (String.length name) 3);
    [split; [discriminate | intros (H1 & _); lia] |].
  destruct (Nat.ltb_spec 63 (String.length name));
    [split; [discriminate | intros (H1 & _); lia] |].
  destruct (alnum_byte (first_byte name)); cbn [negb];
    [| split; [discriminate | intros (_ & H1 & _); discriminate]].
  destruct (alnum_byte (last_byte name)); cbn [negb];
    [| split; [discriminate | intros (_ & _ & H1 & _); discriminate]].
  destruct (Strings.Contains name "..");
    [split; [discriminate | intros (_ & _ & _ & H1 & _); discriminate] |].
  destruct (Net.parseIPv4 name);
    [split; [discriminate | intros (_ & _ & _ & _ & H1 & _); discriminate] |].
  destruct (find (Strings.HasPrefix name) reserved_prefixes);
    [split; [discriminate | intros (_ & _ & _ & _ & _ & H1 & _); discriminate] |].
  destruct (find (Strings.HasSuffix name) reserved_suffixes);
    [split; [discriminate | intros (_ & _ & _ & _ & _ & _ & H1); discriminate] |].
  split; [intros _; repeat split; lia || reflexivity | reflexivity].
Qed.

End ASCIINames.

(** ** The server *)

Section ServerFacts.
Context {rt : GoRuntime} {codec : JSONCodec} {ct : CaseTables}.
Import HTTP Server.

Lemma collect_reread (r : Request) (body : list Z) : collect (reread r body) = collect r.
Proof. reflexivity. Qed.

(** The middleware answers by itself, or hands the request on once the
    content hash and the signature have been checked. *)
Lemma middleware_cases (s : server)
    (methods : gmap string HandlerFunc) (fs : OS.FS) (now : Z) (r : Request) :
  (middleware s methods fs now r).1 = fs /\ rejection (middleware s methods fs now r).2
  \/ exists handler body,
       methods !! Method r = Some handler
       /\ Body r = (body, None)
       /\ index (collect r) "x-amz-content-sha256" = Sha256Hash body
       /\ Validate (auth s) (Method r) (RequestURI r) (collect r) (Sha256Hash body) = None
       /\ middleware s methods fs now r = handler fs now (reread r body).
Proof.
  unfold middleware, rejection.
  destruct (methods !! Method r) as [handler|]; [| left; simpl; tauto].
  destruct (Body r) as [body [e|]] eqn:EB; [left; simpl; tauto |].
  fold (reread r body). rewrite collect_reread. cbn [Method RequestURI reread].
  destruct (String.length (index (collect r) "x-amz-content-sha256") <? 1)%nat;
    [left; simpl; tauto |].
  destruct (String.eqb_spec (index (collect r) "x-amz-content-sha256") (Sha256Hash body))
    as [EH|_]; cbn [negb]; [| left; simpl; tauto].
  destruct (Validate _ _ _ _ _) eqn:EV; [left; simpl; tauto |].
  right. exists handler, body. repeat split; assumption || reflexivity.
Qed.

End ServerFacts.

Section RouterFacts.
Context {rt : GoRuntime} {codec : JSONCodec} {ct : CaseTables}.
Import HTTP Server.

Lemma router_lookup (s : server) (pattern : string) (h : HandlerFunc) :
  router s !! pattern = Some h ->
  pattern = "/" /\ h = health s
  \/ exists methods, routes s !! pattern = Some methods /\ h = middleware s methods.
Proof.
  unfold router. destruct (decide (pattern = "/")) as [->|Hne].
  - rewrite lookup_insert_eq. intros [= <-]. left. split; reflexivity.
  - rewrite lookup_insert_ne by congruence. rewrite lookup_fmap.
    destruct (routes s !! pattern) as [methods|]; [| discriminate].
    intros [= <-]. right. eauto.
Qed.

(** X14.  What the handlers registered by [New] do with a request.  The
    handler for ["/"] answers [healthy] and leaves the store alone.  The
    handler for any other pattern either answers by itself with one of
    the five rejections of the middleware (405, 400, 400, 400, 401) and
    leaves the store alone, or it calls the handler the method table of
    the pattern has for the request method; and it does that only when
    the body was read, the [x-amz-content-sha256] header equals the
    SHA-256 of the body and [Validate] accepts the request. *)
Theorem router_passes_only_signed_requests (s : server) (pattern : string)
    (h : HandlerFunc) (fs : OS.FS) (now : Z) (r : Request) :
  router s !! pattern = Some h ->
  (pattern = "/" /\ h fs now r = (fs, [Write (Bytes.of_string "healthy")]))
  \/ ((h fs now r).1 = fs /\ rejection (h fs now r).2)
  \/ (exists methods handler body,
        routes s !! pattern = Some methods
        /\ methods !! Method r = Some handler
        /\ Body r = (body, None)
        /\ index (collect r) "x-amz-content-sha256" = Sha256Hash body
        /\ Validate (auth s) (Method r) (RequestURI r) (collect r) (Sha256Hash body) = None
        /\ h fs now r = handler fs now (reread r body)).
Proof.
  intros [[-> ->] | (methods & Hm & ->)]%router_lookup.
  - left. split; reflexivity.
  - right.
    destruct (middleware_cases s methods fs now r)
      as [H | (hd & body & H1 & H2 & H3 & H4 & H5)].
    + left. exact H.
    + right. exists methods, hd, body. repeat split; assumption.
Qed.

Lemma routes_bucket (s : server) :
  routes s !! "/{name}" = Some {[ "PUT" := createBucket s ]}.
Proof. unfold routes. rewrite lookup_insert_eq. reflexivity. Qed.

Lemma routes_object (s : server) :
  routes s !! "/{name}/{key}"
  = Some (<["GET" := getObject s]>
            (<["PUT" := putObject s]> {[ "DELETE" := deleteObject s ]})).
Proof.
  unfold routes. rewrite lookup_insert_ne by discriminate.
  rewrite lookup_singleton_eq. reflexivity.
Qed.

(** X15.  Methods outside the method tables are turned away first.  On
    the pattern [/{name}] every method but [PUT], and on [/{name}/{key}]
    every method but [GET], [PUT] and [DELETE], is answered with 405
    "method not allowed" and the store is left alone, whatever the body,
    the headers and the signature of the request. *)
Theorem unsupported_methods_are_turned_away (s : server) (fs : OS.FS) (now : Z)
    (r : Request) (h : HandlerFunc) :
  (router s !! "/{name}" = Some h -> Method r <> "PUT" ->
   h fs now r = (fs, [Error "method not allowed" StatusMethodNotAllowed]))
  /\ (router s !! "/{name}/{key}" = Some h ->
      Method r <> "GET" -> Method r <> "PUT" -> Method r <> "DELETE" ->
      h fs now r = (fs, [Error "method not allowed" StatusMethodNotAllowed])).
Proof.
  split.
  - intros [[E _] | (methods & Hm & ->)]%router_lookup Hne; [discriminate |].
    rewrite routes_bucket in Hm. injection Hm as <-.
    unfold middleware. rewrite lookup_singleton_ne by congruence. reflexivity.
  - intros [[E _] | (methods & Hm & ->)]%router_lookup H1 H2 H3; [discriminate |].
    rewrite routes_object in Hm. injection Hm as <-.
    unfold middleware.
    rewrite !lookup_insert_ne, lookup_singleton_ne by congruence. reflexivity.
Qed.

End RouterFacts.

Section CollectFacts.
Context {ct : CaseTables}.
Import HTTP Server.

Lemma collect_fold (h : Header) (keys : list string) (m : gmap string string) (n : string) :
  (forall k, In k keys -> Case.ToLower k <> n) ->
  fold_left (fun headers k => <[Case.ToLower k := Header_Get h k]> headers) keys m !! n
  = m !! n.
Proof.
  revert m. induction keys as [|k keys IH]; intros m H; [reflexivity |]. simpl.
  rewrite IH by (intros k' Hk'; apply H; now right).
  apply lookup_insert_ne. apply H. now left.
Qed.

Lemma Header_Get_first (h1 h2 : Header) (k v : string) (vs : list string) :
  Textproto.CanonicalMIMEHeaderKey k = k ->
  ~ In k (map fst h1) ->
  Header_Get (h1 ++ (k, v :: vs) :: h2) k = v.
Proof.
  intros Hk Hn. unfold Header_Get. rewrite Hk.
  assert (E : list_find (fun kv : string * list string => kv.1 = k) (h1 ++ (k, v :: vs) :: h2)
              = Some (length h1, (k, v :: vs))).
  { apply list_find_Some. split; [| split].
    - rewrite lookup_app_r by lia. now rewrite Nat.sub_diag.
    - reflexivity.
    - intros j y Hj Hlt Hy. apply Hn. rewrite lookup_app_l in Hj by exact Hlt.
      apply list_elem_of_lookup_2 in Hj. apply list_elem_of_In.
      rewrite <- Hy. apply list_elem_of_fmap. exists y. split; [reflexivity | exact Hj]. }
  rewrite E. reflexivity.
Qed.

(** X16.  What the header map of the middleware holds.  Under a name
    that no key of the request header has as its lower-case form, the
    map holds the request host when the name is [host] and nothing
    otherwise.  Under the lower-case form of a key in canonical form, it
    holds the first value of that key, provided no key visited later has
    the same lower-case form. *)
Theorem header_map_contents (r : Request) :
  (forall n,
     (forall k, In k (map fst (header r)) -> Case.ToLower k <> n) ->
     index (collect r) n = if String.eqb n "host" then Host r else "")
  /\ (forall h1 h2 k v vs,
        header r = h1 ++ (k, v :: vs) :: h2 ->
        Textproto.CanonicalMIMEHeaderKey k = k ->
        ~ In k (map fst h1) ->
        (forall k', In k' (map fst h2) -> Case.ToLower k' <> Case.ToLower k) ->
        index (collect r) (Case.ToLower k) = v).
Proof.
  split.
  - intros n H. unfold index, collect. rewrite (collect_fold _ _ _ _ H).
    destruct (String.eqb_spec n "host") as [->|Hne].
    + now rewrite lookup_insert_eq.
    + rewrite lookup_insert_ne by congruence. reflexivity.
  - intros h1 h2 k v vs E Hk Hn H2. unfold index, collect. rewrite E.
    rewrite map_app, fold_left_app. cbn [map fold_left fst].
    rewrite (collect_fold _ _ _ _ H2), lookup_insert_eq.
    cbn [default]. now apply Header_Get_first.
Qed.

End CollectFacts.

Section HandlerFacts.
Context {rt : GoRuntime} {codec : JSONCodec} {ct : CaseTables}.
Import HTTP Server OS.

Lemma writeError_internal (e : error) :
  internal e ->
  writeError e = [Println ("[ERROR] - " +:+ Error_text e);
                  Error "internal server error" StatusInternalServerError].
Proof. destruct e; simpl; [contradiction | reflexivity..]. Qed.

Lemma PathError_internal (e : error) : is_PathError e -> internal e.
Proof. intros (op & p & en & ->). exact I. Qed.

Lemma Get_error_kinds s fs bucket key e :
  Get s fs bucket key = Err e -> e = BucketNotFound \/ e = ObjectNotFound \/ internal e.
Proof.
  unfold Get.
  repeat match goal with
         | |- context [if ?x then _ else _] => destruct x
         | |- context [match ?x with Ok _ => _ | Err _ => _ end] => destruct x
         end; intros [= <-]; auto; right; right; exact I.
Qed.

Lemma Put_error_kinds s fs bucket key body now fs' e :
  Put s fs bucket key body now = (fs', Some e) -> e = BucketNotFound \/ internal e.
Proof.
  unfold Put. destruct (existPath s fs bucket); simpl; [| intros [= _ <-]; now left].
  destruct (MkdirAll fs _) as [fs1 [e1|]] eqn:Hm.
  { intros [= _ <-]. right. apply PathError_internal, (KindFacts.MkdirAll_error _ _ _ _ Hm). }
  destruct (json_Marshal _); [| intros [= _ <-]; right; exact I].
  destruct (WriteFile fs1 _ _) as [fs2 [e2|]]; [intros [= _ <-]; right; exact I |].
  intros Hw. right. apply PathError_internal, (KindFacts.WriteFile_error _ _ _ _ _ Hw).
Qed.

Lemma Delete_error_kinds s fs bucket key fs' e :
  Delete s fs bucket key = (fs', Some e) ->
  e = BucketNotFound \/ e = ObjectNotFound \/ internal e.
Proof.
  unfold Delete. destruct (existPath s fs bucket); simpl; [| intros [= _ <-]; auto].
  destruct (existPath s fs _); simpl; [| intros [= _ <-]; auto].
  intros Hr. right. right. apply PathError_internal, (KindFacts.RemoveAll_error _ _ _ _ Hr).
Qed.

Lemma NewBucket_error_kinds s fs name fs' e :
  NewBucket s fs name = (fs', Some e) ->
  (exists msg, e = Error_ msg StatusBadRequest) \/ e = BucketAlreadyExists \/ internal e.
Proof.
  unfold NewBucket. destruct (validName name) as [e0|] eqn:Hv.
  { intros [= _ <-]. left. exact (validName_status _ _ Hv). }
  destruct (existPath s fs name); [intros [= _ <-]; auto |].
  intros Hm. right. right. apply PathError_internal, (KindFacts.MkdirAll_error _ _ _ _ Hm).
Qed.

(** X17.  The status codes of the four handlers.  [createBucket]
    answers 201, 400, 409 or 500; [getObject] answers 200, 404 or 500;
    [putObject] answers 204, 400, 404 or 500; [deleteObject] answers 204,
    404 or 500. *)
Theorem handler_status_codes (s : server) (fs : FS) (now : Z) (r : Request) :
  In (status (createBucket s fs now r).2) [201; 400; 409; 500]
  /\ In (status (getObject s fs now r).2) [200; 404; 500]
  /\ In (status (putObject s fs now r).2) [204; 400; 404; 500]
  /\ In (status (deleteObject s fs now r).2) [204; 404; 500].
Proof.
  repeat split.
  - unfold createBucket. destruct (NewBucket _ _ _) as [fs' [e|]] eqn:E; [| simpl; tauto].
    destruct (NewBucket_error_kinds _ _ _ _ _ E) as [(msg & ->) | [-> | Hi]];
      [simpl; tauto | simpl; tauto |].
    rewrite (writeError_internal _ Hi). simpl. tauto.
  - unfold getObject. destruct (Get _ _ _ _) as [d|e] eqn:E; [simpl; tauto |].
    destruct (Get_error_kinds _ _ _ _ _ E) as [-> | [-> | Hi]];
      [simpl; tauto | simpl; tauto |].
    rewrite (writeError_internal _ Hi). simpl. tauto.
  - unfold putObject. destruct (Body r) as [body [e0|]]; [destruct (Put _ _ _ _ _ _) as [? [?|]]; simpl; tauto |].
    destruct (Put _ _ _ _ _ _) as [fs' [e|]] eqn:E; [| simpl; tauto].
    destruct (Put_error_kinds _ _ _ _ _ _ _ _ E) as [-> | Hi]; [simpl; tauto |].
    rewrite (writeError_internal _ Hi). simpl. tauto.
  - unfold deleteObject. destruct (Delete _ _ _ _) as [fs' [e|]] eqn:E; [| simpl; tauto].
    destruct (Delete_error_kinds _ _ _ _ _ _ E) as [-> | [-> | Hi]];
      [simpl; tauto | simpl; tauto |].
    rewrite (writeError_internal _ Hi). simpl. tauto.
Qed.

End HandlerFacts.

Section EndToEnd.
Context {rt : GoRuntime} {codec : JSONCodec} {ct : CaseTables}.
Import HTTP Server OS.

(** X18.  What a 204 of [putObject] promises.  When [putObject] answers
    204, [getObject] on the resulting state, for a request with the same
    [name] and [key] path values, answers 200 with exactly the body that
    was put and leaves the state as it is. *)
Theorem put_then_get_over_http (s : server) (fs : FS) (now : Z) (rp : Request) :
  reads_back codec ->
  status (putObject s fs now rp).2 = StatusNoContent ->
  forall now' rg,
    PathValue rg "name" = PathValue rp "name" ->
    PathValue rg "key" = PathValue rp "key" ->
    getObject s (putObject s fs now rp).1 now' rg
    = ((putObject s fs now rp).1, [WriteHeader StatusOK; Write (Body rp).1]).
Proof.
  intros Hrb Hst now' rg Hn Hk. unfold putObject in *.
  destruct (Body rp) as [body [e0|]].
  { destruct (Put _ _ _ _ _ _) as [? [?|]]; discriminate Hst. }
  destruct (Put _ _ _ _ _ _) as [fs' [e|]] eqn:E.
  - exfalso. destruct (Put_error_kinds _ _ _ _ _ _ _ _ E) as [-> | Hi]; [discriminate Hst |].
    rewrite (writeError_internal _ Hi) in Hst. discriminate Hst.
  - destruct (Put_success _ _ _ _ _ _ _ E) as (pb & (mb & Hs) & _).
    unfold getObject. cbn [fst snd]. rewrite Hn, Hk.
    rewrite (Get_after_stored Hrb _ _ _ _ _ _ _ _ Hs). reflexivity.
Qed.

(** X19.  A corrupted object is answered as an internal error.  When
    the body file of the requested object hashes differently from the
    [content_sha256] its metadata decodes to, [getObject] logs the
    checksum mismatch and answers 500 "internal server error"; it writes
    none of the stored bytes and leaves the state as it is. *)
Theorem corrupted_object_is_an_internal_error (s : server) (fs : FS) (now : Z)
    (r : Request) (body mb : list Z) (meta : metadata) :
  let bucket := PathValue r "name" in
  let hash := Sha256Hash (Bytes.of_string (PathValue r "key")) in
  let dir := path (storage s) +:+ "/" +:+ bucket +:+ "/" +:+ hash in
  existPath (storage s) fs bucket = true ->
  existPath (storage s) fs (bucket +:+ "/" +:+ hash) = true ->
  ReadFile fs (dir +:+ "/body") = Ok body ->
  ReadFile fs (dir +:+ "/metadata.json") = Ok mb ->
  json_Unmarshal mb = Ok meta ->
  ContentHash meta <> Sha256Hash body ->
  getObject s fs now r
  = (fs, [Println "[ERROR] - content checksum mismatch";
          Error "internal server error" StatusInternalServerError]).
Proof.
  intros bucket hash dir Hb Ho Hbody Hmeta Hjson Hne.
  unfold getObject, Get. fold bucket hash. rewrite Hb, Ho. cbn [negb]. fold dir.
  rewrite Hbody, Hmeta, Hjson.
  destruct (String.eqb_spec (Sha256Hash body) (ContentHash meta)) as [E|_];
    [congruence | reflexivity].
Qed.

End EndToEnd.

(** ** Opening the store, and [main] *)

Section Opening.
Context {rt : GoRuntime} {codec : JSONCodec}.
Import OS OSFacts StoreFacts.

(** A store that [NewStorage] opens has a root that resolves to a
    directory. *)
Lemma NewStorage_root (fs : FS) (p : string) (st : Storage) :
  NewStorage fs p = Ok st ->
  path st = p
  /\ exists pr, walk fs (Strings.Split p "/") (inl []) = inl pr /\ is_dir fs pr = true.
Proof.
  unfold NewStorage, Stat, resolve.
  destruct (String.eqb p ""); [simpl; discriminate |].
  destruct (walk fs (Strings.Split p "/") (inl [])) as [pr|e] eqn:Hw.
  - destruct (node_at fs pr) as [[|d]|] eqn:Hn.
    + intros [= <-]. split; [reflexivity |]. exists pr. split; [reflexivity |].
      unfold is_dir. now rewrite Hn.
    + discriminate.
    + simpl. discriminate.
  - destruct e; simpl; discriminate.
Qed.

(** X20.  A store that [NewStorage] has opened serves a new bucket.  In
    a state where every entry lies in a directory: when [NewStorage]
    accepts the root, [NewBucket] succeeds for every name the naming
    rules accept that does not exist under the root, every [Put] into
    the new bucket then succeeds, and [Get] returns the body put. *)
Theorem opened_store_serves_a_new_bucket (fs : FS) (p : string) (st : Storage)
    (name key : string) (body : list Z) (now : Z) :
  marshals codec -> reads_back codec -> well_formed fs ->
  NewStorage fs p = Ok st ->
  validName name = None ->
  existPath st fs name = false ->
  exists fs1 fs2,
    NewBucket st fs name = (fs1, None)
    /\ Put st fs1 name key body now = (fs2, None)
    /\ Get st fs2 name key = Ok body.
Proof.
  intros Hm Hrb Hwf HS Hv He.
  destruct (NewStorage_root _ _ _ HS) as (Hp & pr & Hr & Hd). rewrite <- Hp in Hr.
  assert (HN : exists fs1, NewBucket st fs name = (fs1, None)).
  { rewrite (NewBucket_cases st fs name pr Hr), Hv, Hd. cbn [negb].
    pose proof (validName_plain _ Hv) as Hpl.
    rewrite existPath_bucket, (bucket_path_plain _ _ Hpl), walk_snoc, Hr,
      (step_plain _ _ _ Hpl), Hd in He. simpl in He.
    destruct (fs !! (pr ++ [name])) eqn:En; [| eauto].
    rewrite node_at_snoc, En in He. discriminate. }
  destruct HN as (fs1 & HN). exists fs1.
  destruct (Put_after_NewBucket st fs fs1 name key body now pr Hm Hwf Hr HN) as (fs2 & HP).
  exists fs2. split; [exact HN |]. split; [exact HP |].
  destruct (Put_success _ _ _ _ _ _ _ HP) as (pb & (mb & Hs) & _).
  exact (Get_after_stored Hrb _ _ _ _ _ _ _ _ Hs).
Qed.

(** X21.  [main] gets to serve exactly when the environment variables
    [ACCESS_KEY] and [SECRET_KEY] are set and not empty and [./data] is
    a directory; it then serves on port 8000 with these two keys and the
    store rooted at [./data].  In every other case it panics. *)
Theorem main_serves_exactly_when_configured (env : gmap string string) (fs : FS)
    (port : string) (a : Auth) (st : Storage) :
  main env fs = Serving port a st
  <-> index env "ACCESS_KEY" <> "" /\ index env "SECRET_KEY" <> ""
      /\ Stat fs "./data" = Ok Dir
      /\ port = "8000"
      /\ a = NewAuth (index env "ACCESS_KEY") (index env "SECRET_KEY")
      /\ st = {| path := "./data" |}.
Proof.
  unfold main, envOrPanic, NewStorage.
  destruct (index env "ACCESS_KEY") as [|c1 k1] eqn:E1.
  { simpl. split; [discriminate | intros (H & _); congruence]. }
  destruct (index env "SECRET_KEY") as [|c2 k2] eqn:E2.
  { simpl. split; [discriminate | intros (_ & H & _); congruence]. }
  cbn [String.length Nat.ltb Nat.leb].
  destruct (Stat fs "./data") as [[|d]|e] eqn:ES.
  - split.
    + intros [= <- <- <-]. repeat split; discriminate.
    + intros (_ & _ & _ & -> & -> & ->). reflexivity.
  - split; [discriminate | intros (_ & _ & H & _); discriminate].
  - split; [destruct (IsNotExist (Some e)); discriminate
           | intros (_ & _ & H & _); discriminate].
Qed.

End Opening.

Section CreateBucket.
Context {rt : GoRuntime} {codec : JSONCodec} {ct : CaseTables}.
Import HTTP Server OS.

(** X22.  The answers of [createBucket] in a state where the store
    root is a directory.  A name the naming rules reject is answered
    with 400 and the message of the rule; an accepted name that exists
    under the root with 409; any other accepted name with 201 and the
    XML document, after the bucket directory has been added.  Only the
    last case changes the state. *)
Theorem createBucket_outcomes (s : server) (fs : FS) (now : Z) (r : Request)
    (pr : list string) :
  walk fs (Strings.Split (path (storage s)) "/") (inl []) = inl pr ->
  is_dir fs pr = true ->
  let name := PathValue r "name" in
  createBucket s fs now r
  = match validName name with
    | Some err => (fs, [Error (Error_text err) StatusBadRequest])
    | None =>
        match fs !! (pr ++ [name]) with
        | Some _ => (fs, [Error "requested bucket name is not available" StatusConflict])
        | None =>
            (<[pr ++ [name] := Dir]> fs,
             [WriteHeader 201; Write (Bytes.of_string created_document)])
        end
    end.
Proof.
  intros Hr Hd name. unfold createBucket. fold name.
  rewrite (NewBucket_cases (storage s) fs name pr Hr), Hd. cbn [negb].
  destruct (validName name) as [e|] eqn:Hv.
  - destruct (validName_status _ _ Hv) as (msg & ->). reflexivity.
  - destruct (fs !! (pr ++ [name])); reflexivity.
Qed.

End CreateBucket.

(** X23.  [Sha256Hash] returns 64 lower-case hexadecimal digits for
    every input, so the name of an object directory is a plain path
    component (no [/], not [.] or [..]) whatever the key is. *)
Theorem Sha256Hash_is_64_hex_digits (data : list Z) :
  String.length (Sha256Hash data) = 64%nat
  /\ is_hex (Sha256Hash data) = true
  /\ plain (Sha256Hash data) = true.
Proof.
  split; [apply Sha256Hash_length |]. split; [apply Sha256Hash_is_hex |].
  apply Sha256Hash_plain.
Qed.

(** ** The metadata document *)

Module NumberFacts.
Import JSON JSONFacts.

Lemma digits_value (f : nat) (n : Z) (acc : list Z) :
  0 <= n < 10 ^ Z.of_nat (S f) ->
  exists ds,
    digits (S f) n acc = ds ++ acc
    /\ ds <> []
    /\ Forall (fun c => is_digit c = true) ds
    /\ forall x v, span_digits (ds ++ x) v = span_digits x (v * 10 ^ Z.of_nat (length ds) + n).
Proof.
  revert n acc. induction f as [|f IH]; intros n acc Hn.
  - assert (Hd : is_digit (0x30 + n mod 10) = true).
    { unfold is_digit, UTF8.between. pose proof (Z.mod_pos_bound n 10). lia. }
    exists [0x30 + n mod 10]. cbn [digits].
    assert (E : n / 10 = 0) by (apply Z.div_small; simpl in Hn; lia).
    rewrite E. simpl (0 =? 0). cbv iota.
    split; [reflexivity |]. split; [discriminate |]. split; [repeat constructor; exact Hd |].
    intros x v. cbn [app span_digits length]. rewrite Hd.
    f_equal. rewrite Z.mod_small by (simpl in Hn; lia). simpl. lia.
  - assert (Hd : is_digit (0x30 + n mod 10) = true).
    { unfold is_digit, UTF8.between. pose proof (Z.mod_pos_bound n 10). lia. }
    change (digits (S (S f)) n acc)
      with (if n / 10 =? 0 then (0x30 + n mod 10) :: acc
            else digits (S f) (n / 10) ((0x30 + n mod 10) :: acc)).
    destruct (Z.eqb_spec (n / 10) 0) as [E|E].
    + exists [0x30 + n mod 10].
      split; [reflexivity |]. split; [discriminate |]. split; [repeat constructor; exact Hd |].
      intros x v. cbn [app span_digits length]. rewrite Hd. f_equal.
      pose proof (Z.div_mod n 10 ltac:(lia)). simpl. lia.
    + destruct (IH (n / 10) ((0x30 + n mod 10) :: acc)) as (ds & E1 & Hne & Hds & Hv).
      { split; [apply Z.div_pos; lia |].
        apply Z.div_lt_upper_bound; [lia |].
        replace (10 * 10 ^ Z.of_nat (S f)) with (10 ^ Z.of_nat (S (S f))); [lia |].
        rewrite (Nat2Z.inj_succ (S f)), Z.pow_succ_r by lia. reflexivity. }
      exists (ds ++ [0x30 + n mod 10]). rewrite E1, <- app_assoc.
      split; [reflexivity |]. split; [destruct ds; discriminate |].
      split; [apply Forall_app; split; [exact Hds | repeat constructor; exact Hd] |].
      intros x v. rewrite <- app_assoc, Hv. cbn [app span_digits]. rewrite Hd. f_equal.
      rewrite length_app. cbn [length]. rewrite Nat.add_1_r, Nat2Z.inj_succ, Z.pow_succ_r by lia.
      pose proof (Z.div_mod n 10 ltac:(lia)). lia.
Qed.

Lemma parse_nat_value (n c : Z) (rest : list Z) :
  0 <= n -> is_digit c = false ->
  parse_nat (digits (S (Z.to_nat (Z.log2 n))) n [] ++ c :: rest) = Some (n, c :: rest).
Proof.
  intros Hn Hc. destruct (Z.eq_dec n 0) as [->|Hz]; [reflexivity |].
  destruct (digits_value (Z.to_nat (Z.log2 n)) n []) as (ds & E & Hne & Hds & Hv).
  { split; [exact Hn | apply fuel_enough, Hn]. }
  destruct (digits_lead (Z.to_nat (Z.log2 n)) n []) as (d & ds' & E' & Hd & Hd0 & _).
  { split; [lia | apply fuel_enough, Hn]. }
  rewrite E. rewrite E, !app_nil_r in E'. rewrite app_nil_r.
  rewrite E' in Hv |- *. unfold parse_nat. rewrite <- app_comm_cons.
  destruct (Z.eqb_spec d 0x30) as [E0|_]; [contradiction |].
  rewrite Hd, app_comm_cons, Hv. cbn [span_digits]. rewrite Hc.
  f_equal.
Qed.

Lemma parse_int_value (n c : Z) (rest : list Z) :
  is_digit c = false -> parse_int (itoa n ++ c :: rest) = Some (n, c :: rest).
Proof.
  intros Hc. unfold itoa. destruct (Z.ltb_spec n 0) as [Hn|Hn].
  - rewrite <- app_comm_cons. cbn [parse_int]. change (0x2D =? 0x2D) with true. cbv iota.
    rewrite parse_nat_value by (lia || exact Hc). f_equal. f_equal. lia.
  - pose proof (parse_nat_value n c rest Hn Hc) as H.
    destruct (digits_value (Z.to_nat (Z.log2 n)) n []) as (ds & E & Hne & Hds & _).
    { split; [exact Hn | apply fuel_enough, Hn]. }
    rewrite E, app_nil_r in *. destruct ds as [|d ds]; [contradiction |].
    inversion Hds as [|? ? Hd _]; subst. rewrite <- app_comm_cons. cbn [parse_int].
    assert ((d =? 0x2D) = false) as -> by (unfold is_digit, UTF8.between in Hd; lia).
    rewrite app_comm_cons. exact H.
Qed.

End NumberFacts.

Module RoundTrip.
Import JSON JSONFacts NumberFacts.

Lemma escape_verbatim (b : list Z) (n : nat) :
  forallb (fun c => (c <? UTF8.RuneSelf) && htmlSafe c) b = true ->
  (length b <= n)%nat -> escape n b = b.
Proof.
  revert n. induction b as [|c b IH]; intros n Hb Hn.
  - destruct n; reflexivity.
  - simpl in Hb. apply andb_prop in Hb as [Hc Hb]. apply andb_prop in Hc as [H1 H2].
    destruct n as [|n]; [simpl in Hn; lia |].
    simpl. rewrite H1, H2. simpl. f_equal. apply IH; [exact Hb | simpl in Hn; lia].
Qed.

Lemma verbatim_ordinary (b : list Z) :
  forallb (fun c => (c <? UTF8.RuneSelf) && htmlSafe c) b = true -> Forall ordinary b.
Proof.
  induction b as [|c b IH]; simpl; [constructor |].
  intros [Hc Hb]%andb_prop. apply andb_prop in Hc as [_ Hc].
  constructor; [apply htmlSafe_ordinary, Hc | exact (IH Hb)].
Qed.

Lemma parse_string_verbatim (s : string) (rest : list Z) :
  verbatim s = true -> parse_string (quote s ++ rest) = Some (s, rest).
Proof.
  intros Hs. unfold quote. rewrite (escape_verbatim _ _ Hs) by lia.
  change (parse_string (0x22 :: (Bytes.of_string s ++ [0x22]) ++ rest) = Some (s, rest)).
  rewrite <- app_assoc. cbn [parse_string]. change (0x22 =? 0x22) with true. cbv iota.
  change ([0x22] ++ rest) with (0x22 :: rest).
  rewrite (unescape_ordinary_all _ _ (verbatim_ordinary _ Hs)), to_string_of_string.
  reflexivity.
Qed.

Lemma is_hex_verbatim (s : string) : is_hex s = true -> verbatim s = true.
Proof.
  unfold verbatim. induction s as [|a s IH]; [reflexivity |]. simpl.
  intros [Ha Hs]%andb_prop. destruct (is_hex_digit_safe a Ha) as [H1 H2].
  now rewrite H1, H2, (IH Hs).
Qed.

Lemma Unmarshal_document (m : metadata) :
  verbatim (ContentHash m) = true -> verbatim (OriginalKey m) = true ->
  Unmarshal (document m) = Ok m.
Proof.
  intros Hh Hk. unfold Unmarshal, document.
  rewrite expect_app, (parse_string_verbatim _ _ Hh), expect_app.
  change (member false "original_key") with (0x2C :: tl (member false "original_key")) at 1.
  rewrite <- app_comm_cons, (parse_int_value (ContentSize m) 0x2C _ eq_refl).
  rewrite app_comm_cons.
  change (0x2C :: tl (member false "original_key")) with (member false "original_key").
  rewrite expect_app, (parse_string_verbatim _ _ Hk), expect_app.
  rewrite (parse_int_value (LastModified m) 0x7D [] eq_refl).
  change (0x7D =? 0x7D) with true. cbv iota. destruct m; reflexivity.
Qed.

End RoundTrip.

(** X25.  The metadata document round trip.  A [metadata] struct whose
    two strings are ASCII that JSON writes without an escape, with any
    size and any time, negative ones included, marshals to a document
    that unmarshals to the same struct. *)
Theorem metadata_round_trip (m : metadata) :
  verbatim (ContentHash m) = true -> verbatim (OriginalKey m) = true ->
  exists b, JSON.Marshal m = Ok b /\ JSON.Unmarshal b = Ok m.
Proof.
  intros Hh Hk. exists (JSON.document m). split; [reflexivity |].
  now apply RoundTrip.Unmarshal_document.
Qed.

Section Recorded.
Context {rt : GoRuntime}.
#[local] Existing Instance metadata_codec.
Import OS RoundTrip.

(** X24.  What a [Put] records.  For a key made of ASCII characters that
    JSON writes without an escape: after a [Put] that reported no error,
    the metadata file of the object decodes to the SHA-256 of the body,
    the length of the body, the key itself and the time of the [Put],
    and the body file holds the body. *)
Theorem Put_records_the_metadata (s : Storage) (fs fs' : FS) (bucket key : string)
    (body : list Z) (now : Z) :
  verbatim key = true ->
  Put s fs bucket key body now = (fs', None) ->
  let dir := path s +:+ "/" +:+ bucket +:+ "/" +:+ Sha256Hash (Bytes.of_string key) in
  exists mb,
    ReadFile fs' (dir +:+ "/metadata.json") = Ok mb
    /\ JSON.Unmarshal mb
       = Ok {| ContentHash := Sha256Hash body;
               ContentSize := Z.of_nat (length body);
               OriginalKey := key;
               LastModified := now |}
    /\ ReadFile fs' (dir +:+ "/body") = Ok body.
Proof.
  intros Hk HP dir.
  destruct (Put_success _ _ _ _ _ _ _ HP) as (pb & (mb & [Hw Hd Hph Hb Hm Hj]) & _).
  pose proof (Sha256Hash_plain (Bytes.of_string key)) as Hh.
  pose proof (walk_object s fs' bucket _ pb Dir Hh Hw Hd Hph) as Hwo.
  exists mb. unfold dir.
  change "/metadata.json" with (String "/" "metadata.json").
  change "/body" with (String "/" "body").
  rewrite (AliasFacts.ReadFile_entry _ _ _ _ StoreFacts.plain_metadata Hwo),
    (AliasFacts.ReadFile_entry _ _ _ _ StoreFacts.plain_body Hwo).
  assert (Hdh : is_dir fs' (pb ++ [Sha256Hash (Bytes.of_string key)]) = true).
  { unfold is_dir. rewrite OSFacts.node_at_snoc, Hph. reflexivity. }
  rewrite Hdh, Hm, Hb. cbn [negb].
  split; [reflexivity |]. split; [| reflexivity].
  cbn [json_Marshal metadata_codec] in Hj. unfold JSON.Marshal in Hj.
  assert (E : mb = JSON.document {| ContentHash := Sha256Hash body;
                                    ContentSize := Z.of_nat (length body);
                                    OriginalKey := key;
                                    LastModified := now |}) by congruence.
  rewrite E. apply Unmarshal_document; [| exact Hk].
  apply is_hex_verbatim, Sha256Hash_is_hex.
Qed.

End Recorded.

(** ** Deleting over HTTP *)

Section DeleteOverHTTP.
Context {rt : GoRuntime} {codec : JSONCodec} {ct : CaseTables}.
Import HTTP Server OS OSFacts StoreFacts DeleteFacts.

(** After a [Delete] that reported no error the bucket is there and the
    object directory is not. *)
Lemma Delete_leaves_no_object (s : Storage) (fs fs' : FS) (bucket key : string) :
  no_dotdot (path s) = true -> validName bucket = None ->
  Delete s fs bucket key = (fs', None) ->
  existPath s fs' bucket = true
  /\ existPath s fs' (bucket +:+ "/" +:+ Sha256Hash (Bytes.of_string key)) = false.
Proof.
  intros Hs Hv HD. apply validName_plain in Hv.
  destruct (existPath s fs bucket) eqn:Hb;
    [| unfold Delete in HD; rewrite Hb in HD; discriminate HD].
  destruct (existPath s fs (bucket +:+ "/" +:+ Sha256Hash (Bytes.of_string key))) eqn:Ho;
    [| unfold Delete in HD; rewrite Hb, Ho in HD; discriminate HD].
  destruct (Delete_existing s fs bucket key Hb Ho) as (p & Hr & HD').
  rewrite HD' in HD. injection HD as <-.
  rewrite existPath_bucket in Hb.
  destruct (walk fs (bucket_path s bucket) (inl [])) as [pb|e] eqn:Hw; [| discriminate].
  destruct (node_at fs pb) as [n|] eqn:Hn; [| discriminate].
  rewrite (resolve_object _ _ _ _ (Sha256Hash_plain _)), Hw,
    (step_plain _ _ _ (Sha256Hash_plain _)) in Hr.
  destruct (is_dir fs pb); simpl in Hr; [| discriminate].
  destruct (fs !! (pb ++ [Sha256Hash (Bytes.of_string key)])); [| discriminate].
  injection Hr as <-.
  exact (after_remove s fs bucket key pb n Hs Hv Hw Hn).
Qed.

(** X26.  What a 204 of [deleteObject] promises.  For a bucket name the
    naming rules accept, in a store whose root is written without
    [".."]: when [deleteObject] answers 204, [getObject] and a second
    [deleteObject] on the resulting state, for a request with the same
    [name] and [key] path values, answer 404 "object under requested key
    does not exist" and leave the state as it is. *)
Theorem delete_then_get_over_http (s : server) (fs : FS) (now : Z) (rd : Request) :
  no_dotdot (path (storage s)) = true ->
  validName (PathValue rd "name") = None ->
  status (deleteObject s fs now rd).2 = StatusNoContent ->
  forall now' r,
    PathValue r "name" = PathValue rd "name" ->
    PathValue r "key" = PathValue rd "key" ->
    let fs' := (deleteObject s fs now rd).1 in
    getObject s fs' now' r
    = (fs', [Error "object under requested key does not exist" StatusNotFound])
    /\ deleteObject s fs' now' r
       = (fs', [Error "object under requested key does not exist" StatusNotFound]).
Proof.
  intros Hs Hv Hst now' r Hn Hk. unfold deleteObject in Hst |- *.
  destruct (Delete (storage s) fs _ _) as [fs1 [e|]] eqn:E.
  - exfalso. destruct (Delete_error_kinds _ _ _ _ _ _ E) as [-> | [-> | Hi]];
      [discriminate Hst | discriminate Hst |].
    rewrite (writeError_internal _ Hi) in Hst. discriminate Hst.
  - cbn [fst]. cbv zeta.
    destruct (Delete_leaves_no_object _ _ _ _ _ Hs Hv E) as [Hb Ho].
    unfold getObject, Get, Delete. rewrite Hn, Hk, Hb, Ho. split; reflexivity.
Qed.

End DeleteOverHTTP.

(** ** Signed requests *)

Section SignedRequestsReachHandlers.
Context {rt : GoRuntime} {codec : JSONCodec} {ct : CaseTables}.
Import HTTP Server.

(** X27.  A signed request reaches its handler.  When the method table
    has a handler for the request method, the body is read without
    error, and the header map the middleware collects is a map whose
    [x-amz-content-sha256] entry is the SHA-256 of the body, extended by
    the [Authorization] header built from the access key, a scope, a
    list of signed names (printable ASCII without space and comma,
    [authorization] not among the names) and the signature computed over
    that map: the middleware hands the request, with its body readable
    again, to that handler. *)
Theorem signed_request_reaches_its_handler (s : server)
    (methods : gmap string HandlerFunc) (handler : HandlerFunc) (fs : OS.FS) (now : Z)
    (r : Request) (body : list Z) (headers : gmap string string) (scope signed : string) :
  methods !! Method r = Some handler ->
  Body r = (body, None) ->
  graphic (accessKey (auth s)) = true -> free_of "," (accessKey (auth s)) = true ->
  graphic scope = true -> free_of "," scope = true ->
  graphic signed = true -> free_of "," signed = true ->
  ~ In "authorization" (Strings.Split signed ";") ->
  index headers "x-amz-content-sha256" = Sha256Hash body ->
  collect r
  = <["authorization" :=
        authorization_value (auth s) scope signed
          (computedSignature (auth s) (Method r) (RequestURI r) headers (Sha256Hash body)
             {| credential := scope; signedHeaders := signed; signature := "" |})]> headers ->
  middleware s methods fs now r = handler fs now (reread r body).
Proof.
  intros Hm HB Ha Fa Hs Fs Hh Fh Hin Hx Hc. unfold middleware, HandlerFunc in *.
  rewrite Hm, HB.
  fold (reread r body). rewrite collect_reread, Hc. cbn [Method RequestURI reread].
  assert (E : index (<["authorization" :=
                         authorization_value (auth s) scope signed
                           (computedSignature (auth s) (Method r) (RequestURI r) headers
                              (Sha256Hash body)
                              {| credential := scope; signedHeaders := signed;
                                 signature := "" |})]> headers) "x-amz-content-sha256"
              = Sha256Hash body).
  { unfold index. rewrite lookup_insert_ne by discriminate. exact Hx. }
  rewrite E, Sha256Hash_length, String.eqb_refl. cbn [Nat.ltb Nat.leb negb].
  rewrite (signed_header_passes (auth s) (Method r) (RequestURI r) headers (Sha256Hash body)
             scope signed Ha Fa Hs Fs Hh Fh Hin).
  reflexivity.
Qed.

End SignedRequestsReachHandlers.

(** ** The properties on the example store and the example request *)

Section AuthWitnesses.
Import Example_request.

Lemma signed_header_values_are_trimmed_witness :
  Validate auth "GET" "/test-bucket/test.txt?b=2&a=1"
    (<["host" := "  localhost:8000 "]> headers) body_hash
  = Validate auth "GET" "/test-bucket/test.txt?b=2&a=1" headers body_hash.
Proof.
  symmetry.
  apply (signed_header_values_are_trimmed auth "GET" "/test-bucket/test.txt?b=2&a=1"
           headers (<["host" := "  localhost:8000 "]> headers) body_hash).
  - vm_compute. reflexivity.
  - vm_compute. reflexivity.
  - intros k Hk. vm_compute in Hk.
    destruct Hk as [<- | [<- | [<- | []]]]; vm_compute; reflexivity.
Defined.

Lemma signingKey_is_the_SigV4_derivation_witness :
  signingKey auth scope
  = hmacHash
      (hmacHash
         (hmacHash (hmacHash (Bytes.of_string "AWS4test-secret-key") "20250601") "us-east-1")
         "s3")
      "aws4_request".
Proof.
  apply (signingKey_is_the_SigV4_derivation auth "20250601" "us-east-1" "s3");
    reflexivity.
Defined.

End AuthWitnesses.

Section MoreWitnesses.
Import Example_store OS.
#[local] Existing Instance latin1_runtime.
#[local] Existing Instance metadata_codec.

Lemma fs0_well_formed : well_formed fs0.
Proof.
  intros p c n H. unfold fs0 in H. apply lookup_singleton_Some in H as [H _].
  destruct p as [|x p]; [reflexivity |].
  apply (f_equal (@length string)) in H. simpl in H. rewrite length_app in H.
  simpl in H. lia.
Qed.

Lemma keys_of_a_bucket_do_not_interfere_witness :
  Get s (Put s fs2 "test-bucket" "other.txt" bye 1748779300).1 "test-bucket" "test.txt"
  = Get s fs2 "test-bucket" "test.txt".
Proof.
  refine (proj1 (keys_of_a_bucket_do_not_interfere s fs2 "test-bucket" "other.txt"
                   "test.txt" bye 1748779300 _)).
  vm_compute. discriminate.
Defined.

Lemma NewBucket_creates_one_empty_bucket_witness :
  NewBucket s fs1 "test-bucket" = (fs1, Some BucketAlreadyExists)
  /\ Get s fs1 "test-bucket" "test.txt" = Err ObjectNotFound.
Proof.
  destruct (NewBucket_creates_one_empty_bucket s fs0 fs1 "test-bucket" ["data"])
    as (_ & _ & H3 & H4).
  - vm_compute. reflexivity.
  - apply no_error_eta. vm_compute. reflexivity.
  - split; [exact H3 | exact (H4 fs0_well_formed "test.txt")].
Defined.

Lemma NewBucket_leaves_other_buckets_alone_witness :
  Get s (NewBucket s fs2 "other-bucket").1 "test-bucket" "test.txt"
  = Get s fs2 "test-bucket" "test.txt".
Proof.
  apply (NewBucket_leaves_other_buckets_alone s fs2 "other-bucket" "test-bucket" "test.txt"
           ["data"]).
  - vm_compute. reflexivity.
  - vm_compute. reflexivity.
  - discriminate.
Defined.

Lemma stored_object_can_be_overwritten_witness :
  exists fs'', Put s fs2 "test-bucket" "test.txt" bye 1748779260 = (fs'', None)
               /\ Get s fs'' "test-bucket" "test.txt" = Ok bye.
Proof.
  apply (stored_object_can_be_overwritten s fs1 fs2 "test-bucket" "test.txt" hello
           1748779200 metadata_codec_marshals metadata_codec_reads_back).
  apply no_error_eta. vm_compute. reflexivity.
Defined.

Lemma deleted_key_can_be_stored_again_witness :
  exists fs'', Put s fs4 "test-bucket" "test.txt" bye 1748779500 = (fs'', None)
               /\ Get s fs'' "test-bucket" "test.txt" = Ok bye.
Proof.
  apply (deleted_key_can_be_stored_again s fs2 fs4 "test-bucket" "test.txt"
           metadata_codec_marshals metadata_codec_reads_back).
  - vm_compute. reflexivity.
  - vm_compute. reflexivity.
  - apply no_error_eta. vm_compute. reflexivity.
Defined.

Lemma opened_store_serves_a_new_bucket_witness :
  exists fs1' fs2',
    NewBucket s fs0 "test-bucket" = (fs1', None)
    /\ Put s fs1' "test-bucket" "test.txt" hello 1748779200 = (fs2', None)
    /\ Get s fs2' "test-bucket" "test.txt" = Ok hello.
Proof.
  apply (opened_store_serves_a_new_bucket fs0 "./data" s "test-bucket" "test.txt" hello
           1748779200 metadata_codec_marshals metadata_codec_reads_back fs0_well_formed).
  - vm_compute. reflexivity.
  - vm_compute. reflexivity.
  - vm_compute. reflexivity.
Defined.

Lemma validName_rejects_every_IPv4_address_witness :
  dotted_quad 192 168 5 4 = "192.168.5.4"
  /\ validName "192.168.5.4"
     = Some (Error_ "bucket name can not be formatted as an IP address" StatusBadRequest).
Proof.
  split; [reflexivity |].
  apply (validName_rejects_every_IPv4_address 192 168 5 4); lia.
Defined.

Lemma validName_on_ASCII_names_witness :
  validName "my.bucket-01" = None
  /\ exists e, validName "my-bucket--x-s3" = Some e.
Proof.
  split.
  - apply validName_on_ASCII_names; [reflexivity |].
    repeat split; try reflexivity; simpl; lia.
  - destruct (validName "my-bucket--x-s3") as [e|] eqn:E; [eauto |].
    apply validName_on_ASCII_names in E; [| reflexivity].
    destruct E as (_ & _ & _ & _ & _ & _ & H). discriminate H.
Defined.

End MoreWitnesses.

Section ServerWitnesses.
Import Example_store Example_server HTTP Server OS.
#[local] Existing Instance latin1_runtime.
#[local] Existing Instance metadata_codec.
#[local] Existing Instance ascii_case.

Lemma router_bucket (sv : server) :
  router sv !! "/{name}" = Some (middleware sv {[ "PUT" := createBucket sv ]}).
Proof.
  unfold router. rewrite lookup_insert_ne by discriminate.
  rewrite lookup_fmap, routes_bucket. reflexivity.
Qed.

Lemma router_object (sv : server) :
  router sv !! "/{name}/{key}"
  = Some (middleware sv (<["GET" := getObject sv]>
                           (<["PUT" := putObject sv]> {[ "DELETE" := deleteObject sv ]}))).
Proof.
  unfold router. rewrite lookup_insert_ne by discriminate.
  rewrite lookup_fmap, routes_object. reflexivity.
Qed.

Lemma router_passes_only_signed_requests_witness :
  let h := middleware srv (<["GET" := getObject srv]>
                             (<["PUT" := putObject srv]> {[ "DELETE" := deleteObject srv ]})) in
  (h fs2 0 get_request).1 = fs2
  /\ (h fs2 0 get_request).2
     = [Error "header x-amz-content-sha256 is missing" StatusBadRequest].
Proof.
  intros h. split; [| vm_compute; reflexivity].
  destruct (router_passes_only_signed_requests srv "/{name}/{key}" h fs2 0 get_request
              (router_object srv))
    as [[E _] | [[E _] | (methods & hd & body & _ & _ & HB & Hh & _)]].
  - discriminate E.
  - exact E.
  - exfalso. injection HB as <-. vm_compute in Hh. discriminate Hh.
Defined.

Lemma unsupported_methods_are_turned_away_witness :
  middleware srv {[ "PUT" := createBucket srv ]} fs0 0 get_request
  = (fs0, [Error "method not allowed" StatusMethodNotAllowed]).
Proof.
  apply (proj1 (unsupported_methods_are_turned_away srv fs0 0 get_request _)).
  - exact (router_bucket srv).
  - discriminate.
Defined.

Lemma header_map_contents_witness :
  index (collect put_request) "host" = "localhost:8000"
  /\ index (collect put_request) "authorization" = ""
  /\ index (collect put_request) "x-amz-date" = "20250601T120000Z".
Proof.
  destruct (header_map_contents put_request) as [H1 H2].
  split; [| split].
  - apply (H1 "host"). intros k [<- | []]. vm_compute. discriminate.
  - apply (H1 "authorization"). intros k [<- | []]. vm_compute. discriminate.
  - apply (H2 [] [] "X-Amz-Date" "20250601T120000Z" []).
    + reflexivity.
    + vm_compute. reflexivity.
    + intros [].
    + intros k [].
Defined.

Lemma put_then_get_over_http_witness :
  getObject srv (putObject srv fs1 1748779200 put_request).1 1748779300 get_request
  = ((putObject srv fs1 1748779200 put_request).1, [WriteHeader StatusOK; Write hello]).
Proof.
  apply (put_then_get_over_http srv fs1 1748779200 put_request metadata_codec_reads_back).
  - vm_compute. reflexivity.
  - reflexivity.
  - reflexivity.
Defined.

Lemma corrupted_object_is_an_internal_error_witness :
  getObject srv fs2_corrupt 0 get_request
  = (fs2_corrupt, [Println "[ERROR] - content checksum mismatch";
                   Error "internal server error" StatusInternalServerError]).
Proof.
  eapply (corrupted_object_is_an_internal_error srv fs2_corrupt 0 get_request tampered).
  - vm_compute. reflexivity.
  - vm_compute. reflexivity.
  - vm_compute. reflexivity.
  - vm_compute. reflexivity.
  - vm_compute. reflexivity.
  - vm_compute. discriminate.
Defined.

Lemma createBucket_outcomes_witness :
  createBucket srv fs0 0 put_request
  = (<[["data"; "test-bucket"] := Dir]> fs0,
     [WriteHeader 201; Write (Bytes.of_string created_document)]).
Proof.
  rewrite (createBucket_outcomes srv fs0 0 put_request ["data"]).
  - assert (E1 : validName (PathValue put_request "name") = None) by (vm_compute; reflexivity).
    assert (E2 : fs0 !! (["data"] ++ [PathValue put_request "name"]) = None)
      by (vm_compute; reflexivity).
    rewrite E1, E2. reflexivity.
  - vm_compute. reflexivity.
  - vm_compute. reflexivity.
Defined.

End ServerWitnesses.

Section RecordWitnesses.
Import Example_request Example_store Example_server Example_signed HTTP Server OS.
#[local] Existing Instance latin1_runtime.
#[local] Existing Instance metadata_codec.
#[local] Existing Instance ascii_case.

Lemma Put_records_the_metadata_witness :
  let dir := path s +:+ "/" +:+ "test-bucket" +:+ "/"
             +:+ Sha256Hash (Bytes.of_string "test.txt") in
  exists mb,
    ReadFile fs2 (dir +:+ "/metadata.json") = Ok mb
    /\ JSON.Unmarshal mb
       = Ok {| ContentHash := Sha256Hash hello;
               ContentSize := Z.of_nat (length hello);
               OriginalKey := "test.txt";
               LastModified := 1748779200 |}
    /\ ReadFile fs2 (dir +:+ "/body") = Ok hello.
Proof.
  apply (Put_records_the_metadata s fs1 fs2 "test-bucket" "test.txt" hello 1748779200).
  - reflexivity.
  - apply no_error_eta. vm_compute. reflexivity.
Defined.

Lemma metadata_round_trip_witness :
  exists b,
    JSON.Marshal {| ContentHash := "00ff"; ContentSize := 12;
                    OriginalKey := "a/b c.txt"; LastModified := -1 |} = Ok b
    /\ JSON.Unmarshal b
       = Ok {| ContentHash := "00ff"; ContentSize := 12;
               OriginalKey := "a/b c.txt"; LastModified := -1 |}.
Proof.
  apply (metadata_round_trip {| ContentHash := "00ff"; ContentSize := 12;
                                OriginalKey := "a/b c.txt"; LastModified := -1 |});
    reflexivity.
Defined.

Lemma delete_then_get_over_http_witness :
  let fs' := (deleteObject srv fs2 0 get_request).1 in
  getObject srv fs' 1 get_request
  = (fs', [Error "object under requested key does not exist" StatusNotFound])
  /\ deleteObject srv fs' 1 get_request
     = (fs', [Error "object under requested key does not exist" StatusNotFound]).
Proof.
  apply (delete_then_get_over_http srv fs2 0 get_request).
  - vm_compute. reflexivity.
  - vm_compute. reflexivity.
  - vm_compute. reflexivity.
  - reflexivity.
  - reflexivity.
Defined.

Lemma signed_request_reaches_its_handler_witness :
  middleware srv {[ "PUT" := putObject srv ]} fs1 1748779200 signed_put_request
  = putObject srv fs1 1748779200 (reread signed_put_request hello).
Proof.
  apply (signed_request_reaches_its_handler srv {[ "PUT" := putObject srv ]} (putObject srv)
           fs1 1748779200 signed_put_request hello put_headers scope signed_names).
  - apply lookup_singleton_eq.
  - reflexivity.
  - reflexivity.
  - reflexivity.
  - reflexivity.
  - reflexivity.
  - reflexivity.
  - reflexivity.
  - vm_compute. intuition discriminate.
  - vm_compute. reflexivity.
  - vm_compute. reflexivity.
Defined.

End RecordWitnesses.
